(** * go-chunk-update: the chunked range-execution engine

    A shallow embedding of [internal/chunk/chunk.go] (the [Chunker]) and of
    the driver [runChunkUpdate] of [cmd/chunk/main.go], together with a
    small model of the MySQL session the engine talks to.

    - Go strings are [string]s (bytes), with the functions of package
      [strings] the code calls written out ([Replace], [Split], [Join],
      [Contains], [Index], and [ToLower] up to the case tables of
      package [unicode]); Go's [int] is 64 bits wide and wraps around.
    - A Go function that talks to the database is a function in the monad
      [M], which threads the database and the trace of calls issued and
      stops at the first error, panic or exit.
    - The SQL text built with [fmt.Sprintf] is kept structured ([sql]) and
      turned into the text the code sends by [render]. *)

From stdpp Require Import gmap strings list pretty sorting.
From Stdlib Require Import Ascii ZArith Lia.

Open Scope string_scope.
Open Scope Z_scope.

(** ** Package [strings] *)

Module strings.

(** [strings.HasPrefix(s, p)] *)
Definition HasPrefix (s p : string) : bool := String.prefix p s.

(** [strings.Index(s, sub)]: position of the first occurrence, if any
    (Go returns [-1] for none). *)
Fixpoint Index (s sub : string) : option nat :=
  if HasPrefix s sub then Some 0%nat
  else match s with
       | EmptyString => None
       | String _ s' => S <$> Index s' sub
       end.

(** [strings.Contains(s, sub)] is [Index(s, sub) >= 0]. *)
Definition Contains (s sub : string) : bool := bool_decide (is_Some (Index s sub)).

(** The scan behind [strings.Replace(s, old, new, -1)] for a non-empty
    [old]: occurrences are taken leftmost first and do not overlap;
    [skip] counts the bytes of the occurrence just replaced that are
    still to be passed over. *)
Fixpoint Replace_scan (old new : string) (skip : nat) (s : string) : string :=
  match s with
  | EmptyString => EmptyString
  | String c s' =>
      match skip with
      | S k => Replace_scan old new k s'
      | O => if HasPrefix s old
             then new +:+ Replace_scan old new (String.length old - 1) s'
             else String c (Replace_scan old new 0 s')
      end
  end.

(** [strings.Replace(s, old, new, -1)].  Every caller passes an [old]
    that starts with [GO_CHUNK(]; the empty [old], which Go treats
    rune-wise, does not arise. *)
Definition Replace (s old new : string) : string := Replace_scan old new 0 s.

(** The scan behind [strings.Split(s, sep)] for a non-empty [sep]. *)
Fixpoint Split_scan (sep : string) (skip : nat) (s : string) : list string :=
  match s with
  | EmptyString => [EmptyString]
  | String c s' =>
      match skip with
      | S k => Split_scan sep k s'
      | O => if HasPrefix s sep
             then EmptyString :: Split_scan sep (String.length sep - 1) s'
             else match Split_scan sep 0 s' with
                  | t :: ts => String c t :: ts
                  | [] => [String c EmptyString]
                  end
      end
  end.

(** [strings.Split(s, sep)] *)
Definition Split (s sep : string) : list string := Split_scan sep 0 s.

(** [strings.Join(elems, sep)] *)
Definition Join (elems : list string) (sep : string) : string :=
  String.concat sep elems.

End strings.

(** ** [strings.ToLower]

    Go scans the bytes of the string.  A string of ASCII bytes only
    (none at [utf8.RuneSelf = 0x80] or above) is lower-cased byte by
    byte.  Any other string goes to [strings.Map(unicode.ToLower, s)],
    which decodes the runes and maps each through the case tables of
    package [unicode].  The tables are no part of this development:
    [Map_ToLower] stands for that call, and what is proved below holds
    whatever it gives. *)
Class Unicode : Type := { Map_ToLower : string → string }.

Fixpoint isASCII (s : string) : bool :=
  match s with
  | EmptyString => true
  | String c s' => bool_decide (nat_of_ascii c < 128)%nat && isASCII s'
  end.

(** [c += 'a' - 'A'] for ['A' <= c && c <= 'Z']. *)
Definition lower_byte (a : ascii) : ascii :=
  let n := nat_of_ascii a in
  if bool_decide (65 ≤ n ≤ 90)%nat then ascii_of_nat (n + 32) else a.

Fixpoint lower_bytes (s : string) : string :=
  match s with
  | EmptyString => EmptyString
  | String c s' => String (lower_byte c) (lower_bytes s')
  end.

Definition ToLower `{Unicode} (s : string) : string :=
  if isASCII s then lower_bytes s else Map_ToLower s.

(** ** Go's [int]

    64 bits wide, as on the platforms the program is built for; the
    arithmetic on it wraps around. *)
Definition MaxInt : Z := 2 ^ 63 - 1.

Definition wrap_int (x : Z) : Z := (x + 2 ^ 63) `mod` 2 ^ 64 - 2 ^ 63.

(** ** Package [strconv] *)

Module strconv.

Definition digit (a : ascii) : option Z :=
  let n := nat_of_ascii a in
  if bool_decide (48 ≤ n ≤ 57)%nat then Some (Z.of_nat n - 48) else None.

Fixpoint digits (acc : Z) (s : string) : option Z :=
  match s with
  | EmptyString => Some acc
  | String c s' =>
      match digit c with
      | Some d => digits (acc * 10 + d) s'
      | None => None
      end
  end.

(** [strconv.Atoi(s)]: an optional sign, then one or more decimal digits,
    the value within the range of [int] (64 bits); [None] is Go's non-nil
    [err]. *)
Definition Atoi (s : string) : option Z :=
  match s with
  | EmptyString => None
  | String c s' =>
      let '(neg, body) :=
        if bool_decide (c = "-"%char) then (true, s')
        else if bool_decide (c = "+"%char) then (false, s')
        else (false, s) in
      match body with
      | EmptyString => None
      | _ =>
          match digits 0 body with
          | Some n =>
              let v := if neg then - n else n in
              if bool_decide (- 2 ^ 63 ≤ v < 2 ^ 63) then Some v else None
          | None => None
          end
      end
  end.

(** [strconv.FormatInt(i, 10)], also what [%d] and [%v] print for an
    integer. *)
Definition FormatInt (i : Z) : string := pretty i.

End strconv.

(** ** The sentinel pattern of [runChunkUpdate]

    [regexp.MustCompile(`GO_CHUNK\(([^)]+)\)`).FindStringSubmatch]: the
    leftmost place where [GO_CHUNK(] is followed by one or more bytes other
    than a closing parenthesis and then by one; the result is the
    submatch, [matches[1]]. *)

Fixpoint span_table (s : string) : string * string :=
  match s with
  | EmptyString => (EmptyString, EmptyString)
  | String c s' =>
      if bool_decide (c = ")"%char) then (EmptyString, s)
      else let '(a, b) := span_table s' in (String c a, b)
  end.

Definition match_sentinel_here (s : string) : option string :=
  if strings.HasPrefix s "GO_CHUNK(" then
    let '(tok, rest) := span_table (String.substring 9 (String.length s - 9) s) in
    match tok, rest with
    | String _ _, String _ _ => Some tok
    | _, _ => None
    end
  else None.

Fixpoint FindStringSubmatch (s : string) : option string :=
  match match_sentinel_here s with
  | Some t => Some t
  | None =>
      match s with
      | EmptyString => None
      | String _ s' => FindStringSubmatch s'
      end
  end.


(** ** Values, errors and outcomes *)

(** A Go [interface{}] as the driver hands it over: [nil], an [int64], a
    [string] (byte slices are turned into strings by [QueryRow]), or a
    value of another type kept with the text [%v] prints for it. *)
Inductive value : Type :=
  | VNil
  | VInt64 (n : Z)
  | VString (s : string)
  | VOther (shown : string).

(** A result row, [map[string]interface{}].  Indexing a Go map with a
    missing key gives the zero value, here [nil]. *)
Definition row_get (row : gmap string value) (col : string) : value :=
  default VNil (row !! col).

(** Go [error] values: the sentinel [sql.ErrNoRows] and errors that carry
    a message ([fmt.Errorf], driver errors). *)
Inductive error : Type :=
  | ErrNoRows
  | ErrorString (msg : string).

(** Why a computation stopped early: it returned a non-nil [err], it
    panicked, the process exited ([os.Exit], [log.Fatal]) after printing
    [out], or the fuel given to the [for] loop ran out. *)
Inductive abort : Type :=
  | Error (e : error)
  | GoPanic (what : string)
  | OsExit (code : Z) (out : string)
  | OutOfFuel.

Inductive outcome (A : Type) : Type :=
  | Ok (a : A)
  | Abort (x : abort).

Arguments Ok {A} a.
Arguments Abort {A} x.

(** The panic of a failed [.(int64)]. *)
Definition panic_int64 : abort := GoPanic "interface conversion: interface {} is not int64".

(** The type assertion [v.(int64)]. *)
Definition assert_int64 (v : value) : outcome Z :=
  match v with
  | VInt64 n => Ok n
  | _ => Abort panic_int64
  end.

(** The type assertion [v.(string)]. *)
Definition assert_string (v : value) : outcome string :=
  match v with
  | VString s => Ok s
  | _ => Abort (GoPanic "interface conversion: interface {} is not string")
  end.

(** [xs[i]] on a slice panics out of range. *)
Definition index {A : Type} (xs : list A) (i : nat) : outcome A :=
  match xs !! i with
  | Some x => Ok x
  | None => Abort (GoPanic "index out of range")
  end.

(** ** The statements the engine sends

    The text of every statement is built with [fmt.Sprintf] from a fixed
    format; [sql] keeps the format and its arguments apart and [render]
    gives the text. *)

(** A select-list item of [SELECT ... INTO]: a session variable, an
    integer printed with [%d], or text inserted as it is. *)
Inductive expr : Type :=
  | EVar (name : string)
  | EInt (n : Z)
  | EText (text : string).

Inductive lower_op : Type := OpGt | OpGe.
Inductive upper_op : Type := OpLt | OpLe.

(** A key-range condition, [cols LO lo AND cols HI hi], on one column and
    two variables, or in the tuple form [(cols) LO (lo,...) AND (cols) HI
    (hi,...)]. *)
Inductive range_pred : Type :=
  | Single (cols : string) (lo_op : lower_op) (lo : string) (hi_op : upper_op) (hi : string)
  | Tuple (cols : string) (lo_op : lower_op) (lo : list string) (hi_op : upper_op) (hi : list string).

Inductive sql : Type :=
  | Raw (text : string)
  | SelectInto (src : list expr) (dst : list string)
  | SelectKeyInto (cols : string) (dst : list string) (database table : string) (desc : bool)
  | RangeExists (database table : string)
  | SelectVar (name : string)
  | SetLogBinOff
  | Probe (cols database table : string) (whereClause : range_pred) (limit : Z)
  | SelectOverflow (a b : string)
  | Dml (executeQuery sentinel : string) (p : range_pred).

Definition at_vars (names : list string) : string :=
  strings.Join ((λ n, "@" +:+ n) <$> names) ",".

Definition render_expr (e : expr) : string :=
  match e with
  | EVar name => "@" +:+ name
  | EInt n => strconv.FormatInt n
  | EText text => text
  end.

Definition render_lower (o : lower_op) : string :=
  match o with OpGt => ">" | OpGe => ">=" end.

Definition render_upper (o : upper_op) : string :=
  match o with OpLt => "<" | OpLe => "<=" end.

Definition render_pred (p : range_pred) : string :=
  match p with
  | Single cols lo_op lo hi_op hi =>
      cols +:+ " " +:+ render_lower lo_op +:+ " @" +:+ lo +:+ " AND " +:+
      cols +:+ " " +:+ render_upper hi_op +:+ " @" +:+ hi
  | Tuple cols lo_op lo hi_op hi =>
      "(" +:+ cols +:+ ") " +:+ render_lower lo_op +:+ " (" +:+ at_vars lo +:+ ") AND (" +:+
      cols +:+ ") " +:+ render_upper hi_op +:+ " (" +:+ at_vars hi +:+ ")"
  end.

(** Line feed and tab, for the statements written as raw string literals
    over several lines. *)
Definition nl : string := String (ascii_of_nat 10) EmptyString.
Definition tab3 : string :=
  let t := ascii_of_nat 9 in String t (String t (String t EmptyString)).
Definition tab2 : string :=
  let t := ascii_of_nat 9 in String t (String t EmptyString).

Definition render (q : sql) : string :=
  match q with
  | Raw text => text
  | SelectInto src dst =>
      "SELECT " +:+ strings.Join (render_expr <$> src) "," +:+ " INTO " +:+ at_vars dst
  | SelectKeyInto cols dst database table desc =>
      nl +:+ tab3 +:+ "SELECT " +:+ cols +:+ " INTO " +:+ at_vars dst +:+
      nl +:+ tab3 +:+ "FROM " +:+ database +:+ "." +:+ table +:+
      nl +:+ tab3 +:+ "ORDER BY " +:+ cols +:+ (if desc then " DESC" else "") +:+ " LIMIT 1" +:+
      nl +:+ tab2
  | RangeExists database table =>
      "SELECT COUNT(*) AS range_exists FROM (SELECT NULL FROM " +:+ database +:+ "." +:+ table +:+
      " LIMIT 1) SEL1"
  | SelectVar name => "SELECT @" +:+ name +:+ " AS " +:+ name
  | SetLogBinOff => "SET SESSION SQL_LOG_BIN=0"
  | Probe cols database table whereClause limit =>
      "SELECT " +:+ cols +:+ " FROM (SELECT " +:+ cols +:+ " FROM " +:+ database +:+ "." +:+ table +:+
      " WHERE " +:+ render_pred whereClause +:+ " ORDER BY " +:+ cols +:+
      " LIMIT " +:+ strconv.FormatInt limit +:+ ") t ORDER BY " +:+ cols +:+ " DESC LIMIT 1"
  | SelectOverflow a b => "SELECT @" +:+ a +:+ " >= @" +:+ b +:+ " AS overflow"
  | Dml executeQuery sentinel p => strings.Replace executeQuery sentinel (render_pred p)
  end.

(** ** The database session and the calls made on it *)

(** [DBInterface]: the operations the [Chunker] needs from its database,
    over a database state [S].  Each takes the state and gives the
    result and the state after. *)
Record DBInterface (S : Type) : Type := {
  Exec : sql → S → outcome Z * S;
  QueryRow : sql → S → outcome (gmap string value) * S;
  TableExists : string → string → S → outcome bool * S;
  GetPossibleUniqueKeyColumns : string → string → S → outcome (list (gmap string value)) * S;
  LockTableRead : string → string → S → outcome unit * S;
  UnlockTables : S → outcome unit * S
}.

Arguments Exec {S} _ _ _.
Arguments QueryRow {S} _ _ _.
Arguments TableExists {S} _ _ _ _.
Arguments GetPossibleUniqueKeyColumns {S} _ _ _ _.
Arguments LockTableRead {S} _ _ _ _.
Arguments UnlockTables {S} _ _.

(** [mysql.Config], what [mysql.NewDB] connects with. *)
Record ConnConfig : Type := {
  User : string;
  Password : string;
  Host : string;
  Port : Z;
  Socket : string;
  ConnDatabase : string;
  DefaultsFile : string
}.

(** One call on the database, as it appears in the trace. *)
Inductive call : Type :=
  | CallNewDB (config : ConnConfig)
  | CallClose
  | CallExec (q : sql)
  | CallQueryRow (q : sql)
  | CallTableExists (database table : string)
  | CallGetPossibleUniqueKeyColumns (database table : string)
  | CallLockTableRead (database table : string)
  | CallUnlockTables.

(** A computation over the database state and the trace of calls issued
    so far. *)
Definition M (S A : Type) : Type := S * list call → outcome A * (S * list call).

Definition ret {S A : Type} (a : A) : M S A := λ w, (Ok a, w).

Definition bind {S A B : Type} (m : M S A) (k : A → M S B) : M S B :=
  λ w, match m w with
       | (Ok a, w') => k a w'
       | (Abort x, w') => (Abort x, w')
       end.

Definition lift {S A : Type} (o : outcome A) : M S A := λ w, (o, w).

Definition fail {S A : Type} (x : abort) : M S A := λ w, (Abort x, w).

(** [fmt.Errorf(msg)] returned as the function's [err]. *)
Definition Errorf {S A : Type} (msg : string) : M S A := fail (Error (ErrorString msg)).

(** Issue a call: log it, then let the database answer. *)
Definition issue {S A : Type} (c : call) (op : S → outcome A * S) : M S A :=
  λ w, let '(r, s') := op w.1 in (r, (s', (w.2 ++ [c])%list)).

Notation "'let*' x := m 'in' k" := (bind m (λ x, k))
  (at level 10, x pattern, m at level 100, k at level 200).

(** ** [Config] and the variable names *)

(** [chunk.Config].  [CountColumnsInUniqueKey] is the length of the
    slices the engine makes and is a [nat]; the negative count, with
    which the first [make] panics, is dealt with where the driver stores
    it ([runChunkUpdate]).  [SleepRatio], a [float64] nothing reads, is
    left out. *)
Record Config : Type := {
  Database : string;
  Table : string;
  UniqueKeyColumnNames : string;
  CountColumnsInUniqueKey : nat;
  UniqueKeyType : string;
  UniqueKeyColumnNamesList : list string;
  ChunkSize : Z;
  StartWith : string;
  EndWith : string;
  TerminateOnNotFound : bool;
  ForcedChunkingColumn : string;
  SkipRetryChunk : bool;
  NoLogBin : bool;
  SleepMillis : Z;
  Verbose : bool;
  Debug : bool
}.

(** The names of the [k] session variables of a family, without the
    leading [@]: [fmt.Sprintf("unique_key_min_value_%d", i)] for
    [i = 0 .. k-1]. *)
Definition var_names (family : string) (k : nat) : list string :=
  (λ i : nat, family +:+ pretty i) <$> seq 0 k.

Definition min_value_names : nat → list string := var_names "unique_key_min_value_".
Definition max_value_names : nat → list string := var_names "unique_key_max_value_".
Definition range_start_names : nat → list string := var_names "unique_key_range_start_".
Definition range_end_names : nat → list string := var_names "unique_key_range_end_".

Definition getUniqueKeyMinValuesVariables (c : Config) : string :=
  at_vars (min_value_names (CountColumnsInUniqueKey c)).

Definition getUniqueKeyMaxValuesVariables (c : Config) : string :=
  at_vars (max_value_names (CountColumnsInUniqueKey c)).

Definition getUniqueKeyRangeStartVariables (c : Config) : string :=
  at_vars (range_start_names (CountColumnsInUniqueKey c)).

Definition getUniqueKeyRangeEndVariables (c : Config) : string :=
  at_vars (range_end_names (CountColumnsInUniqueKey c)).

(** What [%v] prints for a value. *)
Definition show_value (v : value) : string :=
  match v with
  | VNil => "<nil>"
  | VInt64 n => strconv.FormatInt n
  | VString s => s
  | VOther shown => shown
  end.

(** ** The [Chunker]

    Progress lines ([Verbose], [fmt.Printf]), the progress percentage
    computed in floating point, the running total of affected rows that
    only those lines show, and [time.Sleep] change neither the database
    nor the control flow and are left out. *)

Section Chunker.

Context `{Unicode} {St : Type} (db : DBInterface St).

Definition dbExec (q : sql) : M St Z := issue (CallExec q) (Exec db q).

Definition dbQueryRow (q : sql) : M St (gmap string value) :=
  issue (CallQueryRow q) (QueryRow db q).

Definition dbTableExists (database table : string) : M St bool :=
  issue (CallTableExists database table) (TableExists db database table).

Definition dbGetPossibleUniqueKeyColumns (database table : string)
  : M St (list (gmap string value)) :=
  issue (CallGetPossibleUniqueKeyColumns database table)
        (GetPossibleUniqueKeyColumns db database table).

Definition dbLockTableRead (database table : string) : M St unit :=
  issue (CallLockTableRead database table) (LockTableRead db database table).

Definition dbUnlockTables : M St unit := issue CallUnlockTables (UnlockTables db).

(** The classification of the head row of the information schema. *)
Definition classify (charSet : value) (dataType : string) : outcome string :=
  let by_type :=
    if strings.Contains dataType "int" then "integer"
    else if strings.Contains dataType "time" || strings.Contains dataType "date" then "temporal"
    else "" in
  match charSet with
  | VNil => Ok by_type
  | VString cs => if bool_decide (cs = "") then Ok by_type else Ok "text"
  | _ => Abort (GoPanic "interface conversion: interface {} is not string")
  end.

(** The count it returns is an [int]: the length of a slice, 1, 0, or
    the [int64] of the catalogue converted with [int(...)], which keeps
    its value. *)
Definition GetSelectedUniqueKeyColumnNames (c : Config) : M St (string * Z * string) :=
  if bool_decide (ForcedChunkingColumn c ≠ "") then
    let tokens := strings.Split (ForcedChunkingColumn c) "," in
    if bool_decide (1 < length tokens)%nat then
      ret (ForcedChunkingColumn c, Z.of_nat (length tokens), "")
    else if strings.Contains (ForcedChunkingColumn c) ":" then
      let parts := strings.Split (ForcedChunkingColumn c) ":" in
      let* p0 := lift (index parts 0) in
      let* p1 := lift (index parts 1) in
      ret (p0, 1, p1)
    else ret (ForcedChunkingColumn c, 1, "")
  else
    let* rows := dbGetPossibleUniqueKeyColumns (Database c) (Table c) in
    match rows with
    | [] => ret ("", 0, "")
    | row :: _ =>
        let* names := lift (assert_string (row_get row "COLUMN_NAMES")) in
        let columnNames := ToLower names in
        let* countColumns := lift (assert_int64 (row_get row "COUNT_COLUMN_IN_INDEX")) in
        let* dt := lift (assert_string (row_get row "DATA_TYPE")) in
        let dataType := ToLower dt in
        let charSet := row_get row "CHARACTER_SET_NAME" in
        let* uniqueKeyType := lift (classify charSet dataType) in
        ret (columnNames, countColumns, uniqueKeyType)
    end.

Definition getSessionVariableValue (name : string) : M St value :=
  let* row := dbQueryRow (SelectVar name) in
  ret (row_get row name).

(** One bound of [GetUniqueKeyRange]: [with_] is [StartWith] or
    [EndWith], [column] the column the sub-statement must give
    ([start_with], [end_with]), [vars] the variables to seed, [desc] the
    direction of the default, [flag] the option named in the error. *)
Definition seed_bound (c : Config) (with_ column : string) (vars : list string)
    (desc : bool) (flag : string) : M St unit :=
  if bool_decide (with_ ≠ "") then
    if bool_decide (UniqueKeyType c = "integer") && bool_decide (CountColumnsInUniqueKey c = 1%nat) then
      match strconv.Atoi with_ with
      | Some n =>
          let* _ := dbExec (SelectInto [EInt n] vars) in
          ret tt
      | None =>
          let* row := dbQueryRow (Raw with_) in
          let* n := lift (assert_int64 (row_get row column)) in
          let* _ := dbExec (SelectInto [EInt n] vars) in
          ret tt
      end
    else Errorf (flag +:+ " only applies to single column integer chunking keys")
  else
    let* _ := dbExec (SelectKeyInto (UniqueKeyColumnNames c) vars (Database c) (Table c) desc) in
    ret tt.

(** The read-back loop of [GetUniqueKeyRange] over [i = 0 .. k-1]. *)
Fixpoint read_range (indices : list nat) : M St (list value * list value) :=
  match indices with
  | [] => ret ([], [])
  | i :: is' =>
      let* minVal := getSessionVariableValue ("unique_key_min_value_" +:+ pretty i) in
      let* maxVal := getSessionVariableValue ("unique_key_max_value_" +:+ pretty i) in
      let* rest := read_range is' in
      ret (minVal :: rest.1, maxVal :: rest.2)
  end.

Definition GetUniqueKeyRange (c : Config) : M St (list value * list value * bool) :=
  let minVars := min_value_names (CountColumnsInUniqueKey c) in
  let maxVars := max_value_names (CountColumnsInUniqueKey c) in
  let* _ := seed_bound c (StartWith c) "start_with" minVars false "--start-with" in
  let* _ := seed_bound c (EndWith c) "end_with" maxVars true "--end-with" in
  let* row := dbQueryRow (RangeExists (Database c) (Table c)) in
  let val := row_get row "range_exists" in
  let* rangeExists :=
    match val with
    | VNil => ret false
    | _ => let* n := lift (assert_int64 val) in ret (bool_decide (0 < n))
    end in
  if rangeExists then
    let* values := read_range (seq 0 (CountColumnsInUniqueKey c)) in
    ret (values.1, values.2, true)
  else ret ([], [], false).

(** The sentinel [ChunkUpdate] looks for: ["GO_CHUNK(" + Table + ")"]. *)
Definition sentinel (c : Config) : string := "GO_CHUNK(" +:+ Table c +:+ ")".

(** The condition of the first round's statement. *)
Definition first_pred (c : Config) : range_pred :=
  if bool_decide (CountColumnsInUniqueKey c = 1%nat) then
    Single (UniqueKeyColumnNames c) OpGe "unique_key_min_value_0" OpLt "unique_key_range_end_0"
  else
    Tuple (UniqueKeyColumnNames c) OpGe (min_value_names (CountColumnsInUniqueKey c))
          OpLt (range_end_names (CountColumnsInUniqueKey c)).

(** The condition of the later rounds' statement. *)
Definition rest_pred (c : Config) : range_pred :=
  if bool_decide (CountColumnsInUniqueKey c = 1%nat) then
    Single (UniqueKeyColumnNames c) OpGt "unique_key_range_start_0" OpLt "unique_key_range_end_0"
  else
    Tuple (UniqueKeyColumnNames c) OpGt (range_start_names (CountColumnsInUniqueKey c))
          OpLt (range_end_names (CountColumnsInUniqueKey c)).

Definition firstQuery (c : Config) (executeQuery : string) : sql :=
  Dml executeQuery (sentinel c) (first_pred c).

Definition restQuery (c : Config) (executeQuery : string) : sql :=
  Dml executeQuery (sentinel c) (rest_pred c).

(** The condition of the probe, [whereClause]. *)
Definition probe_pred (c : Config) : range_pred :=
  if bool_decide (CountColumnsInUniqueKey c = 1%nat) then
    Single (UniqueKeyColumnNames c) OpGt "unique_key_range_start_0" OpLe "unique_key_max_value_0"
  else
    Tuple (UniqueKeyColumnNames c) OpGt (range_start_names (CountColumnsInUniqueKey c))
          OpLe (max_value_names (CountColumnsInUniqueKey c)).

(** The literal installed into the end variable on a single-column key. *)
Definition end_literal (endVal : value) : expr :=
  match endVal with
  | VString s => EText s
  | VInt64 i => EInt i
  | _ => EText (show_value endVal)
  end.

(** The literal of one component on a composite key. *)
Definition tuple_literal (val : value) : expr :=
  match val with
  | VString s => EText ("'" +:+ s +:+ "'")
  | VInt64 i => EInt i
  | _ => EText (show_value val)
  end.

(** [vals := make([]string, k)], then [vals[i] = ...] for every column of
    [UniqueKeyColumnNamesList]; an index past [k] panics. *)
Fixpoint fill_vals (row : gmap string value) (i : nat) (columns : list string)
    (vals : list expr) : outcome (list expr) :=
  match columns with
  | [] => Ok vals
  | col :: columns' =>
      if bool_decide (i < length vals)%nat
      then fill_vals row (S i) columns' (<[i := tuple_literal (row_get row col)]> vals)
      else Abort (GoPanic "index out of range")
  end.

(** "Set range end": probe, then install the endpoint.  The limit of
    the probe is [ChunkSize], after the first round with [limit++]. *)
Definition set_range_end (c : Config) (firstRound : bool) : M St unit :=
  let limit := if firstRound then ChunkSize c else wrap_int (ChunkSize c + 1) in
  let query := Probe (UniqueKeyColumnNames c) (Database c) (Table c) (probe_pred c) limit in
  λ w,
    match dbQueryRow query w with
    | (Abort (Error ErrNoRows), w') =>
        (let* _ :=
           if bool_decide (CountColumnsInUniqueKey c = 1%nat)
           then dbExec (SelectInto [EVar "unique_key_max_value_0"] ["unique_key_range_end_0"])
           else dbExec (SelectInto (EVar <$> max_value_names (CountColumnsInUniqueKey c))
                                   (range_end_names (CountColumnsInUniqueKey c))) in
         ret tt) w'
    | (Abort x, w') => (Abort x, w')
    | (Ok row, w') =>
        (let* _ :=
           if bool_decide (CountColumnsInUniqueKey c = 1%nat)
           then dbExec (SelectInto [end_literal (row_get row (UniqueKeyColumnNames c))]
                                   ["unique_key_range_end_0"])
           else
             let* vals := lift (fill_vals row 0 (UniqueKeyColumnNamesList c)
                                          (replicate (CountColumnsInUniqueKey c) (EText ""))) in
             dbExec (SelectInto vals (range_end_names (CountColumnsInUniqueKey c))) in
         ret tt) w'
    end.

(** "Check if overflow": whether the loop breaks in this round. *)
Definition check_overflow (firstRound : bool) : M St bool :=
  if negb firstRound then
    let* row := dbQueryRow (SelectOverflow "unique_key_range_start_0" "unique_key_max_value_0") in
    let* overflow := lift (assert_int64 (row_get row "overflow")) in
    ret (bool_decide (overflow = 1))
  else ret false.

(** One round of the [for] loop of [ChunkUpdate]; the result tells
    whether the loop breaks. *)
Definition chunk_round (c : Config) (executeQuery : string) (firstRound : bool) : M St bool :=
  let* _ := set_range_end c firstRound in
  let* startVal := getSessionVariableValue "unique_key_range_start_0" in
  let* endVal := getSessionVariableValue "unique_key_range_end_0" in
  let* overflow := check_overflow firstRound in
  if overflow then ret true
  else
    let q := if firstRound then firstQuery c executeQuery else restQuery c executeQuery in
    let* affected := dbExec q in
    let* _ := dbExec (SelectInto [EVar "unique_key_range_end_0"] ["unique_key_range_start_0"]) in
    ret false.

(** The [for] loop; [fuel] bounds the number of rounds, and the loop that
    has not stopped when it is used up ends in [OutOfFuel]. *)
Fixpoint chunk_loop (c : Config) (executeQuery : string) (fuel : nat) (firstRound : bool)
    : M St unit :=
  match fuel with
  | O => fail OutOfFuel
  | S fuel' =>
      let* stop := chunk_round c executeQuery firstRound in
      if stop then ret tt else chunk_loop c executeQuery fuel' false
  end.

(** [ChunkUpdate] up to the loop: the binary-log directive, the two
    reads kept for the progress lines, and "Set initial range". *)
Definition ChunkUpdate_preamble (c : Config) : M St unit :=
  let* _ := if NoLogBin c then dbExec SetLogBinOff else ret 0 in
  let* minVal := getSessionVariableValue "unique_key_min_value_0" in
  let* maxVal := getSessionVariableValue "unique_key_max_value_0" in
  let* _ :=
    if bool_decide (CountColumnsInUniqueKey c = 1%nat)
    then dbExec (SelectInto [EVar "unique_key_min_value_0"] ["unique_key_range_start_0"])
    else dbExec (SelectInto (EVar <$> min_value_names (CountColumnsInUniqueKey c))
                            (range_start_names (CountColumnsInUniqueKey c))) in
  ret tt.

Definition ChunkUpdate (fuel : nat) (c : Config) (executeQuery : string) : M St unit :=
  let* _ := ChunkUpdate_preamble c in
  chunk_loop c executeQuery fuel true.

End Chunker.

(** ** The driver, [runChunkUpdate] *)

(** The command-line flags (the package variables of [main]);
    [sleepRatio] is left out as in [Config]. *)
Record Flags : Type := {
  user : string;
  host : string;
  password : string;
  promptPass : bool;
  port : Z;
  socket : string;
  defaultsFile : string;
  database : string;
  execute : string;
  chunkSize : Z;
  startWith : string;
  endWith : string;
  terminateNF : bool;
  forceColumn : string;
  skipLock : bool;
  skipRetry : bool;
  noLogBin : bool;
  sleepMillis : Z;
  verbose : bool;
  debug : bool
}.

(** What the driver needs besides the session: opening and closing the
    connection ([mysql.NewDB], [db.Close]) and the password prompt
    ([term.ReadPassword]). *)
Record System (S : Type) : Type := {
  NewDB : ConnConfig → S → outcome unit * S;
  Close : S → outcome unit * S;
  ReadPassword : S → outcome string * S
}.

Arguments NewDB {S} _ _ _.
Arguments Close {S} _ _.
Arguments ReadPassword {S} _ _.

(** The message of an [error], as [log.Fatal] prints it. *)
Definition error_text (e : error) : string :=
  match e with
  | ErrNoRows => "sql: no rows in result set"
  | ErrorString msg => msg
  end.

(** [if err != nil { log.Fatal(prefix, err) }]: a returned error ends the
    process with exit code 1 and the message; anything else passes. *)
Definition or_fatal {S A : Type} (prefix : string) (m : M S A) : M S A :=
  λ w, match m w with
       | (Abort (Error e), w') => (Abort (OsExit 1 (prefix +:+ error_text e)), w')
       | r => r
       end.

(** [defer d]: [d] runs when the function returns or panics, not when the
    process exits; its own result is dropped. *)
Definition with_defer {S A : Type} (d : M S unit) (body : M S A) : M S A :=
  λ w, match body w with
       | (Ok a, w') => (Ok a, (d w').2)
       | (Abort (GoPanic what), w') => (Abort (GoPanic what), (d w').2)
       | r => r
       end.

(** [fmt.Println(msg); os.Exit(1)] *)
Definition exit_error {S A : Type} (msg : string) : M S A := fail (OsExit 1 msg).

(** [tableTokens[len(tableTokens)-1]] *)
Definition last_token (tableTokens : list string) : outcome string :=
  index tableTokens (length tableTokens - 1).

Section Driver.

Context `{Unicode} {St : Type} (db : DBInterface St) (sys : System St).

Definition Config_of_Flags (f : Flags) (dbName tableName : string) : Config :=
  {| Database := dbName;
     Table := tableName;
     UniqueKeyColumnNames := "";
     CountColumnsInUniqueKey := 0;
     UniqueKeyType := "";
     UniqueKeyColumnNamesList := [];
     ChunkSize := chunkSize f;
     StartWith := startWith f;
     EndWith := endWith f;
     TerminateOnNotFound := terminateNF f;
     ForcedChunkingColumn := forceColumn f;
     SkipRetryChunk := skipRetry f;
     NoLogBin := noLogBin f;
     SleepMillis := sleepMillis f;
     Verbose := verbose f;
     Debug := debug f |}.

(** [chunker.Config.UniqueKeyColumnNames = uniqueKey] and the three
    assignments after it. *)
Definition with_unique_key (c : Config) (uniqueKey : string) (count : nat) (keyType : string)
    : Config :=
  {| Database := Database c;
     Table := Table c;
     UniqueKeyColumnNames := uniqueKey;
     CountColumnsInUniqueKey := count;
     UniqueKeyType := keyType;
     UniqueKeyColumnNamesList := strings.Split uniqueKey ",";
     ChunkSize := ChunkSize c;
     StartWith := StartWith c;
     EndWith := EndWith c;
     TerminateOnNotFound := TerminateOnNotFound c;
     ForcedChunkingColumn := ForcedChunkingColumn c;
     SkipRetryChunk := SkipRetryChunk c;
     NoLogBin := NoLogBin c;
     SleepMillis := SleepMillis c;
     Verbose := Verbose c;
     Debug := Debug c |}.

(** The part of [runChunkUpdate] from "Lock table if needed" on. *)
Definition lock_and_chunk (fuel : nat) (f : Flags) (c : Config) (dbName tableName : string)
    : M St string :=
  let work : M St string :=
    let* range := or_fatal "Range error:" (GetUniqueKeyRange db c) in
    let rangeExists := range.2 in
    if negb rangeExists then ret "No range to process"
    else
      let* _ := or_fatal "Chunk error:" (ChunkUpdate db fuel c (execute f)) in
      ret "" in
  if negb (skipLock f) then
    let* _ := or_fatal "Lock error:" (dbLockTableRead db dbName tableName) in
    with_defer (dbUnlockTables db) work
  else work.

(** The same part when the [count] of the key is negative.  The driver
    stores it in [CountColumnsInUniqueKey] as any other and locks the
    table; [GetUniqueKeyRange] then starts with
    [getUniqueKeyMinValuesVariables], whose [make([]string, count)]
    panics. *)
Definition lock_and_panic (f : Flags) (dbName tableName : string) : M St string :=
  let work : M St string := fail (GoPanic "runtime error: makeslice: len out of range") in
  if negb (skipLock f) then
    let* _ := or_fatal "Lock error:" (dbLockTableRead db dbName tableName) in
    with_defer (dbUnlockTables db) work
  else work.

(** [runChunkUpdate]; the result is what the run prints last on standard
    output when it returns.  [Config] keeps the count of the key as a
    [nat]; the run with a negative count is [lock_and_panic]. *)
Definition runChunkUpdate (fuel : nat) (f : Flags) : M St string :=
  if bool_decide (execute f = "") then exit_error "Error: --execute is required"
  else
    match FindStringSubmatch (execute f) with
    | None => exit_error "Error: Query must contain GO_CHUNK(table_name)"
    | Some tableSpec =>
        let tableTokens := strings.Split tableSpec "." in
        let* tableName := lift (last_token tableTokens) in
        let dbName :=
          if bool_decide (length tableTokens = 2%nat)
          then default "" (tableTokens !! 0%nat) else database f in
        if bool_decide (dbName = "") then exit_error "Error: No database specified"
        else
          let* pass :=
            if promptPass f
            then or_fatal "" (λ w, let '(r, s') := ReadPassword sys w.1 in (r, (s', w.2)))
            else ret (password f) in
          let config :=
            {| User := user f; Password := pass; Host := host f; Port := port f;
               Socket := socket f; ConnDatabase := dbName; DefaultsFile := defaultsFile f |} in
          let* _ := or_fatal "DB connection error:" (issue (CallNewDB config) (NewDB sys config)) in
          with_defer (issue CallClose (Close sys))
            (let* exists_ := or_fatal "Table check error:" (dbTableExists db dbName tableName) in
             if negb exists_
             then fail (OsExit 1 ("Table " +:+ dbName +:+ "." +:+ tableName +:+ " does not exist"))
             else
               let c := Config_of_Flags f dbName tableName in
               let* key := or_fatal "Unique key error:" (GetSelectedUniqueKeyColumnNames db c) in
               let '(uniqueKey, count, keyType) := key in
               if bool_decide (uniqueKey = "") then fail (OsExit 1 "No unique key found")
               else if bool_decide (count < 0) then lock_and_panic f dbName tableName
               else lock_and_chunk fuel f (with_unique_key c uniqueKey (Z.to_nat count) keyType)
                                   dbName tableName)
    end.

End Driver.

(** ** A MySQL session over a table with an integer key

    The server side of the statements above, for one table whose chunking
    key is a tuple of integer columns: the rows of the table by their key,
    the user variables of the session, and, for every data-changing
    statement executed so far, the keys of the rows its condition
    selected.  The statements leave the keys of the table as they are. *)

Record mysql : Type := {
  key_columns : list string;
  catalog : list (gmap string value);
  table_rows : list (list Z);
  user_vars : gmap string value;
  targeted : list (list (list Z))
}.

(** Row comparison, [(a, b) < (c, d)]: lexicographic. *)
Fixpoint lex_compare (a b : list Z) : comparison :=
  match a, b with
  | [], [] => Eq
  | [], _ :: _ => Lt
  | _ :: _, [] => Gt
  | x :: a', y :: b' =>
      match x ?= y with
      | Eq => lex_compare a' b'
      | c => c
      end
  end.

Definition lex_le (a b : list Z) : Prop := lex_compare a b ≠ Gt.

(** [ORDER BY c1, ..., ck DESC]: the direction applies to the last column
    only, the others stay ascending. *)
Fixpoint desc_compare (a b : list Z) : comparison :=
  match a, b with
  | [], [] => Eq
  | [], _ :: _ => Lt
  | _ :: _, [] => Gt
  | [x], [y] => y ?= x
  | x :: a', y :: b' =>
      match x ?= y with
      | Eq => desc_compare a' b'
      | c => c
      end
  end.

(** [ORDER BY ... LIMIT 1]: the row that comes first in the order. *)
Fixpoint first_by (cmp : list Z → list Z → comparison) (rows : list (list Z))
    : option (list Z) :=
  match rows with
  | [] => None
  | r :: rows' =>
      match first_by cmp rows' with
      | Some r' => if cmp r r' is Gt then Some r' else Some r
      | None => Some r
      end
  end.

#[global] Instance lex_le_dec a b : Decision (lex_le a b).
Proof. unfold lex_le. apply _. Defined.

Definition holds_lower (o : lower_op) (key bound : list Z) : bool :=
  match o, lex_compare key bound with
  | OpGt, Gt => true
  | OpGe, (Gt | Eq) => true
  | _, _ => false
  end.

Definition holds_upper (o : upper_op) (key bound : list Z) : bool :=
  match o, lex_compare key bound with
  | OpLt, Lt => true
  | OpLe, (Lt | Eq) => true
  | _, _ => false
  end.

(** The integer held by a user variable; [None] for an unset variable
    ([NULL]) or one that holds something else. *)
Definition read_int (vars : gmap string value) (name : string) : option Z :=
  match vars !! name with
  | Some (VInt64 n) => Some n
  | _ => None
  end.

Definition read_tuple (vars : gmap string value) (names : list string) : option (list Z) :=
  mapM (read_int vars) names.

(** [key LO lo AND key HI hi] on tuples of the same length. *)
Definition in_window (lo_op : lower_op) (lo : list Z) (hi_op : upper_op) (hi : list Z)
    (key : list Z) : bool :=
  bool_decide (length lo = length key) && bool_decide (length hi = length key) &&
  holds_lower lo_op key lo && holds_upper hi_op key hi.

(** Whether a row satisfies a key-range condition.  A comparison with
    [NULL], or between tuples of different lengths, selects nothing. *)
Definition selects (vars : gmap string value) (p : range_pred) (key : list Z) : bool :=
  let '(lo_op, lo, hi_op, hi) :=
    match p with
    | Single _ lo_op lo hi_op hi => (lo_op, [lo], hi_op, [hi])
    | Tuple _ lo_op lo hi_op hi => (lo_op, lo, hi_op, hi)
    end in
  match read_tuple vars lo, read_tuple vars hi with
  | Some l, Some h => in_window lo_op l hi_op h key
  | _, _ => false
  end.

Definition eval_expr (vars : gmap string value) (e : expr) : option value :=
  match e with
  | EVar name => Some (default VNil (vars !! name))
  | EInt n => Some (VInt64 n)
  | EText _ => None
  end.

(** [SELECT v1, v2, ... INTO @x1, @x2, ...] *)
Fixpoint assign (vars : gmap string value) (dst : list string) (vals : list value)
    : gmap string value :=
  match dst, vals with
  | name :: dst', v :: vals' => assign (<[name := v]> vars) dst' vals'
  | _, _ => vars
  end.

Definition set_vars (σ : mysql) (vars : gmap string value) : mysql :=
  {| key_columns := key_columns σ; catalog := catalog σ; table_rows := table_rows σ;
     user_vars := vars; targeted := targeted σ |}.

Definition add_targeted (σ : mysql) (keys : list (list Z)) : mysql :=
  {| key_columns := key_columns σ; catalog := catalog σ; table_rows := table_rows σ;
     user_vars := user_vars σ; targeted := (targeted σ ++ [keys])%list |}.

Definition sql_error {A : Type} (msg : string) : outcome A := Abort (Error (ErrorString msg)).

Definition mysql_Exec (q : sql) (σ : mysql) : outcome Z * mysql :=
  match q with
  | SelectInto src dst =>
      match mapM (eval_expr (user_vars σ)) src with
      | Some vals =>
          if bool_decide (length vals = length dst)
          then (Ok 1, set_vars σ (assign (user_vars σ) dst vals))
          else (sql_error "The used SELECT statements have a different number of columns", σ)
      | None => (sql_error "unsupported literal", σ)
      end
  | SelectKeyInto _ dst _ _ desc =>
      match first_by (if desc then desc_compare else lex_compare) (table_rows σ) with
      | Some key =>
          if bool_decide (length key = length dst)
          then (Ok 1, set_vars σ (assign (user_vars σ) dst (VInt64 <$> key)))
          else (sql_error "The used SELECT statements have a different number of columns", σ)
      | None => (Ok 0, σ)
      end
  | SetLogBinOff => (Ok 0, σ)
  | Dml executeQuery sentinel p =>
      if strings.Contains executeQuery sentinel
      then let keys := filter (λ key, selects (user_vars σ) p key = true) (table_rows σ) in
           (Ok (Z.of_nat (length keys)), add_targeted σ keys)
      else (sql_error "FUNCTION GO_CHUNK does not exist", σ)
  | _ => (sql_error "unsupported statement", σ)
  end.

Definition key_row (columns : list string) (key : list Z) : gmap string value :=
  list_to_map (zip columns (VInt64 <$> key)).

Definition mysql_QueryRow (q : sql) (σ : mysql) : outcome (gmap string value) * mysql :=
  match q with
  | SelectVar name => (Ok {[ name := default VNil (user_vars σ !! name) ]}, σ)
  | RangeExists _ _ =>
      (Ok {[ "range_exists" := VInt64 (if table_rows σ is [] then 0 else 1) ]}, σ)
  | Probe _ _ _ whereClause limit =>
      if bool_decide (limit < 0) then (sql_error "You have an error in your SQL syntax", σ)
      else
        let inner :=
          take (Z.to_nat limit)
               (merge_sort lex_le
                  (filter (λ key, selects (user_vars σ) whereClause key = true) (table_rows σ))) in
        match first_by desc_compare inner with
        | Some key => (Ok (key_row (key_columns σ) key), σ)
        | None => (Abort (Error ErrNoRows), σ)
        end
  | SelectOverflow a b =>
      let v := match read_int (user_vars σ) a, read_int (user_vars σ) b with
               | Some x, Some y => VInt64 (if bool_decide (y ≤ x) then 1 else 0)
               | _, _ => VNil
               end in
      (Ok {[ "overflow" := v ]}, σ)
  | _ => (sql_error "unsupported statement", σ)
  end.

Definition mysqlDB : DBInterface mysql :=
  {| Exec := mysql_Exec;
     QueryRow := mysql_QueryRow;
     TableExists := λ _ _ σ, (Ok true, σ);
     GetPossibleUniqueKeyColumns := λ _ _ σ, (Ok (catalog σ), σ);
     LockTableRead := λ _ _ σ, (Ok tt, σ);
     UnlockTables := λ σ, (Ok tt, σ) |}.

Definition mysqlSystem : System mysql :=
  {| NewDB := λ _ σ, (Ok tt, σ);
     Close := λ σ, (Ok tt, σ);
     ReadPassword := λ σ, (Ok "", σ) |}.

(** ** The mock database of the unit tests ([MockDB], chunk_test.go) *)

Definition MockDB_QueryRow (q : sql) (m : option (list (gmap string value)))
    : outcome (gmap string value) * option (list (gmap string value)) :=
  let query := render q in
  if strings.Contains query "range_exists"
  then (Ok {[ "range_exists" := VInt64 1 ]}, m)
  else if strings.Contains query "@unique_key_min_value_"
  then (Ok {[ "@unique_key_min_value_0" := VInt64 1 ]}, m)
  else if strings.Contains query "@unique_key_max_value_"
  then (Ok {[ "@unique_key_max_value_0" := VInt64 100 ]}, m)
  else (Ok ∅, m).

Definition MockDB_default_columns : list (gmap string value) :=
  [ list_to_map [ ("COLUMN_NAMES", VString "id");
                  ("COUNT_COLUMN_IN_INDEX", VInt64 1);
                  ("DATA_TYPE", VString "int");
                  ("CHARACTER_SET_NAME", VNil) ] ].

(** The state of the mock is its field [uniqueKeyColumns], [None] for a
    nil slice. *)
Definition MockDB : DBInterface (option (list (gmap string value))) :=
  {| Exec := λ _ m, (Ok 0, m);
     QueryRow := MockDB_QueryRow;
     TableExists := λ _ _ m, (Ok true, m);
     GetPossibleUniqueKeyColumns := λ _ _ m, (Ok (default MockDB_default_columns m), m);
     LockTableRead := λ _ _ m, (Ok tt, m);
     UnlockTables := λ m, (Ok tt, m) |}.

(** ** Scenarios *)

(** The scenarios name their databases, tables and columns in ASCII,
    which [strings.ToLower] lower-cases without the case tables; they run
    with a [Map_ToLower] that is never called. *)
#[global] Instance ascii_scenarios : Unicode := {| Map_ToLower := id |}.

(** A [Config] with everything unset but the given fields. *)
Definition config_with (forced startWith endWith keyType : string) (count : nat) : Config :=
  {| Database := ""; Table := ""; UniqueKeyColumnNames := ""; CountColumnsInUniqueKey := count;
     UniqueKeyType := keyType; UniqueKeyColumnNamesList := []; ChunkSize := 0;
     StartWith := startWith; EndWith := endWith; TerminateOnNotFound := false;
     ForcedChunkingColumn := forced; SkipRetryChunk := false; NoLogBin := false;
     SleepMillis := 0; Verbose := false; Debug := false |}.

(** The flags of a run [go-chunk-update -d d -c chunkSize -e execute]. *)
Definition flags_of (execute : string) (chunkSize : Z) (database : string) : Flags :=
  {| user := ""; host := "localhost"; password := ""; promptPass := false; port := 3306;
     socket := ""; defaultsFile := ""; database := database; execute := execute;
     chunkSize := chunkSize; startWith := ""; endWith := ""; terminateNF := false;
     forceColumn := ""; skipLock := false; skipRetry := false; noLogBin := false;
     sleepMillis := 0; verbose := false; debug := false |}.

(** The information-schema row of a unique index on integer columns. *)
Definition integer_index (columns : list string) : list (gmap string value) :=
  [ list_to_map [ ("COLUMN_NAMES", VString (strings.Join columns ","));
                  ("COUNT_COLUMN_IN_INDEX", VInt64 (Z.of_nat (length columns)));
                  ("DATA_TYPE", VString "int");
                  ("CHARACTER_SET_NAME", VNil) ] ].

(** A fresh session on a table with the given key columns and rows. *)
Definition session (columns : list string) (rows : list (list Z)) : mysql :=
  {| key_columns := columns; catalog := integer_index columns; table_rows := rows;
     user_vars := ∅; targeted := [] |}.

(** The whole program on that session. *)
Definition run `{Unicode} (fuel : nat) (f : Flags) (columns : list string)
    (rows : list (list Z)) : outcome string * (mysql * list call) :=
  runChunkUpdate mysqlDB mysqlSystem fuel f (session columns rows, []).

(** The chunks of a run: the rows each executed statement targeted. *)
Definition chunks_of (r : outcome string * (mysql * list call)) : list (list (list Z)) :=
  targeted r.2.1.

(** The rounds of the loop a run entered: one probe each. *)
Definition is_probe (c : call) : bool :=
  match c with
  | CallQueryRow (Probe _ _ _ _ _) => true
  | _ => false
  end.


(** The configuration the driver hands to the engine for a table [t] of
    database [d] whose key is the given columns. *)
Definition engine_config (execute : string) (chunkSize : Z) (columns : list string) : Config :=
  with_unique_key (Config_of_Flags (flags_of execute chunkSize "d") "d" "t")
                  (strings.Join columns ",") (length columns) "integer".

(** The session once [GetUniqueKeyRange] has seeded the bounds. *)
Definition seeded (c : Config) (columns : list string) (rows : list (list Z))
    : mysql * list call :=
  (GetUniqueKeyRange mysqlDB c (session columns rows, [])).2.

Definition update_t : string := "UPDATE t SET x=1 WHERE GO_CHUNK(t)".

(** ** Counting rows and rounds *)

(** The rows whose key lies in [[lo, hi]]. *)
Definition rows_within (rows : list (list Z)) (lo hi : list Z) : list (list Z) :=
  filter (λ key, in_window OpGe lo OpLe hi key = true) rows.

(** The rows the probe chooses from: above [lo], up to [hi]. *)
Definition rows_above (rows : list (list Z)) (lo hi : list Z) : list (list Z) :=
  filter (λ key, in_window OpGt lo OpLe hi key = true) rows.

(** The number of probes in a trace: one for every round entered. *)
Definition probes (calls : list call) : nat := length (filter (λ c, is_probe c = true) calls).

Definition is_dml (c : call) : bool :=
  match c with
  | CallExec (Dml _ _ _) => true
  | _ => false
  end.

(** The number of chunk statements in a trace. *)
Definition statements (calls : list call) : nat :=
  length (filter (λ c, is_dml c = true) calls).

(** [ceil(n / d)] *)
Definition ceil_div (n d : Z) : Z := (n + d - 1) / d.

(** The session holds the integers [m], [M] and [s] as the first
    components of [min], [max] and [start]. *)
Definition holds_bounds (σ : mysql) (m M s : Z) : Prop :=
  read_int (user_vars σ) "unique_key_min_value_0" = Some m
  ∧ read_int (user_vars σ) "unique_key_max_value_0" = Some M
  ∧ read_int (user_vars σ) "unique_key_range_start_0" = Some s.

(** The limit of the probe. *)
Definition probe_limit (c : Config) (firstRound : bool) : Z :=
  if firstRound then ChunkSize c else wrap_int (ChunkSize c + 1).

(** What a round learns about the new end [e] of the window. *)
Definition advances (rows : list (list Z)) (L : nat) (s M e : Z) : Prop :=
  (e = M ∧ rows_above rows [s] [M] = [])
  ∨ (s < e ≤ M
     ∧ (0 < length (rows_above rows [s] [M]))%nat
     ∧ (length (rows_above rows [e] [M]) + L `min` length (rows_above rows [s] [M])
        ≤ length (rows_above rows [s] [M]))%nat).

(** When [max] is the key of a row, a window with no candidate above its
    start has its start at [max] or beyond. *)
Definition attained (rows : list (list Z)) (M : Z) : Prop :=
  ∀ s, rows_above rows [s] [M] = [] → M ≤ s.


(** The flags of a run with [--start-with] and [--end-with] that does
    not lock the table ([--skip-lock-tables]). *)
Definition flags_between (execute : string) (chunkSize : Z) (startWith endWith : string) : Flags :=
  {| user := ""; host := "localhost"; password := ""; promptPass := false; port := 3306;
     socket := ""; defaultsFile := ""; database := "d"; execute := execute;
     chunkSize := chunkSize; startWith := startWith; endWith := endWith; terminateNF := false;
     forceColumn := ""; skipLock := true; skipRetry := false; noLogBin := false;
     sleepMillis := 0; verbose := false; debug := false |}.

(** ** The forms of a forced chunking column, in the specification's words *)

Inductive forced_spec : Type :=
  | ColumnAndKind (col kind : string)
  | BareColumn (col : string)
  | ColumnList (columns : list string).

Definition spec_text (f : forced_spec) : string :=
  match f with
  | ColumnAndKind col kind => col +:+ ":" +:+ kind
  | BareColumn col => col
  | ColumnList columns => strings.Join columns ","
  end.

(** A name holds neither a comma nor a colon. *)
Definition plain_name (s : string) : Prop :=
  strings.Contains s "," = false ∧ strings.Contains s ":" = false.

Definition well_formed (f : forced_spec) : Prop :=
  match f with
  | ColumnAndKind col kind => plain_name col ∧ plain_name kind
  | BareColumn col => col ≠ "" ∧ plain_name col
  | ColumnList columns =>
      (1 < length columns)%nat ∧ Forall (λ t, strings.Contains t "," = false) columns
  end.

Definition forced_result (f : forced_spec) : string * Z * string :=
  match f with
  | ColumnAndKind col kind => (col, 1, kind)
  | BareColumn col => (col, 1, "")
  | ColumnList columns => (strings.Join columns ",", Z.of_nat (length columns), "")
  end.

(** The variables of a family as the specification writes a tuple of
    them: [@family0,@family1,...]. *)
Definition tuple_of (family : string) (k : nat) : string :=
  strings.Join ((λ i : nat, "@" +:+ family +:+ pretty i) <$> seq 0 k) ",".

(** Separators of one byte. *)
Definition sep (ch : ascii) : string := String ch "".

(** ** Package [mysql]: the connection settings ([parseMyCnf], [NewDB]) *)

(** One [if v := section.Key(name).String(); v != "" { config[name] = v }]
    of [parseMyCnf]. *)
Definition keep (client : string → string) (name : string) (config : gmap string string)
    : gmap string string :=
  if bool_decide (client name ≠ "") then <[name := client name]> config else config.

(** What [parseMyCnf] returns for a file whose [client] section is
    [client]: [client name] is [section.Key(name).String()], the empty
    string for a key the file does not set. *)
Definition parseMyCnf_client (client : string → string) : gmap string string :=
  keep client "database"
    (keep client "socket"
       (keep client "port"
          (keep client "host"
             (keep client "password"
                (keep client "user" ∅))))).

(** [if v, ok := cnf[name]; ok && field == "" { field = v }] *)
Definition or_file (cnf : gmap string string) (name field : string) : string :=
  match cnf !! name with
  | Some v => if bool_decide (field = "") then v else field
  | None => field
  end.

(** The block "Override config with values from file" of [NewDB]. *)
Definition NewDB_defaults (cnf : gmap string string) (config : ConnConfig) : ConnConfig :=
  {| User := or_file cnf "user" (User config);
     Password := or_file cnf "password" (Password config);
     Host := or_file cnf "host" (Host config);
     Port := match cnf !! "port" with
             | Some port =>
                 if bool_decide (Port config = 0)
                 then match strconv.Atoi port with
                      | Some p => p
                      | None => Port config
                      end
                 else Port config
             | None => Port config
             end;
     Socket := or_file cnf "socket" (Socket config);
     ConnDatabase := or_file cnf "database" (ConnDatabase config);
     DefaultsFile := DefaultsFile config |}.

(** The data source name [NewDB] builds. *)
Definition dsn (config : ConnConfig) : string :=
  if bool_decide (Host config = "localhost") && bool_decide (Socket config ≠ "") then
    User config +:+ ":" +:+ Password config +:+ "@unix(" +:+ Socket config +:+ ")/" +:+
    ConnDatabase config +:+ "?parseTime=true"
  else
    User config +:+ ":" +:+ Password config +:+ "@tcp(" +:+ Host config +:+ ":" +:+
    strconv.FormatInt (Port config) +:+ ")/" +:+ ConnDatabase config +:+ "?parseTime=true".

(** A field after the defaults file has been read: the value given, or
    with none given the value of the file. *)
Definition given_or (given file : string) : string :=
  if bool_decide (given = "") then file else given.

(** ** The options nothing reads *)

(** A [Config] with other values for [TerminateOnNotFound],
    [SkipRetryChunk] and [Debug]. *)
Definition with_unread (c : Config) (terminate skipRetry debug : bool) : Config :=
  {| Database := Database c;
     Table := Table c;
     UniqueKeyColumnNames := UniqueKeyColumnNames c;
     CountColumnsInUniqueKey := CountColumnsInUniqueKey c;
     UniqueKeyType := UniqueKeyType c;
     UniqueKeyColumnNamesList := UniqueKeyColumnNamesList c;
     ChunkSize := ChunkSize c;
     StartWith := StartWith c;
     EndWith := EndWith c;
     TerminateOnNotFound := terminate;
     ForcedChunkingColumn := ForcedChunkingColumn c;
     SkipRetryChunk := skipRetry;
     NoLogBin := NoLogBin c;
     SleepMillis := SleepMillis c;
     Verbose := Verbose c;
     Debug := debug |}.

(** The flags with other values for [--terminate-on-not-found],
    [--skip-retry-chunk] and [--debug]. *)
Definition flags_with_unread (f : Flags) (terminate skipRetry_ debug_ : bool) : Flags :=
  {| user := user f; host := host f; password := password f; promptPass := promptPass f;
     port := port f; socket := socket f; defaultsFile := defaultsFile f; database := database f;
     execute := execute f; chunkSize := chunkSize f; startWith := startWith f;
     endWith := endWith f; terminateNF := terminate; forceColumn := forceColumn f;
     skipLock := skipLock f; skipRetry := skipRetry_; noLogBin := noLogBin f;
     sleepMillis := sleepMillis f; verbose := verbose f; debug := debug_ |}.

(** ** Reading a trace *)

(** The calls that send a statement to the server. *)
Definition is_statement (c : call) : bool :=
  match c with
  | CallExec _ | CallQueryRow _ => true
  | _ => false
  end.

(** The chunk statements of a trace, in the order they were sent. *)
Definition dml_calls (calls : list call) : list call := filter (λ c, is_dml c = true) calls.

(** A computation that adds to the trace only calls that satisfy [P],
    whatever its outcome. *)
Definition extends {S A : Type} (P : call → Prop) (m : M S A) : Prop :=
  ∀ w, ∃ calls, (m w).2.2 = (w.2 ++ calls)%list ∧ Forall P calls.

(** A statement other than a chunk statement. *)
Definition plain (c : call) : Prop := is_statement c = true ∧ is_dml c = false.

(** Neither of the two deferred calls. *)
Definition not_deferred (c : call) : Prop := c ≠ CallUnlockTables ∧ c ≠ CallClose.

(** What the trace of the checks and the chunking shows, from the table
    check on: on return the calls in their order, on exit no deferred
    call. *)
Definition checked_trace {S : Type} (f : Flags) (d t : string) (start : list call)
    (r : outcome string * (S * list call)) : Prop :=
  (∀ out, r.1 = Ok out →
     ∃ stmts,
       r.2.2 = (start ++ [CallTableExists d t]
                      ++ (if bool_decide (forceColumn f ≠ "") then []
                          else [CallGetPossibleUniqueKeyColumns d t])
                      ++ (if skipLock f then [] else [CallLockTableRead d t])
                      ++ stmts
                      ++ (if skipLock f then [] else [CallUnlockTables]))%list
       ∧ Forall (λ c, is_statement c = true) stmts)
  ∧ (∀ code out, r.1 = Abort (OsExit code out) →
       ∃ calls, r.2.2 = (start ++ calls)%list ∧ Forall not_deferred calls).

(** What the trace of a run shows. *)
Definition driver_trace {S : Type} (f : Flags) (start : list call)
    (r : outcome string * (S * list call)) : Prop :=
  (∀ out, r.1 = Ok out →
     ∃ config d t stmts,
       r.2.2 = (start ++ [CallNewDB config; CallTableExists d t]
                      ++ (if bool_decide (forceColumn f ≠ "") then []
                          else [CallGetPossibleUniqueKeyColumns d t])
                      ++ (if skipLock f then [] else [CallLockTableRead d t])
                      ++ stmts
                      ++ (if skipLock f then [] else [CallUnlockTables])
                      ++ [CallClose])%list
       ∧ Forall (λ c, is_statement c = true) stmts)
  ∧ (∀ code out, r.1 = Abort (OsExit code out) →
       ∃ calls, r.2.2 = (start ++ calls)%list ∧ Forall not_deferred calls).

(** ** Chunks and window ends on a single-column key *)

(** The ends of the windows a trace has installed from a probed row:
    the [e] of every [SELECT e INTO @unique_key_range_end_0]. *)
Definition window_end (c : call) : option Z :=
  match c with
  | CallExec (SelectInto [EInt e] dst) =>
      if bool_decide (dst = ["unique_key_range_end_0"]) then Some e else None
  | _ => None
  end.

Definition window_ends (calls : list call) : list Z := omap window_end calls.

(** The rows of a chunk on one column: the keys between [lo] (with
    [lo_op]) and [e], [e] left out. *)
Definition chunk_of (rows : list (list Z)) (lo_op : lower_op) (lo e : Z) : list (list Z) :=
  filter (λ key, in_window lo_op [lo] OpLt [e] key = true) rows.

(** What the probe of a round has found: [e] is the greatest of the
    first [L] rows above [s], in the order of the key. *)
Definition probed (rows : list (list Z)) (L : nat) (s M e : Z) : Prop :=
  [e] ∈ take L (merge_sort lex_le (rows_above rows [s] [M]))
  ∧ ∀ x, [x] ∈ take L (merge_sort lex_le (rows_above rows [s] [M])) → x ≤ e.

(** The chunks executed and the ends installed when the window starts at
    [s]: every targeted row is a row of the table in [[m, s)], below
    [M], and no end; the ends lie in [(m, s]]; every row in [[m, s)] is
    in a chunk or is an end; no row is in two chunks; and [s] is an end
    unless it has reached [M]. *)
Definition covered (rows : list (list Z)) (m M s : Z) (chunks : list (list (list Z)))
    (ends : list Z) : Prop :=
  (∀ chunk key, chunk ∈ chunks → key ∈ chunk →
     ∃ x, key = [x] ∧ key ∈ rows ∧ m ≤ x ∧ x < s ∧ x < M ∧ x ∉ ends)
  ∧ (∀ e, e ∈ ends → m < e ∧ e ≤ s)
  ∧ (∀ x, [x] ∈ rows → m ≤ x → x < s → (∃ chunk, chunk ∈ chunks ∧ [x] ∈ chunk) ∨ x ∈ ends)
  ∧ (∀ i j ci cj key,
       chunks !! i = Some ci → chunks !! j = Some cj → key ∈ ci → key ∈ cj → i = j)
  ∧ (s ∈ ends ∨ M ≤ s).

(** ** The catalogue row the discoverer reads *)

(** A row of the catalogue with the types the discoverer asserts: the
    column names and the data type strings, the count an [int64], the
    character set [nil] or a string. *)
Definition typed_as_asserted (row : gmap string value) : Prop :=
  (∃ names, row_get row "COLUMN_NAMES" = VString names)
  ∧ (∃ count, row_get row "COUNT_COLUMN_IN_INDEX" = VInt64 count)
  ∧ (∃ dataType, row_get row "DATA_TYPE" = VString dataType)
  ∧ (row_get row "CHARACTER_SET_NAME" = VNil
     ∨ ∃ charSet, row_get row "CHARACTER_SET_NAME" = VString charSet).

(** * Properties *)

(** Closed goals are settled by evaluation. *)
Ltac evaluated := vm_compute; reflexivity.

(** ** Package [strings] *)

Lemma HasPrefix_nil s : strings.HasPrefix s "" = true.
Proof. by destruct s. Qed.

Lemma HasPrefix_cons c s d p :
  strings.HasPrefix (String c s) (String d p) = bool_decide (c = d) && strings.HasPrefix s p.
Proof.
  unfold strings.HasPrefix. simpl.
  destruct (ascii_dec d c) as [->|Hne].
  - by rewrite bool_decide_eq_true_2.
  - rewrite bool_decide_eq_false_2; [done | congruence].
Qed.

Lemma HasPrefix_app p s : strings.HasPrefix (p +:+ s) p = true.
Proof.
  induction p as [|c p IH].
  - apply HasPrefix_nil.
  - change (String c p +:+ s) with (String c (p +:+ s)).
    rewrite HasPrefix_cons, IH. by rewrite bool_decide_eq_true_2.
Qed.

Lemma Index_cons c s sub :
  strings.Index (String c s) sub =
    if strings.HasPrefix (String c s) sub then Some 0%nat else S <$> strings.Index s sub.
Proof. reflexivity. Qed.

Lemma Contains_false s sub : strings.Contains s sub = false ↔ strings.Index s sub = None.
Proof.
  unfold strings.Contains. rewrite bool_decide_eq_false.
  destruct (strings.Index s sub); split; intros H; try done.
  destruct H. eauto.
Qed.

Lemma Contains_cons_false c s sub :
  strings.Contains (String c s) sub = false ↔
  strings.HasPrefix (String c s) sub = false ∧ strings.Contains s sub = false.
Proof.
  rewrite !Contains_false, Index_cons.
  destruct (strings.HasPrefix (String c s) sub).
  - split; [done | by intros [? _]].
  - destruct (strings.Index s sub); split; try done. by intros [_ ?].
Qed.

Lemma Split_cons ch c s :
  strings.Split (String c s) (sep ch) =
    if bool_decide (c = ch) then "" :: strings.Split s (sep ch)
    else match strings.Split s (sep ch) with
         | t :: ts => String c t :: ts
         | [] => [String c ""]
         end.
Proof.
  unfold strings.Split, sep. cbn [strings.Split_scan].
  rewrite HasPrefix_cons, HasPrefix_nil, andb_true_r. reflexivity.
Qed.

Lemma Contains_sep_cons ch c s :
  strings.Contains (String c s) (sep ch) = false ↔ c ≠ ch ∧ strings.Contains s (sep ch) = false.
Proof.
  rewrite Contains_cons_false. unfold sep.
  rewrite HasPrefix_cons, HasPrefix_nil, andb_true_r, bool_decide_eq_false. done.
Qed.

Lemma Split_without ch s :
  strings.Contains s (sep ch) = false → strings.Split s (sep ch) = [s].
Proof.
  induction s as [|c s IH]; [done|].
  rewrite Contains_sep_cons. intros [Hc Hs].
  rewrite Split_cons, bool_decide_eq_false_2 by done. by rewrite IH.
Qed.

Lemma Split_app ch a b :
  strings.Contains a (sep ch) = false →
  strings.Split (a +:+ String ch b) (sep ch) = a :: strings.Split b (sep ch).
Proof.
  induction a as [|c a IH].
  - intros _. change ("" +:+ String ch b) with (String ch b).
    by rewrite Split_cons, bool_decide_eq_true_2.
  - rewrite Contains_sep_cons. intros [Hc Ha].
    change (String c a +:+ String ch b) with (String c (a +:+ String ch b)).
    rewrite Split_cons, bool_decide_eq_false_2 by done. by rewrite IH.
Qed.

Lemma Contains_app_sep ch a b : strings.Contains (a +:+ String ch b) (sep ch) = true.
Proof.
  induction a as [|c a IH].
  - unfold strings.Contains. apply bool_decide_eq_true_2.
    change ("" +:+ String ch b) with (String ch b).
    rewrite Index_cons. unfold sep. rewrite HasPrefix_cons, HasPrefix_nil, bool_decide_eq_true_2 by done.
    simpl. eauto.
  - change (String c a +:+ String ch b) with (String c (a +:+ String ch b)).
    destruct (strings.Contains (String c (a +:+ String ch b)) (sep ch)) eqn:E; [done|].
    apply Contains_sep_cons in E as [_ E]. congruence.
Qed.

Lemma Split_Join ch tokens :
  tokens ≠ [] →
  Forall (λ t, strings.Contains t (sep ch) = false) tokens →
  strings.Split (strings.Join tokens (sep ch)) (sep ch) = tokens.
Proof.
  intros Hne Hall. induction Hall as [|t ts Ht Hts IH]; [done|].
  destruct ts as [|t' ts].
  - simpl. by apply Split_without.
  - change (strings.Join (t :: t' :: ts) (sep ch))
      with (t +:+ String ch (strings.Join (t' :: ts) (sep ch))).
    rewrite Split_app by done. by rewrite IH.
Qed.

Lemma Contains_sep_app ch a b :
  strings.Contains a (sep ch) = false → strings.Contains b (sep ch) = false →
  strings.Contains (a +:+ b) (sep ch) = false.
Proof.
  intros Ha Hb. induction a as [|c a IH]; [done|].
  apply Contains_sep_cons in Ha as [Hc Ha].
  change (String c a +:+ b) with (String c (a +:+ b)).
  apply Contains_sep_cons. split; [done | by apply IH].
Qed.

Lemma app_cons_not_empty a c b : a +:+ String c b ≠ "".
Proof. by destruct a. Qed.

Lemma Replace_scan_skip old new x post :
  strings.Replace_scan old new (String.length x) (x +:+ post) = strings.Replace_scan old new 0 post.
Proof. induction x as [|c x IH]; [done|]. exact IH. Qed.

Lemma Replace_scan_without old new s :
  strings.Contains s old = false → strings.Replace_scan old new 0 s = s.
Proof.
  induction s as [|c s IH]; [done|].
  intros [Hhere Hrest]%Contains_cons_false.
  cbn [strings.Replace_scan]. rewrite Hhere. by rewrite IH.
Qed.

Lemma Replace_single pre old new post :
  old ≠ "" →
  strings.Index (pre +:+ old +:+ post) old = Some (String.length pre) →
  strings.Contains post old = false →
  strings.Replace (pre +:+ old +:+ post) old new = pre +:+ new +:+ post.
Proof.
  intros Hold Hfirst Hpost. unfold strings.Replace.
  induction pre as [|c pre IH].
  - destruct old as [|a old']; [done|].
    change ("" +:+ String a old' +:+ post) with (String a (old' +:+ post)).
    cbn [strings.Replace_scan].
    change (String a (old' +:+ post)) with (String a old' +:+ post).
    rewrite HasPrefix_app.
    replace (String.length (String a old') - 1)%nat with (String.length old') by (simpl; lia).
    by rewrite Replace_scan_skip, Replace_scan_without.
  - change (String c pre +:+ old +:+ post) with (String c (pre +:+ old +:+ post)) in *.
    rewrite Index_cons in Hfirst. cbn [strings.Replace_scan].
    destruct (strings.HasPrefix (String c (pre +:+ old +:+ post)) old); [done|].
    destruct (strings.Index (pre +:+ old +:+ post) old) as [n|] eqn:E; [|done].
    simpl in Hfirst. injection Hfirst as ->.
    change (String c pre +:+ new +:+ post) with (String c (pre +:+ new +:+ post)).
    by rewrite IH.
Qed.

Lemma at_vars_names family k : at_vars (var_names family k) = tuple_of family k.
Proof.
  unfold at_vars, var_names, tuple_of. f_equal.
  rewrite <- list_fmap_compose. reflexivity.
Qed.

Lemma sentinel_not_empty c : sentinel c ≠ "".
Proof. done. Qed.


(** ** The functions agree with Go on the unit tests' inputs *)

Example Replace_twice :
  strings.Replace "a GO_CHUNK(t) b GO_CHUNK(t)" "GO_CHUNK(t)" "id > 1" = "a id > 1 b id > 1".
Proof. reflexivity. Qed.

Example Split_list : strings.Split "col1,col2" "," = ["col1"; "col2"].
Proof. reflexivity. Qed.

Example Split_empty : strings.Split "" "," = [""].
Proof. reflexivity. Qed.

Example Split_trailing : strings.Split "a:" ":" = ["a"; ""].
Proof. reflexivity. Qed.

Example Atoi_literal : strconv.Atoi "2323" = Some 2323.
Proof. reflexivity. Qed.

Example Atoi_negative : strconv.Atoi "-17" = Some (-17).
Proof. reflexivity. Qed.

Example Atoi_query : strconv.Atoi "SELECT 5 AS start_with" = None.
Proof. reflexivity. Qed.

Example Atoi_range : strconv.Atoi "9223372036854775808" = None.
Proof. reflexivity. Qed.

Example parse_bare :
  FindStringSubmatch "UPDATE users SET status='active' WHERE GO_CHUNK(users)" = Some "users".
Proof. reflexivity. Qed.

Example parse_qualified :
  FindStringSubmatch "UPDATE db.users SET status='active' WHERE GO_CHUNK(db.users)" = Some "db.users".
Proof. reflexivity. Qed.

Example parse_lower_case : FindStringSubmatch "SELECT * FROM users WHERE go_chunk(users)" = None.
Proof. reflexivity. Qed.

Example parse_empty_table : FindStringSubmatch "UPDATE users SET col=val WHERE GO_CHUNK()" = None.
Proof. reflexivity. Qed.

Example render_advance :
  render (SelectInto [EVar "unique_key_range_end_0"] ["unique_key_range_start_0"])
    = "SELECT @unique_key_range_end_0 INTO @unique_key_range_start_0".
Proof. reflexivity. Qed.

Example render_overflow :
  render (SelectOverflow "unique_key_range_start_0" "unique_key_max_value_0")
    = "SELECT @unique_key_range_start_0 >= @unique_key_max_value_0 AS overflow".
Proof. reflexivity. Qed.

Example render_probe :
  render (Probe "id" "d" "t" (probe_pred (engine_config update_t 10 ["id"])) 11)
    = "SELECT id FROM (SELECT id FROM d.t WHERE id > @unique_key_range_start_0 AND id <= @unique_key_max_value_0 ORDER BY id LIMIT 11) t ORDER BY id DESC LIMIT 1".
Proof. reflexivity. Qed.

Example render_tuple_seed :
  render (SelectInto (EVar <$> min_value_names 2) (range_start_names 2))
    = "SELECT @unique_key_min_value_0,@unique_key_min_value_1 INTO @unique_key_range_start_0,@unique_key_range_start_1".
Proof. reflexivity. Qed.

Example min_values_variables :
  getUniqueKeyMinValuesVariables (config_with "" "" "" "" 3)
    = "@unique_key_min_value_0,@unique_key_min_value_1,@unique_key_min_value_2".
Proof. reflexivity. Qed.

Example max_values_variables :
  getUniqueKeyMaxValuesVariables (config_with "" "" "" "" 2)
    = "@unique_key_max_value_0,@unique_key_max_value_1".
Proof. reflexivity. Qed.

(** ** The loop, one round at a time *)

Lemma chunk_loop_S {St : Type} (db : DBInterface St) c q fuel firstRound w :
  chunk_loop db c q (S fuel) firstRound w =
    match chunk_round db c q firstRound w with
    | (Ok true, w') => (Ok tt, w')
    | (Ok false, w') => chunk_loop db c q fuel false w'
    | (Abort x, w') => (Abort x, w')
    end.
Proof.
  cbn [chunk_loop]. unfold bind at 1.
  destruct (chunk_round db c q firstRound w) as [[[|]|x] w']; reflexivity.
Qed.

Lemma ChunkUpdate_loop {St : Type} (db : DBInterface St) fuel c q w :
  ChunkUpdate db fuel c q w =
    match ChunkUpdate_preamble db c w with
    | (Ok _, w') => chunk_loop db c q fuel true w'
    | (Abort x, w') => (Abort x, w')
    end.
Proof. reflexivity. Qed.

Lemma assert_int64_panics v : (∀ n, v ≠ VInt64 n) → assert_int64 v = Abort panic_int64.
Proof. destruct v; intros H; try done. by destruct (H n). Qed.

(** ** [strings.ToLower] on ASCII *)

Lemma ToLower_ASCII {U : Unicode} s : isASCII s = true → ToLower s = lower_bytes s.
Proof. intros Hs. unfold ToLower. by rewrite Hs. Qed.

(** ** The limit of the probe *)

Lemma wrap_int_small x : - 2 ^ 63 ≤ x < 2 ^ 63 → wrap_int x = x.
Proof. intros Hx. unfold wrap_int. rewrite Z.mod_small by lia. lia. Qed.

(** Below the largest [int] the increment does not wrap. *)
Lemma probe_limit_later c : 0 < ChunkSize c < MaxInt → probe_limit c false = ChunkSize c + 1.
Proof. intros Hsize. unfold probe_limit. apply wrap_int_small. unfold MaxInt in Hsize. lia. Qed.

Lemma probe_limit_pos c firstRound : 0 < ChunkSize c < MaxInt → 0 < probe_limit c firstRound.
Proof.
  intros Hsize. destruct firstRound; [unfold probe_limit; lia|].
  rewrite probe_limit_later by done. lia.
Qed.

(** ** Windows on a single-column key *)

Lemma lex_compare_single x y : lex_compare [x] [y] = (x ?= y).
Proof. simpl. by destruct (x ?= y). Qed.

Lemma in_window_above s M key :
  in_window OpGt [s] OpLe [M] key = true ↔ ∃ x, key = [x] ∧ s < x ≤ M.
Proof.
  unfold in_window. rewrite !andb_true_iff, !bool_decide_eq_true. split.
  - intros [[[Hlen _] Hlo] Hhi].
    destruct key as [|x [|? ?]]; try done. exists x. split; [done|].
    unfold holds_lower, holds_upper in *. rewrite lex_compare_single in *.
    destruct (Z.compare_spec x s); try done. destruct (Z.compare_spec x M); try done; lia.
  - intros (x & -> & Hs & HM). unfold holds_lower, holds_upper. rewrite !lex_compare_single.
    destruct (Z.compare_spec x s); try lia. destruct (Z.compare_spec x M); try lia; done.
Qed.

Lemma in_window_within m M key :
  in_window OpGe [m] OpLe [M] key = true ↔ ∃ x, key = [x] ∧ m ≤ x ≤ M.
Proof.
  unfold in_window. rewrite !andb_true_iff, !bool_decide_eq_true. split.
  - intros [[[Hlen _] Hlo] Hhi].
    destruct key as [|x [|? ?]]; try done. exists x. split; [done|].
    unfold holds_lower, holds_upper in *. rewrite lex_compare_single in *.
    destruct (Z.compare_spec x m); try done; destruct (Z.compare_spec x M); try done; lia.
  - intros (x & -> & Hs & HM). unfold holds_lower, holds_upper. rewrite !lex_compare_single.
    destruct (Z.compare_spec x m); try lia; destruct (Z.compare_spec x M); try lia; done.
Qed.

Lemma first_by_None cmp rows : first_by cmp rows = None ↔ rows = [].
Proof.
  destruct rows as [|r rows]; [done|]. simpl.
  destruct (first_by cmp rows) as [r'|]; [destruct (cmp r r')|]; done.
Qed.

(** On one column, [ORDER BY key DESC LIMIT 1] gives the greatest key. *)
Lemma first_by_desc_single rows k :
  Forall (λ r, ∃ x, r = [x]) rows →
  first_by desc_compare rows = Some k →
  ∃ e, k = [e] ∧ [e] ∈ rows ∧ ∀ x, [x] ∈ rows → x ≤ e.
Proof.
  intros Hall. revert k. induction Hall as [|r rows [x ->] Hrows IH]; intros k; [done|].
  simpl. destruct (first_by desc_compare rows) as [r'|] eqn:E.
  - destruct (IH r' eq_refl) as (e & -> & Hin & Hmax).
    change (desc_compare [x] [e]) with (e ?= x).
    destruct (Z.compare_spec e x) as [Heq|Hlt|Hgt]; intros [= <-].
    + exists x. split; [done|]. split; [left|].
      intros y [[= Hy] | Hy]%elem_of_cons; [lia | specialize (Hmax y Hy); lia].
    + exists x. split; [done|]. split; [left|].
      intros y [[= Hy] | Hy]%elem_of_cons; [lia | specialize (Hmax y Hy); lia].
    + exists e. split; [done|]. split; [by right|].
      intros y [[= Hy] | Hy]%elem_of_cons; [lia | by apply Hmax].
  - intros [= <-]. apply first_by_None in E as ->. exists x. split; [done|]. split; [left|].
    intros y [[= Hy] | Hy]%elem_of_cons; [lia | by apply elem_of_nil in Hy].
Qed.

Lemma filter_nil_of_not {A} (P : A → Prop) `{∀ x, Decision (P x)} (l : list A) :
  (∀ x, x ∈ l → ¬ P x) → filter P l = [].
Proof.
  induction l as [|a l IH]; intros Hnot; [done|].
  rewrite filter_cons, decide_False by (apply Hnot; left).
  apply IH. intros x Hx. apply Hnot. by right.
Qed.

(** The candidates of a probe that finds nothing. *)
Lemma probe_finds_nothing rows s M (L : nat) :
  (0 < L)%nat →
  take L (merge_sort lex_le (rows_above rows [s] [M])) = [] →
  rows_above rows [s] [M] = [].
Proof.
  intros HL Htake.
  destruct (merge_sort lex_le (rows_above rows [s] [M])) as [|r sorted] eqn:E.
  - apply Permutation_nil_r. rewrite <- E. symmetry. apply merge_sort_Permutation.
  - destruct L; [lia | done].
Qed.

(** Moving the start of the window to the greatest of the first [L]
    candidates leaves at most the candidates after them. *)
Lemma probe_progress rows s M (L : nat) e :
  [e] ∈ take L (merge_sort lex_le (rows_above rows [s] [M])) →
  (∀ x, [x] ∈ take L (merge_sort lex_le (rows_above rows [s] [M])) → x ≤ e) →
  s < e ≤ M
  ∧ (0 < length (rows_above rows [s] [M]))%nat
  ∧ (length (rows_above rows [e] [M]) + L `min` length (rows_above rows [s] [M])
     ≤ length (rows_above rows [s] [M]))%nat.
Proof.
  set (X := rows_above rows [s] [M]). set (sX := merge_sort lex_le X).
  intros Hin Hmax.
  assert (sX ≡ₚ X) as Hperm by apply merge_sort_Permutation.
  assert ([e] ∈ X) as HX.
  { rewrite <- Hperm. by apply (subseteq_take L sX). }
  assert (s < e ≤ M) as Hrange.
  { apply list_elem_of_filter in HX as [HX' _].
    apply in_window_above in HX' as (x & [= <-] & ?). done. }
  split; [done|].
  split; [destruct X; [by apply elem_of_nil in HX | simpl; lia]|].
  set (Pe := λ key, in_window OpGt [e] OpLe [M] key = true).
  assert (rows_above rows [e] [M] = filter Pe X) as ->.
  { unfold X, rows_above. rewrite list_filter_filter. apply list_filter_iff.
    intros key. unfold Pe. rewrite !in_window_above. split.
    - intros (x & -> & ?). split; exists x; split; (done || lia).
    - by intros [? _]. }
  assert (length (filter Pe X) = length (filter Pe sX)) as -> by by rewrite Hperm.
  rewrite <- (take_drop L sX) at 1. rewrite filter_app, length_app.
  rewrite (filter_nil_of_not Pe (take L sX)).
  2:{ intros key Hkey HPe. apply in_window_above in HPe as (x & -> & ?).
      specialize (Hmax x Hkey). lia. }
  pose proof (length_filter Pe (drop L sX)) as Hle. rewrite length_drop in Hle.
  rewrite <- (Permutation_length Hperm). simpl. lia.
Qed.

(** ** The session model, statement by statement *)

Lemma bind_Ok {S A B : Type} (m : M S A) (k : A → M S B) w a w' :
  m w = (Ok a, w') → bind m k w = k a w'.
Proof. unfold bind. by intros ->. Qed.

Lemma read_int_Some vars name n :
  read_int vars name = Some n ↔ vars !! name = Some (VInt64 n).
Proof.
  unfold read_int. destruct (vars !! name) as [[]|]; split; intros H; by simplify_eq.
Qed.

Lemma read_int_insert (vars : gmap string value) name n :
  read_int (<[name := VInt64 n]> vars) name = Some n.
Proof. unfold read_int. by rewrite lookup_insert_eq. Qed.

Lemma read_int_insert_ne (vars : gmap string value) name name' v :
  name' ≠ name → read_int (<[name' := v]> vars) name = read_int vars name.
Proof. intros Hne. unfold read_int. by rewrite lookup_insert_ne. Qed.

Lemma getSessionVariableValue_mysql name σ tr :
  getSessionVariableValue mysqlDB name (σ, tr)
    = (Ok (default VNil (user_vars σ !! name)), (σ, (tr ++ [CallQueryRow (SelectVar name)])%list)).
Proof.
  unfold getSessionVariableValue, bind, dbQueryRow, issue. cbn [QueryRow mysqlDB mysql_QueryRow fst snd].
  unfold ret, row_get. by rewrite lookup_singleton_eq.
Qed.

Lemma assign_into σ tr e name v :
  eval_expr (user_vars σ) e = Some v →
  dbExec mysqlDB (SelectInto [e] [name]) (σ, tr)
    = (Ok 1, (set_vars σ (<[name := v]> (user_vars σ)),
              (tr ++ [CallExec (SelectInto [e] [name])])%list)).
Proof.
  intros He. unfold dbExec, issue. cbn [Exec mysqlDB mysql_Exec fst snd mapM].
  rewrite He. reflexivity.
Qed.

Lemma check_overflow_later σ tr M s :
  read_int (user_vars σ) "unique_key_range_start_0" = Some s →
  read_int (user_vars σ) "unique_key_max_value_0" = Some M →
  check_overflow mysqlDB false (σ, tr)
    = (Ok (bool_decide (M ≤ s)),
       (σ, (tr ++ [CallQueryRow (SelectOverflow "unique_key_range_start_0"
                                                "unique_key_max_value_0")])%list)).
Proof.
  intros Hs HM. unfold check_overflow. cbn [negb].
  unfold bind, dbQueryRow, issue. cbn [QueryRow mysqlDB mysql_QueryRow fst snd].
  rewrite Hs, HM. unfold lift, row_get. rewrite lookup_singleton_eq. cbn [default assert_int64].
  unfold ret. cbn [id assert_int64]. destruct (bool_decide (M ≤ s)); reflexivity.
Qed.

Lemma dml_targets σ tr q mark p :
  strings.Contains q mark = true →
  dbExec mysqlDB (Dml q mark p) (σ, tr)
    = (Ok (Z.of_nat (length (filter (λ key, selects (user_vars σ) p key = true) (table_rows σ)))),
       (add_targeted σ (filter (λ key, selects (user_vars σ) p key = true) (table_rows σ)),
        (tr ++ [CallExec (Dml q mark p)])%list)).
Proof.
  intros Hq. unfold dbExec, issue. cbn [Exec mysqlDB mysql_Exec fst snd]. by rewrite Hq.
Qed.

Lemma selects_probe_single σ c m M s key :
  CountColumnsInUniqueKey c = 1%nat →
  holds_bounds σ m M s →
  selects (user_vars σ) (probe_pred c) key = in_window OpGt [s] OpLe [M] key.
Proof.
  intros Hk (_ & HM & Hs). unfold probe_pred. rewrite bool_decide_eq_true_2 by done.
  unfold selects, read_tuple. cbn [mapM]. rewrite Hs, HM. reflexivity.
Qed.

Lemma probe_candidates σ c m M s :
  CountColumnsInUniqueKey c = 1%nat →
  holds_bounds σ m M s →
  filter (λ key, selects (user_vars σ) (probe_pred c) key = true) (table_rows σ)
    = rows_above (table_rows σ) [s] [M].
Proof.
  intros Hk Hb. apply list_filter_iff. intros key.
  by rewrite (selects_probe_single σ c m M s).
Qed.

Lemma set_range_end_single c firstRound σ tr m M s :
  CountColumnsInUniqueKey c = 1%nat →
  key_columns σ = [UniqueKeyColumnNames c] →
  0 < ChunkSize c < MaxInt →
  holds_bounds σ m M s →
  ∃ e x,
    set_range_end mysqlDB c firstRound (σ, tr)
      = (Ok tt,
         (set_vars σ (<["unique_key_range_end_0" := VInt64 e]> (user_vars σ)),
          (tr ++ [CallQueryRow (Probe (UniqueKeyColumnNames c) (Database c) (Table c)
                                      (probe_pred c) (probe_limit c firstRound));
                  CallExec (SelectInto [x] ["unique_key_range_end_0"])])%list))
    ∧ advances (table_rows σ) (Z.to_nat (probe_limit c firstRound)) s M e.
Proof.
  intros Hk Hcols Hsize Hb.
  unfold set_range_end. fold (probe_limit c firstRound).
  assert (0 < probe_limit c firstRound) as HL by (by apply probe_limit_pos).
  unfold dbQueryRow at 1. unfold issue at 1. cbn [QueryRow mysqlDB mysql_QueryRow fst snd].
  rewrite bool_decide_eq_false_2 by lia.
  rewrite (probe_candidates σ c m M s) by done.
  set (inner := take (Z.to_nat (probe_limit c firstRound))
                     (merge_sort lex_le (rows_above (table_rows σ) [s] [M]))).
  rewrite !bool_decide_eq_true_2 by done.
  destruct (first_by desc_compare inner) as [k|] eqn:Hfirst.
  - assert (Forall (λ r, ∃ x, r = [x]) inner) as Hsingle.
    { apply Forall_forall. intros r Hr. apply (subseteq_take _ _) in Hr.
      rewrite merge_sort_Permutation in Hr. apply list_elem_of_filter in Hr as [Hr _].
      apply in_window_above in Hr as (x & -> & _). by exists x. }
    destruct (first_by_desc_single inner k Hsingle Hfirst) as (e & -> & Hin & Hmax).
    exists e, (EInt e).
    assert (row_get (key_row (key_columns σ) [e]) (UniqueKeyColumnNames c) = VInt64 e) as Hrow.
    { rewrite Hcols. unfold key_row, row_get. cbn [fmap list_fmap zip zip_with list_to_map foldr].
      cbn. by rewrite lookup_insert_eq. }
    rewrite Hrow. cbn [end_literal].
    erewrite bind_Ok by (by apply assign_into).
    split; [by rewrite <- app_assoc|].
    right. by apply probe_progress.
  - apply first_by_None in Hfirst.
    apply probe_finds_nothing in Hfirst; [|lia].
    destruct Hb as (Hm & HM & Hs). pose proof HM as HM'. apply read_int_Some in HM'.
    exists M, (EVar "unique_key_max_value_0").
    erewrite bind_Ok.
    2:{ apply assign_into. cbn [eval_expr]. by rewrite HM'. }
    split; [by rewrite <- app_assoc|]. by left.
Qed.

Lemma probes_app a b : probes (a ++ b) = (probes a + probes b)%nat.
Proof. unfold probes. by rewrite filter_app, length_app. Qed.

Lemma statements_app a b : statements (a ++ b) = (statements a + statements b)%nat.
Proof. unfold statements. by rewrite filter_app, length_app. Qed.

(** One round on a single-column key. *)
Lemma chunk_round_single c q firstRound σ tr m M s :
  CountColumnsInUniqueKey c = 1%nat →
  key_columns σ = [UniqueKeyColumnNames c] →
  0 < ChunkSize c < MaxInt →
  strings.Contains q (sentinel c) = true →
  holds_bounds σ m M s →
  let stop := negb firstRound && bool_decide (M ≤ s) in
  ∃ e σ' calls,
    chunk_round mysqlDB c q firstRound (σ, tr) = (Ok stop, (σ', (tr ++ calls)%list))
    ∧ probes calls = 1%nat
    ∧ statements calls = (if stop then 0 else 1)%nat
    ∧ table_rows σ' = table_rows σ
    ∧ key_columns σ' = key_columns σ
    ∧ holds_bounds σ' m M (if stop then s else e)
    ∧ advances (table_rows σ) (Z.to_nat (probe_limit c firstRound)) s M e.
Proof.
  intros Hk Hcols Hsize Hq Hb stop.
  destruct (set_range_end_single c firstRound σ tr m M s Hk Hcols Hsize Hb)
    as (e & x & Hend & Hadv).
  destruct Hb as (Hm & HM & Hs).
  set (σ1 := set_vars σ (<["unique_key_range_end_0" := VInt64 e]> (user_vars σ))) in *.
  assert (read_int (user_vars σ1) "unique_key_min_value_0" = Some m) as Hm1
    by (cbn; by rewrite read_int_insert_ne).
  assert (read_int (user_vars σ1) "unique_key_max_value_0" = Some M) as HM1
    by (cbn; by rewrite read_int_insert_ne).
  assert (read_int (user_vars σ1) "unique_key_range_start_0" = Some s) as Hs1
    by (cbn; by rewrite read_int_insert_ne).
  unfold chunk_round.
  erewrite bind_Ok by exact Hend.
  erewrite bind_Ok by apply getSessionVariableValue_mysql.
  erewrite bind_Ok by apply getSessionVariableValue_mysql.
  assert (∃ calls0,
            check_overflow mysqlDB firstRound
              (σ1, (((tr ++ [CallQueryRow (Probe (UniqueKeyColumnNames c) (Database c) (Table c)
                                                 (probe_pred c) (probe_limit c firstRound));
                             CallExec (SelectInto [x] ["unique_key_range_end_0"])])
                     ++ [CallQueryRow (SelectVar "unique_key_range_start_0")])
                     ++ [CallQueryRow (SelectVar "unique_key_range_end_0")])%list)
            = (Ok stop, (σ1, (tr ++ calls0)%list))
            ∧ probes calls0 = 1%nat ∧ statements calls0 = 0%nat) as (calls0 & Hover & Hp0 & Hs0).
  { destruct firstRound.
    - eexists. split; [|split]; [unfold check_overflow, ret; cbn [negb]; by rewrite <- !app_assoc | done..].
    - eexists. split; [|split].
      + rewrite (check_overflow_later _ _ M s) by done. by rewrite <- !app_assoc.
      + done.
      + done. }
  erewrite bind_Ok by exact Hover.
  destruct stop eqn:Hstop.
  - exists e, σ1, calls0. unfold ret. by repeat split.
  - replace (if firstRound then firstQuery c q else restQuery c q)
      with (Dml q (sentinel c) (if firstRound then first_pred c else rest_pred c))
      by (by destruct firstRound).
    erewrite bind_Ok by (by apply dml_targets).
    erewrite bind_Ok.
    2:{ apply assign_into. cbn. by rewrite lookup_insert_eq. }
    eexists e, _, _. unfold ret. rewrite <- !app_assoc.
    split; [reflexivity|].
    split; [by rewrite !probes_app, Hp0|].
    split; [by rewrite !statements_app, Hs0|].
    split; [done|]. split; [done|].
    split; [|done].
    unfold holds_bounds. cbn. rewrite read_int_insert.
    rewrite !(read_int_insert_ne _ _ "unique_key_range_start_0") by done.
    by rewrite !(read_int_insert_ne _ _ "unique_key_range_end_0") by done.
Qed.

(** ** The loop on a single-column key *)

Lemma ceil_div_spec n d : 0 < d → 0 ≤ n → n ≤ ceil_div n d * d ∧ 0 ≤ ceil_div n d.
Proof.
  intros Hd Hn. unfold ceil_div.
  pose proof (Z.div_mod (n + d - 1) d) as Hdm. pose proof (Z.mod_pos_bound (n + d - 1) d) as Hmod.
  assert (0 ≤ (n + d - 1) / d) by (apply Z.div_pos; lia). nia.
Qed.

(** The round that finds the start of the window at [max] breaks. *)
Lemma chunk_loop_breaks c q σ tr m M s fuel :
  CountColumnsInUniqueKey c = 1%nat →
  key_columns σ = [UniqueKeyColumnNames c] →
  0 < ChunkSize c < MaxInt →
  strings.Contains q (sentinel c) = true →
  holds_bounds σ m M s →
  M ≤ s →
  ∃ σ' calls,
    chunk_loop mysqlDB c q (S fuel) false (σ, tr) = (Ok tt, (σ', (tr ++ calls)%list))
    ∧ probes calls = 1%nat ∧ statements calls = 0%nat.
Proof.
  intros Hk Hcols Hsize Hq Hb HMs.
  destruct (chunk_round_single c q false σ tr m M s Hk Hcols Hsize Hq Hb)
    as (e & σ' & calls & Hround & Hp & Hst & _).
  cbn [negb andb] in Hround, Hst. rewrite bool_decide_eq_true_2 in Hround, Hst by done.
  exists σ', calls. by rewrite chunk_loop_S, Hround.
Qed.

Lemma attained_of_row rows M : [M] ∈ rows → attained rows M.
Proof.
  intros HM s Hnone. destruct (decide (M ≤ s)) as [|Hlt]; [done|].
  assert ([M] ∈ rows_above rows [s] [M]) as Hin.
  { apply list_elem_of_filter. split; [|done]. apply in_window_above. exists M. split; [done|lia]. }
  rewrite Hnone in Hin. by apply elem_of_nil in Hin.
Qed.

(** The rounds after the first: with at most [t] windows of candidates
    left, at most [t + slack] rounds, where the slack is 1 when [max] is
    attained and 2 otherwise. *)
Lemma later_rounds c q (slack : nat) M m :
  CountColumnsInUniqueKey c = 1%nat →
  0 < ChunkSize c < MaxInt →
  strings.Contains q (sentinel c) = true →
  ∀ t σ tr s fuel,
    key_columns σ = [UniqueKeyColumnNames c] →
    holds_bounds σ m M s →
    (slack = 2%nat ∨ (slack = 1%nat ∧ attained (table_rows σ) M)) →
    (length (rows_above (table_rows σ) [s] [M]) ≤ t * Z.to_nat (ChunkSize c + 1))%nat →
    (t + slack ≤ fuel)%nat →
    ∃ σ' calls,
      chunk_loop mysqlDB c q fuel false (σ, tr) = (Ok tt, (σ', (tr ++ calls)%list))
      ∧ (probes calls ≤ t + slack)%nat
      ∧ (statements calls + 1 = probes calls)%nat.
Proof.
  intros Hk Hsize Hq. induction t as [|t IH]; intros σ tr s fuel Hcols Hb Hslack Hleft Hfuel.
  all: destruct fuel as [|fuel]; [destruct Hslack as [->|[-> _]]; lia|].
  all: destruct (decide (M ≤ s)) as [HMs|HMs].
  all: try (destruct (chunk_loop_breaks c q σ tr m M s fuel Hk Hcols Hsize Hq Hb HMs)
              as (σ' & calls & Hloop & Hp & Hst);
            exists σ', calls; split; [done|]; split; [destruct Hslack as [->|[-> _]]; lia | lia]).
  all: destruct (chunk_round_single c q false σ tr m M s Hk Hcols Hsize Hq Hb)
         as (e & σ1 & calls1 & Hround & Hp1 & Hst1 & Hrows & Hcols1 & Hb1 & Hadv).
  all: cbn [negb andb] in Hround, Hst1, Hb1;
       rewrite bool_decide_eq_false_2 in Hround, Hst1, Hb1 by done.
  all: rewrite chunk_loop_S, Hround.
  all: destruct Hadv as [[-> Hnone] | (Hrange & Hsome & Hless)].
  all: try (* nothing above the start: the window goes to [max], the next round breaks *)
    (destruct Hslack as [-> | [-> Hatt]]; [|by apply Hatt in Hnone];
     destruct fuel as [|fuel]; [lia|];
     destruct (chunk_loop_breaks c q σ1 (tr ++ calls1) m M M fuel Hk)
       as (σ' & calls & Hloop & Hp & Hst); [congruence | done | done | done | lia |];
     exists σ', (calls1 ++ calls)%list; rewrite app_assoc; split; [done|];
     rewrite probes_app, statements_app; lia).
  - simpl in Hleft. lia.
  - assert (length (rows_above (table_rows σ1) [e] [M])
            ≤ t * Z.to_nat (ChunkSize c + 1))%nat as Hleft1.
    { rewrite Hrows. rewrite probe_limit_later in Hless by done.
      change (S t * Z.to_nat (ChunkSize c + 1))%nat
        with (Z.to_nat (ChunkSize c + 1) + t * Z.to_nat (ChunkSize c + 1))%nat in Hleft.
      lia. }
    assert (slack = 2%nat ∨ slack = 1%nat ∧ attained (table_rows σ1) M) as Hslack1
      by (by rewrite Hrows).
    destruct (IH σ1 (tr ++ calls1)%list e fuel) as (σ' & calls & Hloop & Hp & Hst);
      [congruence | done | done | done | lia |].
    exists σ', (calls1 ++ calls)%list. rewrite app_assoc. split; [done|].
    rewrite probes_app, statements_app. lia.
Qed.

Lemma preamble_single c σ tr m :
  CountColumnsInUniqueKey c = 1%nat →
  read_int (user_vars σ) "unique_key_min_value_0" = Some m →
  ∃ calls,
    ChunkUpdate_preamble mysqlDB c (σ, tr)
      = (Ok tt, (set_vars σ (<["unique_key_range_start_0" := VInt64 m]> (user_vars σ)),
                 (tr ++ calls)%list))
    ∧ probes calls = 0%nat ∧ statements calls = 0%nat.
Proof.
  intros Hk Hm. unfold ChunkUpdate_preamble. rewrite bool_decide_eq_true_2 by done.
  apply read_int_Some in Hm.
  assert (∃ calls0, (if NoLogBin c then dbExec mysqlDB SetLogBinOff else ret 0) (σ, tr)
                    = (Ok 0, (σ, (tr ++ calls0)%list))
                    ∧ probes calls0 = 0%nat ∧ statements calls0 = 0%nat)
    as (calls0 & Hlog & Hp0 & Hs0).
  { destruct (NoLogBin c).
    - by exists [CallExec SetLogBinOff].
    - exists []. by rewrite app_nil_r. }
  erewrite bind_Ok by exact Hlog.
  erewrite bind_Ok by apply getSessionVariableValue_mysql.
  erewrite bind_Ok by apply getSessionVariableValue_mysql.
  erewrite bind_Ok.
  2:{ apply assign_into. cbn. by rewrite Hm. }
  eexists. unfold ret. rewrite <- !app_assoc. split; [reflexivity|].
  rewrite !probes_app, !statements_app, Hp0, Hs0. done.
Qed.

Lemma length_above_le_within rows m M :
  (length (rows_above rows [m] [M]) ≤ length (rows_within rows [m] [M]))%nat.
Proof.
  unfold rows_above, rows_within.
  induction rows as [|r rows IH]; [done|].
  rewrite !filter_cons.
  destruct (decide (in_window OpGt [m] OpLe [M] r = true)) as [Hr|Hr].
  - rewrite decide_True; [simpl; lia|].
    apply in_window_above in Hr as (x & -> & ?). apply in_window_within. exists x. split; [done|lia].
  - destruct (decide (in_window OpGe [m] OpLe [M] r = true)); simpl; lia.
Qed.

Theorem single_column_loop_halts c q σ tr m M fuel :
  CountColumnsInUniqueKey c = 1%nat →
  key_columns σ = [UniqueKeyColumnNames c] →
  0 < ChunkSize c < MaxInt →
  strings.Contains q (sentinel c) = true →
  read_int (user_vars σ) "unique_key_min_value_0" = Some m →
  read_int (user_vars σ) "unique_key_max_value_0" = Some M →
  let n := Z.of_nat (length (rows_within (table_rows σ) [m] [M])) in
  ceil_div n (ChunkSize c) + 3 ≤ Z.of_nat fuel →
  ∃ σ' calls,
    ChunkUpdate mysqlDB fuel c q (σ, tr) = (Ok tt, (σ', (tr ++ calls)%list))
    ∧ Z.of_nat (probes calls) ≤ ceil_div n (ChunkSize c) + 2
    ∧ Z.of_nat (statements calls) ≤ ceil_div n (ChunkSize c) + 1
    ∧ ([M] ∈ table_rows σ → m ≤ M → Z.of_nat (probes calls) ≤ ceil_div n (ChunkSize c) + 1).
Proof.
  intros Hk Hcols Hsize Hq Hm HM n Hfuel.
  destruct (preamble_single c σ tr m Hk Hm) as (calls0 & Hpre & Hp0 & Hs0).
  set (σ0 := set_vars σ (<["unique_key_range_start_0" := VInt64 m]> (user_vars σ))) in *.
  assert (holds_bounds σ0 m M m) as Hb0.
  { unfold holds_bounds. cbn. rewrite read_int_insert, !read_int_insert_ne by done. done. }
  destruct (ceil_div_spec n (ChunkSize c) (proj1 Hsize) ltac:(lia)) as [Hceil Hceil0].
  rewrite ChunkUpdate_loop, Hpre.
  destruct fuel as [|fuel]; [lia|].
  destruct (chunk_round_single c q true σ0 (tr ++ calls0) m M m Hk Hcols Hsize Hq Hb0)
    as (e & σ1 & calls1 & Hround & Hp1 & Hst1 & Hrows & Hcols1 & Hb1 & Hadv).
  cbn [negb andb] in Hround, Hst1, Hb1. rewrite chunk_loop_S, Hround.
  pose proof (length_above_le_within (table_rows σ) m M) as Hle. fold n in Hle.
  change (table_rows σ0) with (table_rows σ) in *.
  change (key_columns σ0) with (key_columns σ) in *.
  destruct Hadv as [[-> Hnone] | (Hrange & Hsome & Hless)].
  - destruct fuel as [|fuel]; [lia|].
    destruct (chunk_loop_breaks c q σ1 ((tr ++ calls0) ++ calls1) m M M fuel Hk)
      as (σ' & calls & Hloop & Hp & Hst); [congruence | done | done | done | lia |].
    exists σ', (calls0 ++ calls1 ++ calls)%list. rewrite !app_assoc. split; [done|].
    rewrite !probes_app, !statements_app.
    split; [lia|]. split; [lia|].
    intros Hrow HmM.
    assert ([M] ∈ rows_within (table_rows σ) [m] [M]) as Hin.
    { apply list_elem_of_filter. split; [|done]. apply in_window_within. exists M. split; [done|lia]. }
    assert (0 < n) by (unfold n; destruct (rows_within (table_rows σ) [m] [M]);
                        [by apply elem_of_nil in Hin | simpl; lia]).
    assert (1 ≤ ceil_div n (ChunkSize c)) by nia. lia.
  - assert (1 ≤ ceil_div n (ChunkSize c)) as Hone by nia.
    set (t := Z.to_nat (ceil_div n (ChunkSize c) - 1)).
    assert (length (rows_above (table_rows σ1) [e] [M])
            ≤ t * Z.to_nat (ChunkSize c + 1))%nat as Hleft.
    { rewrite Hrows. unfold probe_limit in Hless. unfold t. nia. }
    assert (∀ slack,
              (slack = 2%nat ∨ slack = 1%nat ∧ attained (table_rows σ1) M) →
              ∃ σ' calls,
                chunk_loop mysqlDB c q fuel false (σ1, ((tr ++ calls0) ++ calls1)%list)
                  = (Ok tt, (σ', (((tr ++ calls0) ++ calls1) ++ calls)%list))
                ∧ (probes calls ≤ t + slack)%nat
                ∧ (statements calls + 1 = probes calls)%nat) as Hloop.
    { intros slack Hslack.
      apply (later_rounds c q slack M m Hk Hsize Hq t σ1 _ e fuel);
        [congruence | done | done | done |].
      destruct Hslack as [->|[-> _]]; unfold t; lia. }
    destruct (Hloop 2%nat (or_introl eq_refl)) as (σ' & calls & Hrun & Hp & Hst).
    exists σ', (calls0 ++ calls1 ++ calls)%list. rewrite !app_assoc. split; [done|].
    rewrite !probes_app, !statements_app.
    split; [unfold t in Hp; lia|]. split; [unfold t in Hp; lia|].
    intros Hrow _.
    destruct (Hloop 1%nat) as (σ'' & calls' & Hrun' & Hp' & _).
    { right. split; [done|]. rewrite Hrows. by apply attained_of_row. }
    rewrite Hrun in Hrun'. injection Hrun' as _ Hcalls. apply app_inv_head in Hcalls as <-.
    unfold t in Hp'. lia.
Qed.

(** ** The variables of a composite key *)

Lemma string_app_inv_head (p a b : string) : p +:+ a = p +:+ b → a = b.
Proof. induction p as [|c p IH]; [done|]. intros [= H]. by apply IH. Qed.


Lemma var_names_length family k : length (var_names family k) = k.
Proof. unfold var_names. by rewrite length_fmap, length_seq. Qed.


Lemma assign_lookup_ne (vars : gmap string value) dst vals name :
  name ∉ dst → assign vars dst vals !! name = vars !! name.
Proof.
  revert vars vals. induction dst as [|n dst IH]; intros vars vals Hnot; [done|].
  destruct vals as [|v vals]; [done|]. cbn [assign].
  rewrite IH by (intros ?; apply Hnot; by right).
  apply lookup_insert_ne. intros ->. apply Hnot. by left.
Qed.


Lemma read_int_assign_ne (vars : gmap string value) dst vals name :
  name ∉ dst → read_int (assign vars dst vals) name = read_int vars name.
Proof. intros Hnot. unfold read_int. by rewrite assign_lookup_ne. Qed.




Lemma eval_vars (vars : gmap string value) names :
  mapM (eval_expr vars) (EVar <$> names) = Some ((λ n, default VNil (vars !! n)) <$> names).
Proof. induction names as [|n names IH]; [done|]. cbn. by rewrite IH. Qed.


(** ** The endpoint of a composite key *)





Lemma first_by_elem cmp rows r : first_by cmp rows = Some r → r ∈ rows.
Proof.
  revert r. induction rows as [|x rows IH]; intros r; [done|]. cbn.
  destruct (first_by cmp rows) as [r'|].
  - destruct (cmp x r'); intros [= <-]; (by left) || (right; by apply IH).
  - intros [= <-]. by left.
Qed.

Lemma assign_many σ tr src dst vals :
  mapM (eval_expr (user_vars σ)) src = Some vals →
  length vals = length dst →
  dbExec mysqlDB (SelectInto src dst) (σ, tr)
    = (Ok 1, (set_vars σ (assign (user_vars σ) dst vals),
              (tr ++ [CallExec (SelectInto src dst)])%list)).
Proof.
  intros Hsrc Hlen. unfold dbExec, issue. cbn [Exec mysqlDB mysql_Exec fst snd].
  rewrite Hsrc. by rewrite bool_decide_eq_true_2.
Qed.

Section Composite.

Context (c : Config) (q : string).

Let k := CountColumnsInUniqueKey c.

Hypothesis several_columns : (2 ≤ k)%nat.
Hypothesis chunk_size_positive : 0 < ChunkSize c < MaxInt.
Hypothesis sentinel_present : strings.Contains q (sentinel c) = true.








End Composite.

(** [ORDER BY c1, ..., ck DESC LIMIT 1] on two or more columns: no row
    has a first component below that of the row it gives. *)
Lemma desc_compare_first x a y b :
  a ≠ [] → b ≠ [] →
  (desc_compare (x :: a) (y :: b) = Gt → y ≤ x)
  ∧ (desc_compare (x :: a) (y :: b) ≠ Gt → x ≤ y).
Proof.
  intros Ha Hb. destruct a as [|a0 a]; [done|]. destruct b as [|b0 b]; [done|].
  cbn [desc_compare]. destruct (Z.compare_spec x y); split; intros; (done || lia).
Qed.

Lemma desc_first_component rows mx (k : nat) :
  (2 ≤ k)%nat →
  Forall (λ r, length r = k) rows →
  first_by desc_compare rows = Some mx →
  ∃ M0, head mx = Some M0 ∧ ∀ r, r ∈ rows → ∃ r0, head r = Some r0 ∧ M0 ≤ r0.
Proof.
  intros Hk Hrows. revert mx. induction Hrows as [|r rows Hr Hrows IH]; intros mx; [done|].
  destruct r as [|x a]; [simpl in Hr; lia|].
  assert (a ≠ []) as Ha by (destruct a; [simpl in Hr; lia | done]).
  cbn [first_by]. destruct (first_by desc_compare rows) as [r'|] eqn:E.
  - destruct (IH r' eq_refl) as (M' & Hhd & Hmin).
    assert (r' ∈ rows) as Hin by (by apply first_by_elem in E).
    destruct r' as [|y b]; [done|]. injection Hhd as ->.
    assert (b ≠ []) as Hb.
    { eapply Forall_forall in Hrows; [|exact Hin]. destruct b; [simpl in Hrows; lia | done]. }
    destruct (desc_compare_first x a M' b Ha Hb) as [Hgt Hle].
    destruct (desc_compare (x :: a) (M' :: b)) eqn:C; intros [= <-].
    + exists x. split; [done|]. intros r [->|Hr']%elem_of_cons; [by exists x|].
      destruct (Hmin r Hr') as (r0 & ? & ?). exists r0. split; [done|]. specialize (Hle ltac:(done)). lia.
    + exists x. split; [done|]. intros r [->|Hr']%elem_of_cons; [by exists x|].
      destruct (Hmin r Hr') as (r0 & ? & ?). exists r0. split; [done|]. specialize (Hle ltac:(done)). lia.
    + exists M'. split; [done|]. intros r [->|Hr']%elem_of_cons; [|by apply Hmin].
      exists x. split; [done|]. by apply Hgt.
  - intros [= <-]. apply first_by_None in E as ->. exists x. split; [done|].
    intros r [->|Hr']%elem_of_cons; [by exists x | by apply elem_of_nil in Hr'].
Qed.



(** ** The lexicographic order *)


Lemma lex_compare_antisym a : ∀ b, lex_compare b a = CompOpp (lex_compare a b).
Proof.
  induction a as [|x a IH]; intros [|y b]; try done.
  cbn. rewrite (Z.compare_antisym x y). destruct (x ?= y); cbn; [apply IH | done..].
Qed.

Lemma lex_le_trans a : ∀ b c,
  lex_compare a b ≠ Gt → lex_compare b c ≠ Gt → lex_compare a c ≠ Gt.
Proof.
  induction a as [|x a IH]; intros [|y b] [|z c]; try done.
  cbn. destruct (Z.compare_spec x y), (Z.compare_spec y z), (Z.compare_spec x z);
    try done; try lia; subst; eauto.
Qed.



(** ** The statement templates *)

(** C7.  With the sentinel [GO_CHUNK(Table)] standing once in the user
    statement, between [pre] and [post]: on a single-column key the first
    round's statement is the user statement with the sentinel replaced by
    [key >= @unique_key_min_value_0 AND key < @unique_key_range_end_0] and
    the later rounds' by [key > @unique_key_range_start_0 AND key <
    @unique_key_range_end_0]; on a key of [k > 1] columns the same two
    conditions are written between parenthesised tuples, the columns on
    one side and all [k] variables of the family on the other. *)
Theorem chunk_statement_templates (c : Config) (pre post : string) :
  let key := UniqueKeyColumnNames c in
  let k := CountColumnsInUniqueKey c in
  let executeQuery := pre +:+ sentinel c +:+ post in
  strings.Index executeQuery (sentinel c) = Some (String.length pre) →
  strings.Contains post (sentinel c) = false →
  (k = 1%nat →
     render (firstQuery c executeQuery) =
       pre +:+ (key +:+ " >= @unique_key_min_value_0 AND " +:+
                key +:+ " < @unique_key_range_end_0") +:+ post
     ∧ render (restQuery c executeQuery) =
       pre +:+ (key +:+ " > @unique_key_range_start_0 AND " +:+
                key +:+ " < @unique_key_range_end_0") +:+ post)
  ∧ ((1 < k)%nat →
     render (firstQuery c executeQuery) =
       pre +:+ ("(" +:+ key +:+ ") >= (" +:+ tuple_of "unique_key_min_value_" k +:+ ") AND (" +:+
                key +:+ ") < (" +:+ tuple_of "unique_key_range_end_" k +:+ ")") +:+ post
     ∧ render (restQuery c executeQuery) =
       pre +:+ ("(" +:+ key +:+ ") > (" +:+ tuple_of "unique_key_range_start_" k +:+ ") AND (" +:+
                key +:+ ") < (" +:+ tuple_of "unique_key_range_end_" k +:+ ")") +:+ post).
Proof.
  intros key k executeQuery Hfirst Hpost.
  unfold firstQuery, restQuery, first_pred, rest_pred. cbn [render]. fold k key.
  split; intros Hk.
  - rewrite !bool_decide_eq_true_2 by done.
    unfold executeQuery. rewrite !Replace_single by done.
    split; reflexivity.
  - rewrite !bool_decide_eq_false_2 by lia.
    unfold executeQuery. rewrite !Replace_single by done.
    cbn [render_pred render_lower render_upper].
    unfold min_value_names, range_end_names, range_start_names.
    rewrite !at_vars_names. split; reflexivity.
Qed.

Lemma chunk_statement_templates_witness :
  (render (firstQuery (engine_config "DELETE FROM t WHERE GO_CHUNK(t) AND flag=0" 10 ["id"])
                      "DELETE FROM t WHERE GO_CHUNK(t) AND flag=0")
     = "DELETE FROM t WHERE id >= @unique_key_min_value_0 AND id < @unique_key_range_end_0 AND flag=0"
   ∧ render (restQuery (engine_config "DELETE FROM t WHERE GO_CHUNK(t) AND flag=0" 10 ["id"])
                       "DELETE FROM t WHERE GO_CHUNK(t) AND flag=0")
     = "DELETE FROM t WHERE id > @unique_key_range_start_0 AND id < @unique_key_range_end_0 AND flag=0")
  ∧ (render (firstQuery (engine_config update_t 1 ["a"; "b"]) update_t)
     = "UPDATE t SET x=1 WHERE (a,b) >= (@unique_key_min_value_0,@unique_key_min_value_1) AND (a,b) < (@unique_key_range_end_0,@unique_key_range_end_1)"
   ∧ render (restQuery (engine_config update_t 1 ["a"; "b"]) update_t)
     = "UPDATE t SET x=1 WHERE (a,b) > (@unique_key_range_start_0,@unique_key_range_start_1) AND (a,b) < (@unique_key_range_end_0,@unique_key_range_end_1)").
Proof.
  split.
  - apply (chunk_statement_templates
             (engine_config "DELETE FROM t WHERE GO_CHUNK(t) AND flag=0" 10 ["id"])
             "DELETE FROM t WHERE " " AND flag=0");
      reflexivity.
  - apply (chunk_statement_templates (engine_config update_t 1 ["a"; "b"])
                                     "UPDATE t SET x=1 WHERE " "");
      [reflexivity | reflexivity | simpl; lia].
Defined.

(** ** The range initializer *)

(** C8.  With [StartWith] given and a key that is not a single integer
    column, [GetUniqueKeyRange] returns the error ["--start-with only
    applies to single column integer chunking keys"] and leaves the
    database and the trace of calls as they were: it has issued no
    statement. *)
Theorem start_with_needs_single_integer_key {St : Type} (db : DBInterface St) (c : Config)
    (w : St * list call) :
  StartWith c ≠ "" →
  ¬ (UniqueKeyType c = "integer" ∧ CountColumnsInUniqueKey c = 1%nat) →
  GetUniqueKeyRange db c w =
    (Abort (Error (ErrorString "--start-with only applies to single column integer chunking keys")), w).
Proof.
  intros Hstart Hshape.
  unfold GetUniqueKeyRange, bind, seed_bound.
  rewrite bool_decide_eq_true_2 by done.
  assert (bool_decide (UniqueKeyType c = "integer")
          && bool_decide (CountColumnsInUniqueKey c = 1%nat) = false) as ->.
  { destruct (decide (UniqueKeyType c = "integer")) as [Ht|Ht].
    - rewrite (bool_decide_eq_false_2 (CountColumnsInUniqueKey c = 1%nat)) by tauto.
      apply andb_false_r.
    - by rewrite (bool_decide_eq_false_2 _ Ht). }
  reflexivity.
Qed.

Lemma start_with_needs_single_integer_key_witness :
  GetUniqueKeyRange MockDB (config_with "" "1" "" "integer" 2) (None, []) =
    (Abort (Error (ErrorString "--start-with only applies to single column integer chunking keys")),
     (None, [])).
Proof.
  apply (start_with_needs_single_integer_key MockDB (config_with "" "1" "" "integer" 2)).
  - simpl. discriminate.
  - simpl. intros [_ H]. discriminate H.
Defined.

(** C10.  On a single integer column, a [StartWith] that is not an
    integer literal is executed as a query, and when the row it gives has
    no [int64] under [start_with] (the column is missing, or holds
    something else) [GetUniqueKeyRange] panics, having issued that query
    and nothing after it; the same for [EndWith] and [end_with], once the
    lower bound has been seeded. *)
Theorem sub_statement_type_assertion_panics {St : Type} (db : DBInterface St) (c : Config) :
  UniqueKeyType c = "integer" →
  CountColumnsInUniqueKey c = 1%nat →
  (∀ w row s',
     StartWith c ≠ "" →
     strconv.Atoi (StartWith c) = None →
     QueryRow db (Raw (StartWith c)) w.1 = (Ok row, s') →
     (∀ n, row_get row "start_with" ≠ VInt64 n) →
     GetUniqueKeyRange db c w =
       (Abort panic_int64, (s', (w.2 ++ [CallQueryRow (Raw (StartWith c))])%list)))
  ∧
  (∀ w w1 row s',
     seed_bound db c (StartWith c) "start_with" (min_value_names 1) false "--start-with" w
       = (Ok tt, w1) →
     EndWith c ≠ "" →
     strconv.Atoi (EndWith c) = None →
     QueryRow db (Raw (EndWith c)) w1.1 = (Ok row, s') →
     (∀ n, row_get row "end_with" ≠ VInt64 n) →
     GetUniqueKeyRange db c w =
       (Abort panic_int64, (s', (w1.2 ++ [CallQueryRow (Raw (EndWith c))])%list))).
Proof.
  intros Htype Hcount. split.
  - intros w row s' Hne Hlit Hq Hrow.
    unfold GetUniqueKeyRange, bind, seed_bound.
    rewrite !bool_decide_eq_true_2 by done. cbn [andb].
    rewrite Hlit. unfold dbQueryRow, issue, bind. rewrite Hq.
    unfold lift. by rewrite assert_int64_panics.
  - intros w w1 row s' Hlow Hne Hlit Hq Hrow.
    unfold GetUniqueKeyRange. rewrite Hcount. unfold bind at 1. rewrite Hlow.
    unfold bind, seed_bound.
    rewrite bool_decide_eq_true_2 by done.
    rewrite Htype. rewrite !bool_decide_eq_true_2 by done. cbn [andb].
    rewrite Hlit. unfold dbQueryRow, issue, bind. rewrite Hq.
    unfold lift. by rewrite assert_int64_panics.
Qed.

Lemma sub_statement_type_assertion_panics_witness :
  GetUniqueKeyRange MockDB (config_with "" "SELECT MIN(id) FROM t" "" "integer" 1) (None, [])
    = (Abort panic_int64, (None, [CallQueryRow (Raw "SELECT MIN(id) FROM t")]))
  ∧ GetUniqueKeyRange MockDB (config_with "" "5" "SELECT 'x' AS end_with" "integer" 1) (None, [])
    = (Abort panic_int64,
       (None, [CallExec (SelectInto [EInt 5] ["unique_key_min_value_0"]);
               CallQueryRow (Raw "SELECT 'x' AS end_with")])).
Proof.
  split.
  - apply (proj1 (sub_statement_type_assertion_panics MockDB
                    (config_with "" "SELECT MIN(id) FROM t" "" "integer" 1)
                    eq_refl eq_refl) (None, []) ∅ None).
    + simpl. discriminate.
    + reflexivity.
    + reflexivity.
    + intros n. vm_compute. discriminate.
  - apply (proj2 (sub_statement_type_assertion_panics MockDB
                    (config_with "" "5" "SELECT 'x' AS end_with" "integer" 1)
                    eq_refl eq_refl)
                 (None, []) (None, [CallExec (SelectInto [EInt 5] ["unique_key_min_value_0"])])
                 ∅ None).
    + reflexivity.
    + simpl. discriminate.
    + reflexivity.
    + reflexivity.
    + intros n. vm_compute. discriminate.
Defined.

(** ** The key discoverer *)

(** C9.  A forced chunking column of the form [col:kind] gives
    [(col, 1, kind)], a bare [col] gives [(col, 1, "")], and a list
    [c1,c2,...] gives the list as written, the number of columns listed
    and the empty classification; in each case whatever the database
    would say, which is not asked: its state and the trace of calls are
    unchanged. *)
Theorem forced_key_identity {U : Unicode} {St : Type} (db : DBInterface St) (c : Config)
    (w : St * list call) (f : forced_spec) :
  well_formed f →
  ForcedChunkingColumn c = spec_text f →
  GetSelectedUniqueKeyColumnNames db c w = (Ok (forced_result f), w).
Proof.
  intros Hwf Htext. unfold GetSelectedUniqueKeyColumnNames. rewrite Htext.
  destruct f as [col kind | col | columns]; cbn [spec_text forced_result well_formed] in Hwf |- *.
  - destruct Hwf as [[Hc1 Hc2] [Hk1 Hk2]].
    rewrite bool_decide_eq_true_2 by apply app_cons_not_empty.
    change (col +:+ ":" +:+ kind) with (col +:+ String ":" kind).
    rewrite (Split_without ","%char).
    2:{ apply Contains_sep_app; [done|]. apply Contains_sep_cons. by split. }
    rewrite bool_decide_eq_false_2 by (simpl; lia).
    rewrite (Contains_app_sep ":"%char).
    rewrite (Split_app ":"%char) by done.
    rewrite (Split_without ":"%char) by done.
    reflexivity.
  - destruct Hwf as [Hne [Hc1 Hc2]].
    rewrite bool_decide_eq_true_2 by done.
    rewrite (Split_without ","%char) by done.
    rewrite bool_decide_eq_false_2 by (simpl; lia).
    rewrite Hc2. reflexivity.
  - destruct Hwf as [Hlen Hall].
    rewrite bool_decide_eq_true_2.
    2:{ destruct columns as [|t [|t' ts]]; simpl in Hlen; try lia.
        apply app_cons_not_empty. }
    rewrite (Split_Join ","%char) by (try done; by destruct columns; simpl in Hlen; try lia).
    rewrite bool_decide_eq_true_2 by done. reflexivity.
Qed.

Lemma forced_key_identity_witness :
  GetSelectedUniqueKeyColumnNames MockDB (config_with "id:integer" "" "" "" 0) (None, [])
    = (Ok ("id", 1, "integer"), (None, []))
  ∧ GetSelectedUniqueKeyColumnNames MockDB (config_with "id" "" "" "" 0) (None, [])
    = (Ok ("id", 1, ""), (None, []))
  ∧ GetSelectedUniqueKeyColumnNames MockDB (config_with "col1,col2" "" "" "" 0) (None, [])
    = (Ok ("col1,col2", 2, ""), (None, [])).
Proof.
  split; [|split].
  - apply (forced_key_identity MockDB _ _ (ColumnAndKind "id" "integer")); [|reflexivity].
    vm_compute. done.
  - apply (forced_key_identity MockDB _ _ (BareColumn "id")); [|reflexivity].
    vm_compute. done.
  - apply (forced_key_identity MockDB _ _ (ColumnList ["col1"; "col2"])); [|reflexivity].
    split; [simpl; lia|]. repeat constructor.
Defined.


(** ** The chunk driver on concrete tables *)

(** C1.  On the table with keys 1..5 and chunks of two rows the engine
    seeds [min = 1] and [max = 5] and runs to the end, and the statements
    it has executed targeted the rows 1, 2 and then 4: the rows 3 and 5,
    which lie in [min, max], are in no chunk.  Each is the end of a
    window, excluded by [key < end] in its own round and by [key > start]
    in the next. *)
Theorem window_ends_are_in_no_chunk :
  let r := run 10 (flags_of update_t 2 "d") ["id"] [[1]; [2]; [3]; [4]; [5]] in
  r.1 = Ok ""
  ∧ read_int (user_vars r.2.1) "unique_key_min_value_0" = Some 1
  ∧ read_int (user_vars r.2.1) "unique_key_max_value_0" = Some 5
  ∧ chunks_of r = [[[1]; [2]]; [[4]]]
  ∧ ¬ Exists (λ chunk, [3] ∈ chunk) (chunks_of r)
  ∧ ¬ Exists (λ chunk, [5] ∈ chunk) (chunks_of r).
Proof.
  intros r.
  assert (chunks_of r = [[[1]; [2]]; [[4]]]) as Hchunks by evaluated.
  split; [evaluated|].
  split; [evaluated|].
  split; [evaluated|].
  split; [exact Hchunks|].
  rewrite Hchunks. clear.
  split; rewrite !Exists_cons, Exists_nil, !elem_of_cons, !elem_of_nil; intros H;
    repeat destruct H as [H|H]; try discriminate H; try done.
Qed.

(** C2.  On the two-column key (a, b) with rows (1,1), (1,2), (2,1) and
    chunks of one row, the first round ends with the statement [SELECT
    @unique_key_range_end_0 INTO @unique_key_range_start_0], after which
    the end of the window is (1,2) and its start still (1,1): the second
    component has not been copied. *)
Theorem advance_copies_the_first_component_only :
  let c := engine_config update_t 1 ["a"; "b"] in
  let entry := ChunkUpdate_preamble mysqlDB c (seeded c ["a"; "b"] [[1; 1]; [1; 2]; [2; 1]]) in
  let first := chunk_round mysqlDB c update_t true entry.2 in
  entry.1 = Ok tt
  ∧ first.1 = Ok false
  ∧ last first.2.2 = Some (CallExec (SelectInto [EVar "unique_key_range_end_0"]
                                               ["unique_key_range_start_0"]))
  ∧ read_tuple (user_vars first.2.1) (range_end_names 2) = Some [1; 2]
  ∧ read_tuple (user_vars first.2.1) (range_start_names 2) = Some [1; 1].
Proof.
  intros c entry first.
  split; [evaluated|]. split; [evaluated|].
  split; [evaluated|]. split; evaluated.
Qed.

(** C3.  On the two-column key (a, b) with rows (1,1), (1,2), (1,3) and
    chunks of one row, the second round asks [SELECT
    @unique_key_range_start_0 >= @unique_key_max_value_0 AS overflow] and
    breaks, with the start of the window at (1,1) and [max] at (1,3):
    the tuple comparison [start >= max] does not hold, and the rows
    (1,2) and (1,3) are left out. *)
Theorem overflow_check_reads_the_first_component_only :
  let c := engine_config update_t 1 ["a"; "b"] in
  let entry := ChunkUpdate_preamble mysqlDB c (seeded c ["a"; "b"] [[1; 1]; [1; 2]; [1; 3]]) in
  let first := chunk_round mysqlDB c update_t true entry.2 in
  let second := chunk_round mysqlDB c update_t false first.2 in
  entry.1 = Ok tt
  ∧ first.1 = Ok false
  ∧ second.1 = Ok true
  ∧ last second.2.2 = Some (CallQueryRow (SelectOverflow "unique_key_range_start_0"
                                                         "unique_key_max_value_0"))
  ∧ read_tuple (user_vars first.2.1) (range_start_names 2) = Some [1; 1]
  ∧ read_tuple (user_vars first.2.1) (max_value_names 2) = Some [1; 3]
  ∧ holds_lower OpGe [1; 1] [1; 3] = false
  ∧ targeted second.2.1 = [[[1; 1]]].
Proof.
  intros c entry first second.
  split; [evaluated|]. split; [evaluated|]. split; [evaluated|].
  split; [evaluated|]. split; [evaluated|]. split; [evaluated|]. split; evaluated.
Qed.

(** C4.  For the statement [UPDATE db.users SET status='active' WHERE
    GO_CHUNK(db.users)] the driver takes the table [users] of database
    [db], and the engine rewrites the sentinel [GO_CHUNK(users)], which
    the statement does not contain: the first-round and later-round
    statements it sends are the user statement unchanged, sentinel
    included. *)
Theorem qualified_sentinel_is_not_rewritten :
  let execute := "UPDATE db.users SET status='active' WHERE GO_CHUNK(db.users)" in
  let r := run 10 (flags_of execute 1000 "") ["id"] [[1]; [2]; [3]] in
  ∃ c,
    Database c = "db" ∧ Table c = "users" ∧ sentinel c = "GO_CHUNK(users)"
    ∧ last r.2.2 = Some (CallExec (firstQuery c execute))
    ∧ render (firstQuery c execute) = execute
    ∧ render (restQuery c execute) = execute
    ∧ FindStringSubmatch (render (firstQuery c execute)) = Some "db.users".
Proof.
  intros execute r.
  exists (with_unique_key (Config_of_Flags (flags_of execute 1000 "") "db" "users")
                          "id" 1 "integer").
  split; [evaluated|]. split; [evaluated|]. split; [evaluated|].
  split; [evaluated|]. split; [evaluated|]. split; evaluated.
Qed.




(** C6.  With [--chunk-size -1] the driver reports no validation error:
    it connects, checks the table, reads the key, locks the table and
    seeds the bounds, and the run ends on the error the server gives for
    the probe with [LIMIT -1]. *)
Theorem negative_chunk_size_reaches_the_database :
  let f := flags_of "UPDATE test SET col=val WHERE GO_CHUNK(test)" (-1) "test" in
  let r := run 10 f ["id"] [[1]; [2]; [3]] in
  chunkSize f < 0
  ∧ take 6 r.2.2 =
      [ CallNewDB {| User := ""; Password := ""; Host := "localhost"; Port := 3306; Socket := "";
                     ConnDatabase := "test"; DefaultsFile := "" |};
        CallTableExists "test" "test";
        CallGetPossibleUniqueKeyColumns "test" "test";
        CallLockTableRead "test" "test";
        CallExec (SelectKeyInto "id" ["unique_key_min_value_0"] "test" "test" false);
        CallExec (SelectKeyInto "id" ["unique_key_max_value_0"] "test" "test" true) ]
  ∧ last r.2.2 = Some (CallQueryRow (Probe "id" "test" "test"
                         (Single "id" OpGt "unique_key_range_start_0" OpLe "unique_key_max_value_0")
                         (-1)))
  ∧ r.1 = Abort (OsExit 1 "Chunk error:You have an error in your SQL syntax").
Proof.
  intros f r. split; [done|]. split; [evaluated|]. split; evaluated.
Qed.

(** * Further properties of the code *)

(** ** The checks of the driver before it connects *)

Lemma Split_scan_not_nil sp s : ∀ skip, strings.Split_scan sp skip s ≠ [].
Proof.
  induction s as [|c s IH]; intros skip; [done|].
  cbn [strings.Split_scan]. destruct skip as [|k]; [|apply IH].
  destruct (strings.HasPrefix (String c s) sp); [done|].
  by destruct (strings.Split_scan sp 0 s).
Qed.

Lemma Split_not_nil s sp : strings.Split s sp ≠ [].
Proof. apply Split_scan_not_nil. Qed.

Lemma last_token_Split spec sp : ∃ t, last_token (strings.Split spec sp) = Ok t.
Proof.
  unfold last_token, index, strings.Split.
  pose proof (Split_scan_not_nil sp spec 0%nat) as Hne.
  destruct (strings.Split_scan sp 0 spec) as [|t ts] eqn:E; [done|].
  destruct (lookup_lt_is_Some_2 (t :: ts) (length (t :: ts) - 1)) as [x Hx]; [simpl; lia|].
  rewrite Hx. by exists x.
Qed.

(** X1.  Without [--execute], without a sentinel in the statement, and
    with a sentinel that names no database when [--database] is not
    given either, the driver exits with code 1 and its message, and has
    made no call on the database. *)
Theorem validation_exits_before_database {U : Unicode} {St : Type} (db : DBInterface St)
    (sys : System St) (fuel : nat) (f : Flags) (w : St * list call) :
  (execute f = "" →
   runChunkUpdate db sys fuel f w = (Abort (OsExit 1 "Error: --execute is required"), w))
  ∧ (execute f ≠ "" → FindStringSubmatch (execute f) = None →
     runChunkUpdate db sys fuel f w
       = (Abort (OsExit 1 "Error: Query must contain GO_CHUNK(table_name)"), w))
  ∧ (∀ spec, execute f ≠ "" → FindStringSubmatch (execute f) = Some spec →
     length (strings.Split spec ".") ≠ 2%nat → database f = "" →
     runChunkUpdate db sys fuel f w = (Abort (OsExit 1 "Error: No database specified"), w)).
Proof.
  unfold runChunkUpdate. split; [|split].
  - intros ->. reflexivity.
  - intros Hne Hnone. rewrite bool_decide_eq_false_2 by done. by rewrite Hnone.
  - intros spec Hne Hsome Hlen Hdb. rewrite bool_decide_eq_false_2 by done. rewrite Hsome.
    destruct (last_token_Split spec ".") as [t Ht].
    unfold bind, lift. rewrite Ht.
    rewrite (bool_decide_eq_false_2 _ Hlen), Hdb. reflexivity.
Qed.

Lemma validation_exits_before_database_witness :
  run 10 (flags_of "" 1000 "d") ["id"] [[1]]
    = (Abort (OsExit 1 "Error: --execute is required"), (session ["id"] [[1]], []))
  ∧ run 10 (flags_of "UPDATE t SET x=1" 1000 "d") ["id"] [[1]]
    = (Abort (OsExit 1 "Error: Query must contain GO_CHUNK(table_name)"), (session ["id"] [[1]], []))
  ∧ run 10 (flags_of update_t 1000 "") ["id"] [[1]]
    = (Abort (OsExit 1 "Error: No database specified"), (session ["id"] [[1]], [])).
Proof.
  unfold run. split; [|split].
  - by apply (validation_exits_before_database mysqlDB mysqlSystem 10 (flags_of "" 1000 "d")).
  - apply (validation_exits_before_database mysqlDB mysqlSystem 10
             (flags_of "UPDATE t SET x=1" 1000 "d")); [discriminate | reflexivity].
  - apply (proj2 (proj2 (validation_exits_before_database mysqlDB mysqlSystem 10
                           (flags_of update_t 1000 "") (session ["id"] [[1]], []))) "t");
      [discriminate | reflexivity | vm_compute; lia | reflexivity].
Defined.

(** ** The sentinel pattern *)

Lemma HasPrefix_inv p : ∀ s, strings.HasPrefix s p = true → ∃ r, s = p +:+ r.
Proof.
  induction p as [|c p IH]; intros s Hs; [by exists s|].
  destruct s as [|d s]; [done|].
  rewrite HasPrefix_cons in Hs. apply andb_true_iff in Hs as [Hc Hp].
  apply bool_decide_eq_true in Hc as ->. destruct (IH s Hp) as [r ->]. by exists r.
Qed.

Lemma substring_all r : String.substring 0 (String.length r) r = r.
Proof. induction r as [|c r IH]; [done|]. cbn. by rewrite IH. Qed.

Lemma substring_after p r :
  String.substring (String.length p) (String.length (p +:+ r) - String.length p) (p +:+ r) = r.
Proof.
  induction p as [|c p IH].
  - cbn [String.length String.append]. rewrite Nat.sub_0_r. apply substring_all.
  - change (String c p +:+ r) with (String c (p +:+ r)). cbn [String.length String.substring].
    exact IH.
Qed.

Lemma span_table_spec s :
  s = (span_table s).1 +:+ (span_table s).2
  ∧ strings.Contains (span_table s).1 ")" = false
  ∧ ((span_table s).2 = "" ∨ ∃ rest, (span_table s).2 = String ")" rest).
Proof.
  induction s as [|c s (IH1 & IH2 & IH3)]; [by repeat split; try left|].
  cbn [span_table]. destruct (decide (c = ")"%char)) as [->|Hc].
  - rewrite bool_decide_eq_true_2 by done. cbn. split; [done|]. split; [done|]. right. by exists s.
  - rewrite bool_decide_eq_false_2 by done. destruct (span_table s) as [a b]. cbn in *.
    split; [by rewrite IH1 at 1|]. split; [|done].
    by apply (Contains_sep_cons ")"%char).
Qed.

Lemma span_table_closed t rest :
  strings.Contains t ")" = false → span_table (t +:+ String ")" rest) = (t, String ")" rest).
Proof.
  induction t as [|c t IH]; intros Ht.
  - reflexivity.
  - apply (Contains_sep_cons ")"%char) in Ht as [Hc Ht].
    change (String c t +:+ String ")" rest) with (String c (t +:+ String ")" rest)).
    cbn [span_table]. rewrite bool_decide_eq_false_2 by done. by rewrite IH.
Qed.

Lemma match_sentinel_here_Some s t :
  match_sentinel_here s = Some t
  ↔ t ≠ "" ∧ strings.Contains t ")" = false
    ∧ ∃ rest, s = "GO_CHUNK(" +:+ t +:+ ")" +:+ rest.
Proof.
  unfold match_sentinel_here. split.
  - destruct (strings.HasPrefix s "GO_CHUNK(") eqn:Hp; [|done].
    apply HasPrefix_inv in Hp as [r ->].
    change 9%nat with (String.length "GO_CHUNK("). rewrite substring_after.
    destruct (span_table_spec r) as (Hr & Hno & Hrest).
    destruct (span_table r) as [tok rest]. cbn [fst snd] in *.
    destruct tok as [|c tok]; [done|]. destruct rest as [|d rest]; [done|].
    intros [= <-]. split; [done|]. split; [done|].
    destruct Hrest as [|[rest' [= -> ->]]]; [done|]. exists rest'. by rewrite Hr at 1.
  - intros (Hne & Hno & rest & ->).
    rewrite HasPrefix_app. change 9%nat with (String.length "GO_CHUNK(").
    rewrite substring_after.
    change (t +:+ ")" +:+ rest) with (t +:+ String ")" rest).
    rewrite span_table_closed by done. by destruct t.
Qed.

Lemma FindStringSubmatch_Some s t :
  FindStringSubmatch s = Some t →
  t ≠ "" ∧ strings.Contains t ")" = false
  ∧ ∃ pre rest, s = pre +:+ "GO_CHUNK(" +:+ t +:+ ")" +:+ rest.
Proof.
  induction s as [|c s IH].
  - cbn [FindStringSubmatch]. destruct (match_sentinel_here "") eqn:E; [|done].
    intros [= ->]. apply match_sentinel_here_Some in E as (? & ? & rest & ?).
    split; [done|]. split; [done|]. by exists "", rest.
  - cbn [FindStringSubmatch]. destruct (match_sentinel_here (String c s)) eqn:E.
    + intros [= ->]. apply match_sentinel_here_Some in E as (? & ? & rest & ?).
      split; [done|]. split; [done|]. by exists "", rest.
    + intros H. destruct (IH H) as (? & ? & pre & rest & ->).
      split; [done|]. split; [done|]. by exists (String c pre), rest.
Qed.

Lemma FindStringSubmatch_is_Some pre t rest :
  t ≠ "" → strings.Contains t ")" = false →
  is_Some (FindStringSubmatch (pre +:+ "GO_CHUNK(" +:+ t +:+ ")" +:+ rest)).
Proof.
  intros Hne Hno.
  assert (is_Some (FindStringSubmatch ("GO_CHUNK(" +:+ t +:+ ")" +:+ rest))) as Hhere.
  { assert (match_sentinel_here ("GO_CHUNK(" +:+ t +:+ ")" +:+ rest) = Some t) as E.
    { apply match_sentinel_here_Some. split; [done|]. split; [done|]. by exists rest. }
    change ("GO_CHUNK(" +:+ t +:+ ")" +:+ rest)
      with (String "G" ("O_CHUNK(" +:+ t +:+ ")" +:+ rest)) in *.
    cbn [FindStringSubmatch]. by rewrite E. }
  induction pre as [|c pre IH]; [done|].
  change (String c pre +:+ ?x) with (String c (pre +:+ x)).
  cbn [FindStringSubmatch]. by destruct (match_sentinel_here _).
Qed.

(** X2.  What the driver takes for the table is a text [t] of one byte
    or more, without a closing parenthesis, such that [GO_CHUNK(t)]
    stands in the statement; and every statement in which such a
    [GO_CHUNK(t)] stands gives one. *)
Theorem sentinel_is_found_where_it_stands (s : string) :
  (∀ t, FindStringSubmatch s = Some t →
        t ≠ "" ∧ strings.Contains t ")" = false
        ∧ ∃ pre rest, s = pre +:+ "GO_CHUNK(" +:+ t +:+ ")" +:+ rest)
  ∧ (∀ pre t rest,
       t ≠ "" → strings.Contains t ")" = false →
       s = pre +:+ "GO_CHUNK(" +:+ t +:+ ")" +:+ rest →
       is_Some (FindStringSubmatch s)).
Proof.
  split.
  - apply FindStringSubmatch_Some.
  - intros pre t rest Hne Hno ->. by apply FindStringSubmatch_is_Some.
Qed.

Lemma sentinel_is_found_where_it_stands_witness :
  ("db.users" ≠ "" ∧ strings.Contains "db.users" ")" = false
   ∧ ∃ pre rest, "UPDATE db.users SET a=1 WHERE GO_CHUNK(db.users) AND b=2"
                 = pre +:+ "GO_CHUNK(" +:+ "db.users" +:+ ")" +:+ rest)
  ∧ is_Some (FindStringSubmatch "DELETE FROM t WHERE GO_CHUNK(t)").
Proof.
  split.
  - apply (proj1 (sentinel_is_found_where_it_stands
                    "UPDATE db.users SET a=1 WHERE GO_CHUNK(db.users) AND b=2")).
    reflexivity.
  - apply (proj2 (sentinel_is_found_where_it_stands "DELETE FROM t WHERE GO_CHUNK(t)")
                 "DELETE FROM t WHERE " "t" ""); [discriminate | reflexivity | reflexivity].
Defined.

(** ** The key discoverer, whatever is forced *)

(** A string with the separator in it splits into two parts or more. *)
Lemma Split_with ch s :
  strings.Contains s (sep ch) = true → (2 ≤ length (strings.Split s (sep ch)))%nat.
Proof.
  induction s as [|c s IH]; [done|].
  intros Hc. rewrite Split_cons.
  pose proof (Split_not_nil s (sep ch)) as Hne.
  destruct (decide (c = ch)) as [->|Hne'].
  - rewrite bool_decide_eq_true_2 by done.
    destruct (strings.Split s (sep ch)); [done | simpl; lia].
  - rewrite bool_decide_eq_false_2 by done.
    assert (strings.Contains s (sep ch) = true) as Hs.
    { destruct (strings.Contains s (sep ch)) eqn:E; [done|].
      assert (strings.Contains (String c s) (sep ch) = false) as Hf
        by (by apply Contains_sep_cons).
      congruence. }
    specialize (IH Hs).
    destruct (strings.Split s (sep ch)) as [|t ts]; [done | simpl in *; lia].
Qed.

(** The parts of a string hold no byte the string does not hold. *)
Lemma Split_parts_without a b s :
  strings.Contains s (sep a) = false →
  Forall (λ t, strings.Contains t (sep a) = false) (strings.Split s (sep b)).
Proof.
  induction s as [|c s IH]; [by repeat constructor|].
  rewrite Contains_sep_cons. intros [Hc Hs]. specialize (IH Hs).
  rewrite Split_cons. destruct (bool_decide (c = b)).
  - by constructor.
  - destruct (strings.Split s (sep b)) as [|t ts].
    + repeat constructor. by apply Contains_sep_cons.
    + inversion IH as [|? ? Ht Hts]; subst. constructor; [|done].
      by apply Contains_sep_cons.
Qed.

(** X3.  With a forced chunking column, whatever its text, the
    discoverer returns without a panic and without a call on the
    database; the number of columns it gives is at least one and is the
    number of comma-separated names of the key it gives, and a key of
    several columns is the forced text itself, with no classification. *)
Theorem forced_key_needs_no_database {U : Unicode} {St : Type} (db : DBInterface St)
    (c : Config) (w : St * list call) :
  ForcedChunkingColumn c ≠ "" →
  ∃ key count kind,
    GetSelectedUniqueKeyColumnNames db c w = (Ok (key, count, kind), w)
    ∧ Z.of_nat (length (strings.Split key ",")) = count
    ∧ 1 ≤ count
    ∧ (1 < count → key = ForcedChunkingColumn c ∧ kind = "").
Proof.
  intros Hforced. unfold GetSelectedUniqueKeyColumnNames.
  rewrite bool_decide_eq_true_2 by done.
  set (forced := ForcedChunkingColumn c) in *.
  destruct (decide (1 < length (strings.Split forced ","))%nat) as [Hlist|Hone].
  - rewrite bool_decide_eq_true_2 by done.
    exists forced, (Z.of_nat (length (strings.Split forced ","))), "".
    split; [reflexivity|]. split; [done|]. split; [lia|done].
  - rewrite bool_decide_eq_false_2 by done.
    assert (strings.Contains forced "," = false) as Hcomma.
    { destruct (strings.Contains forced ",") eqn:E; [|done].
      apply (Split_with ","%char) in E. change (sep ",") with "," in E. lia. }
    destruct (strings.Contains forced ":") eqn:Hcolon.
    + pose proof (Split_with ":"%char forced Hcolon) as Hparts.
      pose proof (Split_parts_without ","%char ":"%char forced Hcomma) as Hwithout.
      change (sep ":") with ":" in *.
      destruct (strings.Split forced ":") as [|p0 [|p1 parts]]; simpl in Hparts; try lia.
      inversion Hwithout as [|? ? Hp0 _]; subst.
      exists p0, 1, p1. split; [reflexivity|].
      split; [by rewrite (Split_without ","%char)|]. split; lia.
    + exists forced, 1, "". split; [reflexivity|].
      split; [by rewrite (Split_without ","%char)|]. split; lia.
Qed.

Lemma forced_key_needs_no_database_witness :
  ∃ key count kind,
    GetSelectedUniqueKeyColumnNames MockDB (config_with "a:b:c" "" "" "" 0) (None, [])
      = (Ok (key, count, kind), (None, []))
    ∧ Z.of_nat (length (strings.Split key ",")) = count
    ∧ 1 ≤ count
    ∧ (1 < count → key = "a:b:c" ∧ kind = "").
Proof.
  apply (forced_key_needs_no_database MockDB (config_with "a:b:c" "" "" "" 0) (None, [])).
  simpl. discriminate.
Defined.

(** X4.  Without a forced column the discoverer reads the first row of
    the catalogue only: with the column names and the data type strings
    and the count an [int64] it gives the names as [strings.ToLower]
    leaves them, the count as it is, negative or not, and the
    classification of the data type as [strings.ToLower] leaves it;
    where that row does not have the types it asserts (a missing
    column, a value of another type) it panics, the catalogue query
    being the one call made. *)
Theorem discovery_asserts_the_types_of_the_first_row {U : Unicode} {St : Type}
    (db : DBInterface St) (c : Config) (w : St * list call) (row : gmap string value)
    (rows : list (gmap string value)) (s' : St) :
  let asked := CallGetPossibleUniqueKeyColumns (Database c) (Table c) in
  ForcedChunkingColumn c = "" →
  GetPossibleUniqueKeyColumns db (Database c) (Table c) w.1 = (Ok (row :: rows), s') →
  (∀ names count dataType,
     row_get row "COLUMN_NAMES" = VString names →
     row_get row "COUNT_COLUMN_IN_INDEX" = VInt64 count →
     row_get row "DATA_TYPE" = VString dataType →
     ∀ kind, classify (row_get row "CHARACTER_SET_NAME") (ToLower dataType) = Ok kind →
     GetSelectedUniqueKeyColumnNames db c w
       = (Ok (ToLower names, count, kind), (s', (w.2 ++ [asked])%list)))
  ∧ (¬ typed_as_asserted row →
     ∃ what, GetSelectedUniqueKeyColumnNames db c w
             = (Abort (GoPanic what), (s', (w.2 ++ [asked])%list))).
Proof.
  intros asked Hforced Hrows.
  assert (GetSelectedUniqueKeyColumnNames db c w =
            (let* names := lift (assert_string (row_get row "COLUMN_NAMES")) in
             let* countColumns := lift (assert_int64 (row_get row "COUNT_COLUMN_IN_INDEX")) in
             let* dt := lift (assert_string (row_get row "DATA_TYPE")) in
             let* uniqueKeyType := lift (classify (row_get row "CHARACTER_SET_NAME")
                                                  (ToLower dt)) in
             ret (ToLower names, countColumns, uniqueKeyType))
              (s', (w.2 ++ [asked])%list)) as ->.
  { unfold GetSelectedUniqueKeyColumnNames.
    rewrite Hforced, (bool_decide_eq_false_2 ("" ≠ "")) by (by intros H).
    unfold bind at 1. unfold dbGetPossibleUniqueKeyColumns, issue. by rewrite Hrows. }
  unfold bind, lift, ret. split.
  - intros names count dataType Hn Hc Hd kind Hkind. rewrite Hn, Hc, Hd.
    cbn [assert_string assert_int64]. by rewrite Hkind.
  - intros Hnot.
    destruct (row_get row "COLUMN_NAMES") as [|?|names|?] eqn:Hn;
      cbn [assert_string]; try by eexists.
    destruct (row_get row "COUNT_COLUMN_IN_INDEX") as [|count|?|?] eqn:Hc;
      cbn [assert_int64]; try by eexists.
    destruct (row_get row "DATA_TYPE") as [|?|dataType|?] eqn:Hd;
      cbn [assert_string]; try by eexists.
    destruct (row_get row "CHARACTER_SET_NAME") as [|?|charSet|?] eqn:Hs;
      cbn [classify]; try by eexists.
    + destruct Hnot. unfold typed_as_asserted. rewrite Hn, Hc, Hd, Hs.
      split; [by eexists|]. split; [by eexists|]. split; [by eexists|]. by left.
    + destruct Hnot. unfold typed_as_asserted. rewrite Hn, Hc, Hd, Hs.
      split; [by eexists|]. split; [by eexists|]. split; [by eexists|]. right. by eexists.
Qed.

Lemma discovery_asserts_the_types_of_the_first_row_witness :
  GetSelectedUniqueKeyColumnNames MockDB (config_with "" "" "" "" 0) (None, [])
    = (Ok ("id", 1, "integer"), (None, [CallGetPossibleUniqueKeyColumns "" ""]))
  ∧ ∃ what,
      GetSelectedUniqueKeyColumnNames MockDB (config_with "" "" "" "" 0)
                                      (Some [{[ "COLUMN_NAMES" := VString "id" ]}], [])
      = (Abort (GoPanic what),
         (Some [{[ "COLUMN_NAMES" := VString "id" ]}], [CallGetPossibleUniqueKeyColumns "" ""])).
Proof.
  split.
  - apply (proj1 (discovery_asserts_the_types_of_the_first_row MockDB
                    (config_with "" "" "" "" 0) (None, [])
                    (list_to_map [ ("COLUMN_NAMES", VString "id");
                                   ("COUNT_COLUMN_IN_INDEX", VInt64 1);
                                   ("DATA_TYPE", VString "int");
                                   ("CHARACTER_SET_NAME", VNil) ])
                    [] None eq_refl eq_refl) "id" 1 "int"); reflexivity.
  - apply (proj2 (discovery_asserts_the_types_of_the_first_row MockDB
                    (config_with "" "" "" "" 0)
                    (Some [{[ "COLUMN_NAMES" := VString "id" ]}], [])
                    {[ "COLUMN_NAMES" := VString "id" ]} []
                    (Some [{[ "COLUMN_NAMES" := VString "id" ]}]) eq_refl eq_refl)).
    intros (_ & [count Hcount] & _). vm_compute in Hcount. discriminate Hcount.
Defined.

(** ** The range initializer on the session *)

(** X5.  With [EndWith] given, no [StartWith], and a key that is not a
    single integer column, [GetUniqueKeyRange] returns the error
    ["--end-with only applies to single column integer chunking keys"]
    after it has sent the statement that seeds the lower bound: unlike
    the error for [StartWith], this one does not come before every
    statement. *)
Theorem end_with_error_follows_the_first_statement {St : Type} (db : DBInterface St)
    (c : Config) (w : St * list call) (n : Z) (s' : St) :
  let seed := SelectKeyInto (UniqueKeyColumnNames c) (min_value_names (CountColumnsInUniqueKey c))
                            (Database c) (Table c) false in
  StartWith c = "" →
  EndWith c ≠ "" →
  ¬ (UniqueKeyType c = "integer" ∧ CountColumnsInUniqueKey c = 1%nat) →
  Exec db seed w.1 = (Ok n, s') →
  GetUniqueKeyRange db c w =
    (Abort (Error (ErrorString "--end-with only applies to single column integer chunking keys")),
     (s', (w.2 ++ [CallExec seed])%list)).
Proof.
  intros seed Hstart Hend Hshape Hexec.
  unfold GetUniqueKeyRange, bind, seed_bound. rewrite Hstart.
  rewrite (bool_decide_eq_false_2 ("" ≠ "")) by (by intros H).
  unfold dbExec, issue, bind. fold seed. rewrite Hexec. unfold ret.
  rewrite bool_decide_eq_true_2 by done.
  assert (bool_decide (UniqueKeyType c = "integer")
          && bool_decide (CountColumnsInUniqueKey c = 1%nat) = false) as ->.
  { destruct (decide (UniqueKeyType c = "integer")) as [Ht|Ht].
    - rewrite (bool_decide_eq_false_2 (CountColumnsInUniqueKey c = 1%nat)) by tauto.
      apply andb_false_r.
    - by rewrite (bool_decide_eq_false_2 _ Ht). }
  reflexivity.
Qed.

Lemma end_with_error_follows_the_first_statement_witness :
  let c := with_unique_key (Config_of_Flags (flags_between update_t 10 "" "100") "d" "t")
                           "a,b" 2 "integer" in
  GetUniqueKeyRange mysqlDB c (session ["a"; "b"] [[1; 1]; [2; 1]], []) =
    (Abort (Error (ErrorString "--end-with only applies to single column integer chunking keys")),
     (set_vars (session ["a"; "b"] [[1; 1]; [2; 1]])
               (<["unique_key_min_value_1" := VInt64 1]>
                  (<["unique_key_min_value_0" := VInt64 1]> ∅)),
      [CallExec (SelectKeyInto "a,b" ["unique_key_min_value_0"; "unique_key_min_value_1"]
                               "d" "t" false)])).
Proof.
  intros c.
  apply (end_with_error_follows_the_first_statement mysqlDB c
           (session ["a"; "b"] [[1; 1]; [2; 1]], []) 1).
  - reflexivity.
  - simpl. discriminate.
  - simpl. intros [_ H]. discriminate H.
  - reflexivity.
Defined.

(** On one column, [ORDER BY key LIMIT 1] gives the least key. *)
Lemma first_by_asc_single rows k :
  Forall (λ r, ∃ x, r = [x]) rows →
  first_by lex_compare rows = Some k →
  ∃ e, k = [e] ∧ [e] ∈ rows ∧ ∀ x, [x] ∈ rows → e ≤ x.
Proof.
  intros Hall. revert k. induction Hall as [|r rows [x ->] Hrows IH]; intros k; [done|].
  cbn [first_by]. destruct (first_by lex_compare rows) as [r'|] eqn:E.
  - destruct (IH r' eq_refl) as (e & -> & Hin & Hmin).
    rewrite lex_compare_single.
    destruct (Z.compare_spec x e) as [Heq|Hlt|Hgt]; intros [= <-].
    + exists x. split; [done|]. split; [left|].
      intros y [[= Hy] | Hy]%elem_of_cons; [lia | specialize (Hmin y Hy); lia].
    + exists x. split; [done|]. split; [left|].
      intros y [[= Hy] | Hy]%elem_of_cons; [lia | specialize (Hmin y Hy); lia].
    + exists e. split; [done|]. split; [by right|].
      intros y [[= Hy] | Hy]%elem_of_cons; [lia | by apply Hmin].
  - intros [= <-]. apply first_by_None in E as ->. exists x. split; [done|]. split; [left|].
    intros y [[= Hy] | Hy]%elem_of_cons; [lia | by apply elem_of_nil in Hy].
Qed.

(** X6.  Without [StartWith] and [EndWith], on a single-column key of a
    table with rows, [GetUniqueKeyRange] returns the least and the
    greatest key as the range, leaves them in the session as [min] and
    [max], changes no row and sends no chunk statement. *)
Theorem single_column_range_is_least_to_greatest (c : Config) (σ : mysql) (tr : list call) :
  CountColumnsInUniqueKey c = 1%nat →
  StartWith c = "" →
  EndWith c = "" →
  table_rows σ ≠ [] →
  Forall (λ r, ∃ x, r = [x]) (table_rows σ) →
  ∃ m M σ' calls,
    GetUniqueKeyRange mysqlDB c (σ, tr)
      = (Ok ([VInt64 m], [VInt64 M], true), (σ', (tr ++ calls)%list))
    ∧ [m] ∈ table_rows σ ∧ [M] ∈ table_rows σ
    ∧ (∀ x, [x] ∈ table_rows σ → m ≤ x ≤ M)
    ∧ read_int (user_vars σ') "unique_key_min_value_0" = Some m
    ∧ read_int (user_vars σ') "unique_key_max_value_0" = Some M
    ∧ table_rows σ' = table_rows σ
    ∧ Forall (λ c, is_dml c = false) calls.
Proof.
  intros Hk Hstart Hend Hne Hsingle.
  destruct (first_by lex_compare (table_rows σ)) as [kmin|] eqn:Hmin.
  2:{ by apply first_by_None in Hmin. }
  destruct (first_by desc_compare (table_rows σ)) as [kmax|] eqn:Hmax.
  2:{ by apply first_by_None in Hmax. }
  destruct (first_by_asc_single _ _ Hsingle Hmin) as (m & -> & Hm & Hleast).
  destruct (first_by_desc_single _ _ Hsingle Hmax) as (M & -> & HM & Hgreatest).
  set (σ1 := set_vars σ (<["unique_key_min_value_0" := VInt64 m]> (user_vars σ))).
  set (σ2 := set_vars σ1 (<["unique_key_max_value_0" := VInt64 M]> (user_vars σ1))).
  exists m, M, σ2.
  unfold GetUniqueKeyRange, seed_bound. rewrite Hstart, Hend, Hk.
  rewrite (bool_decide_eq_false_2 ("" ≠ "")) by (by intros H).
  erewrite bind_Ok.
  2:{ erewrite bind_Ok; [reflexivity|].
      unfold dbExec, issue. cbn [Exec mysqlDB mysql_Exec fst snd]. rewrite Hmin.
      reflexivity. }
  erewrite bind_Ok.
  2:{ erewrite bind_Ok; [reflexivity|].
      unfold dbExec, issue. cbn [Exec mysqlDB mysql_Exec fst snd].
      change (table_rows (set_vars σ ?v)) with (table_rows σ). rewrite Hmax.
      reflexivity. }
  erewrite bind_Ok.
  2:{ unfold dbQueryRow, issue. cbn [QueryRow mysqlDB mysql_QueryRow fst snd]. reflexivity. }
  unfold row_get at 1. rewrite lookup_singleton_eq. cbn [default].
  change (table_rows (set_vars ?s ?v)) with (table_rows s).
  change (table_rows (set_vars ?s ?v)) with (table_rows s).
  destruct (table_rows σ) as [|r0 rows0] eqn:Hrows; [done|].
  erewrite bind_Ok by reflexivity. cbn [bool_decide decide_rel].
  rewrite bool_decide_eq_true_2 by lia.
  cbn [seq read_range].
  erewrite bind_Ok.
  2:{ erewrite bind_Ok by apply getSessionVariableValue_mysql.
      erewrite bind_Ok by apply getSessionVariableValue_mysql.
      reflexivity. }
  eexists. unfold ret. cbn [fst snd]. rewrite <- !app_assoc.
  split.
  { cbn. rewrite lookup_insert_eq, lookup_insert_ne, lookup_insert_eq by done. reflexivity. }
  split; [done|]. split; [done|].
  split; [intros x Hx; split; [by apply Hleast | by apply Hgreatest]|].
  split; [cbn; by rewrite read_int_insert_ne, read_int_insert|].
  split; [cbn; by rewrite read_int_insert|].
  split; [done|]. by repeat constructor.
Qed.

Lemma single_column_range_is_least_to_greatest_witness :
  ∃ m M σ' calls,
    GetUniqueKeyRange mysqlDB (engine_config update_t 2 ["id"]) (session ["id"] [[3]; [1]; [2]], [])
      = (Ok ([VInt64 m], [VInt64 M], true), (σ', ([] ++ calls)%list))
    ∧ [m] ∈ [[3]; [1]; [2]] ∧ [M] ∈ [[3]; [1]; [2]]
    ∧ (∀ x, [x] ∈ [[3]; [1]; [2]] → m ≤ x ≤ M)
    ∧ read_int (user_vars σ') "unique_key_min_value_0" = Some m
    ∧ read_int (user_vars σ') "unique_key_max_value_0" = Some M
    ∧ table_rows σ' = [[3]; [1]; [2]]
    ∧ Forall (λ c, is_dml c = false) calls.
Proof.
  apply (single_column_range_is_least_to_greatest (engine_config update_t 2 ["id"])
           (session ["id"] [[3]; [1]; [2]]) []).
  - reflexivity.
  - reflexivity.
  - reflexivity.
  - discriminate.
  - repeat constructor; by eexists.
Defined.

Lemma var_names_NoDup family k : NoDup (var_names family k).
Proof.
  unfold var_names. apply NoDup_fmap_2_strong; [|apply NoDup_seq].
  intros i j _ _ Heq. apply string_app_inv_head in Heq. by apply (inj pretty) in Heq.
Qed.

Lemma read_tuple_assign names : ∀ (vars : gmap string value) key,
  NoDup names → length key = length names →
  read_tuple (assign vars names (VInt64 <$> key)) names = Some key.
Proof.
  unfold read_tuple.
  induction names as [|n names IH]; intros vars key Hnd Hlen.
  - by destruct key.
  - destruct key as [|z key]; [done|]. apply NoDup_cons in Hnd as [Hn Hnd].
    cbn [mapM fmap list_fmap assign].
    rewrite read_int_assign_ne, read_int_insert by done. cbn.
    rewrite IH by (done || (simpl in Hlen; lia)). done.
Qed.

(** X7.  On a key of two columns or more, the row that [ORDER BY
    c1,...,ck DESC LIMIT 1] stores as [max] is a row of the table with
    the least first component: every row with a greater first component
    lies above [max] in the order of the key. *)
Theorem composite_max_is_among_the_least (c : Config) (σ : mysql) (tr : list call) :
  let k := CountColumnsInUniqueKey c in
  let seed := SelectKeyInto (UniqueKeyColumnNames c) (max_value_names k)
                            (Database c) (Table c) true in
  (2 ≤ k)%nat →
  EndWith c = "" →
  table_rows σ ≠ [] →
  Forall (λ r, length r = k) (table_rows σ) →
  ∃ mx M0 σ',
    seed_bound mysqlDB c (EndWith c) "end_with" (max_value_names k) true "--end-with" (σ, tr)
      = (Ok tt, (σ', (tr ++ [CallExec seed])%list))
    ∧ read_tuple (user_vars σ') (max_value_names k) = Some mx
    ∧ mx ∈ table_rows σ
    ∧ head mx = Some M0
    ∧ ∀ r, r ∈ table_rows σ →
        ∃ r0, head r = Some r0 ∧ M0 ≤ r0 ∧ (M0 < r0 → lex_compare r mx = Gt).
Proof.
  intros k seed Hk Hend Hne Hrows.
  destruct (first_by desc_compare (table_rows σ)) as [mx|] eqn:Hmx.
  2:{ by apply first_by_None in Hmx. }
  destruct (desc_first_component _ _ k Hk Hrows Hmx) as (M0 & Hhd & Hmin).
  pose proof (first_by_elem _ _ _ Hmx) as Hin.
  assert (length mx = k) as Hlen by (by eapply Forall_forall in Hrows).
  exists mx, M0, (set_vars σ (assign (user_vars σ) (max_value_names k) (VInt64 <$> mx))).
  split.
  { unfold seed_bound. rewrite Hend.
    rewrite (bool_decide_eq_false_2 ("" ≠ "")) by (by intros H).
    unfold bind, dbExec, issue. cbn [Exec mysqlDB mysql_Exec fst snd]. rewrite Hmx.
    unfold max_value_names. rewrite var_names_length, bool_decide_eq_true_2 by done.
    reflexivity. }
  split.
  { cbn [user_vars set_vars]. apply read_tuple_assign; [apply var_names_NoDup|].
    unfold max_value_names. by rewrite var_names_length. }
  split; [done|]. split; [done|].
  intros r Hr. destruct (Hmin r Hr) as (r0 & Hr0 & Hle). exists r0.
  split; [done|]. split; [done|]. intros Hlt.
  destruct r as [|x a]; [done|]. destruct mx as [|y b]; [done|].
  injection Hr0 as ->. injection Hhd as ->. cbn [lex_compare].
  by destruct (Z.compare_spec r0 M0); try lia.
Qed.

Lemma composite_max_is_among_the_least_witness :
  let c := engine_config update_t 1 ["a"; "b"] in
  let σ := session ["a"; "b"] [[1; 1]; [1; 2]; [2; 1]] in
  ∃ mx M0 σ',
    seed_bound mysqlDB c "" "end_with" ["unique_key_max_value_0"; "unique_key_max_value_1"]
               true "--end-with" (σ, [])
      = (Ok tt, (σ', [CallExec (SelectKeyInto "a,b" ["unique_key_max_value_0";
                                                     "unique_key_max_value_1"] "d" "t" true)]))
    ∧ read_tuple (user_vars σ') ["unique_key_max_value_0"; "unique_key_max_value_1"] = Some mx
    ∧ mx ∈ table_rows σ
    ∧ head mx = Some M0
    ∧ ∀ r, r ∈ table_rows σ →
        ∃ r0, head r = Some r0 ∧ M0 ≤ r0 ∧ (M0 < r0 → lex_compare r mx = Gt).
Proof.
  intros c σ.
  apply (composite_max_is_among_the_least c σ []).
  - simpl. lia.
  - reflexivity.
  - discriminate.
  - repeat constructor.
Defined.

(** X8.  On a table without rows and without [StartWith] and [EndWith],
    the driver locks the table unless told not to, sends the two seeding
    statements and the range check, reports ["No range to process"] and
    unlocks: the session is as before and no chunk statement is sent. *)
Theorem empty_table_has_no_range (fuel : nat) (f : Flags) (c : Config) (d t : string)
    (σ : mysql) (tr : list call) :
  let k := CountColumnsInUniqueKey c in
  table_rows σ = [] →
  StartWith c = "" →
  EndWith c = "" →
  lock_and_chunk mysqlDB fuel f c d t (σ, tr) =
    (Ok "No range to process",
     (σ, (tr ++ (if skipLock f then [] else [CallLockTableRead d t])
             ++ [CallExec (SelectKeyInto (UniqueKeyColumnNames c) (min_value_names k)
                                         (Database c) (Table c) false);
                 CallExec (SelectKeyInto (UniqueKeyColumnNames c) (max_value_names k)
                                         (Database c) (Table c) true);
                 CallQueryRow (RangeExists (Database c) (Table c))]
             ++ (if skipLock f then [] else [CallUnlockTables]))%list)).
Proof.
  intros k Hrows Hstart Hend.
  assert (∀ tr0, GetUniqueKeyRange mysqlDB c (σ, tr0) =
            (Ok ([], [], false),
             (σ, (tr0 ++ [CallExec (SelectKeyInto (UniqueKeyColumnNames c) (min_value_names k)
                                                  (Database c) (Table c) false);
                          CallExec (SelectKeyInto (UniqueKeyColumnNames c) (max_value_names k)
                                                  (Database c) (Table c) true);
                          CallQueryRow (RangeExists (Database c) (Table c))])%list)))
    as Hrange.
  { intros tr0.
    assert (∀ cols dst desc tr1,
              dbExec mysqlDB (SelectKeyInto cols dst (Database c) (Table c) desc) (σ, tr1)
              = (Ok 0, (σ, (tr1 ++ [CallExec (SelectKeyInto cols dst (Database c) (Table c)
                                                            desc)])%list))) as Hseed.
    { intros cols dst desc tr1. unfold dbExec, issue. cbn [Exec mysqlDB mysql_Exec fst snd].
      rewrite Hrows. by destruct desc. }
    unfold GetUniqueKeyRange, seed_bound. rewrite Hstart, Hend.
    rewrite (bool_decide_eq_false_2 ("" ≠ "")) by (by intros H).
    erewrite bind_Ok by (erewrite bind_Ok by apply Hseed; reflexivity).
    erewrite bind_Ok by (erewrite bind_Ok by apply Hseed; reflexivity).
    erewrite bind_Ok.
    2:{ unfold dbQueryRow, issue. cbn [QueryRow mysqlDB mysql_QueryRow fst snd].
        rewrite Hrows. reflexivity. }
    unfold row_get. rewrite lookup_singleton_eq. cbn [default].
    unfold bind, lift, ret. cbn. by rewrite <- !app_assoc. }
  unfold lock_and_chunk. destruct (skipLock f); cbn [negb].
  - unfold bind, or_fatal. rewrite Hrange. reflexivity.
  - unfold bind, or_fatal, with_defer, dbLockTableRead, dbUnlockTables, issue.
    cbn [LockTableRead UnlockTables mysqlDB fst snd]. rewrite Hrange. cbn.
    by rewrite <- !app_assoc.
Qed.

Lemma empty_table_has_no_range_witness :
  lock_and_chunk mysqlDB 10 (flags_of update_t 1000 "d") (engine_config update_t 1000 ["id"])
                 "d" "t" (session ["id"] [], [])
    = (Ok "No range to process",
       (session ["id"] [],
        [ CallLockTableRead "d" "t";
          CallExec (SelectKeyInto "id" ["unique_key_min_value_0"] "d" "t" false);
          CallExec (SelectKeyInto "id" ["unique_key_max_value_0"] "d" "t" true);
          CallQueryRow (RangeExists "d" "t");
          CallUnlockTables ])).
Proof.
  apply (empty_table_has_no_range 10 (flags_of update_t 1000 "d")
           (engine_config update_t 1000 ["id"]) "d" "t" (session ["id"] []) []);
    reflexivity.
Defined.

(** ** What a computation adds to the trace *)

Lemma extends_ret {S A : Type} P (a : A) : extends (S := S) P (ret a).
Proof. intros w. exists []. by rewrite app_nil_r. Qed.

Lemma extends_lift {S A : Type} P (o : outcome A) : extends (S := S) P (lift o).
Proof. intros w. exists []. by rewrite app_nil_r. Qed.

Lemma extends_fail {S A : Type} P (x : abort) : extends (S := S) (A := A) P (fail x).
Proof. intros w. exists []. by rewrite app_nil_r. Qed.

Lemma extends_issue {S A : Type} (P : call → Prop) c (op : S → outcome A * S) :
  P c → extends P (issue c op).
Proof.
  intros HP w. exists [c]. unfold issue. destruct (op w.1) as [r s']. split; [done|].
  by repeat constructor.
Qed.

Lemma extends_bind {S A B : Type} P (m : M S A) (k : A → M S B) :
  extends P m → (∀ a, extends P (k a)) → extends P (bind m k).
Proof.
  intros Hm Hk w. destruct (Hm w) as (calls1 & Htr1 & HP1). unfold bind.
  destruct (m w) as [[a|x] w1]; cbn [fst snd] in *.
  - destruct (Hk a w1) as (calls2 & Htr2 & HP2).
    exists (calls1 ++ calls2)%list. rewrite Htr2, Htr1, app_assoc. split; [done|].
    by apply Forall_app.
  - by exists calls1.
Qed.

Lemma extends_or_fatal {S A : Type} P prefix (m : M S A) :
  extends P m → extends P (or_fatal prefix m).
Proof.
  intros Hm w. destruct (Hm w) as (calls & Htr & HP). exists calls. split; [|done].
  unfold or_fatal. by destruct (m w) as [[a|[[]| | |]] w1].
Qed.

Lemma extends_weaken {S A : Type} (P Q : call → Prop) (m : M S A) :
  (∀ c, P c → Q c) → extends P m → extends Q m.
Proof.
  intros HPQ Hm w. destruct (Hm w) as (calls & Htr & HP). exists calls. split; [done|].
  by apply (Forall_impl _ _ _ HP).
Qed.

Section Traces.

Context {St : Type} (db : DBInterface St).

Lemma extends_dbExec q : is_dml (CallExec q) = false → extends plain (dbExec db q).
Proof. intros Hq. by apply extends_issue. Qed.

Lemma extends_dbQueryRow q : extends plain (dbQueryRow db q).
Proof. by apply extends_issue. Qed.

Lemma extends_getSessionVariableValue name : extends plain (getSessionVariableValue db name).
Proof. apply extends_bind; [apply extends_dbQueryRow | intros; apply extends_ret]. Qed.

Lemma extends_seed_bound c with_ column vars desc flag :
  extends plain (seed_bound db c with_ column vars desc flag).
Proof.
  unfold seed_bound.
  destruct (bool_decide (with_ ≠ "")).
  - destruct (_ && _); [|apply extends_fail].
    destruct (strconv.Atoi with_).
    + apply extends_bind; [by apply extends_dbExec | intros; apply extends_ret].
    + apply extends_bind; [apply extends_dbQueryRow|]. intros row.
      apply extends_bind; [apply extends_lift|]. intros n.
      apply extends_bind; [by apply extends_dbExec | intros; apply extends_ret].
  - apply extends_bind; [by apply extends_dbExec | intros; apply extends_ret].
Qed.

Lemma extends_read_range indices : extends plain (read_range db indices).
Proof.
  induction indices as [|i indices IH]; [apply extends_ret|].
  cbn [read_range].
  apply extends_bind; [apply extends_getSessionVariableValue|]. intros minVal.
  apply extends_bind; [apply extends_getSessionVariableValue|]. intros maxVal.
  apply extends_bind; [apply IH | intros; apply extends_ret].
Qed.

Lemma extends_GetUniqueKeyRange c : extends plain (GetUniqueKeyRange db c).
Proof.
  unfold GetUniqueKeyRange.
  apply extends_bind; [apply extends_seed_bound|]. intros _.
  apply extends_bind; [apply extends_seed_bound|]. intros _.
  apply extends_bind; [apply extends_dbQueryRow|]. intros row.
  apply extends_bind.
  - destruct (row_get row "range_exists"); try apply extends_ret.
    all: apply extends_bind; [apply extends_lift | intros; apply extends_ret].
  - intros [|]; [|apply extends_ret].
    apply extends_bind; [apply extends_read_range | intros; apply extends_ret].
Qed.

Lemma extends_set_range_end c firstRound : extends plain (set_range_end db c firstRound).
Proof.
  intros w. unfold set_range_end.
  match goal with |- context [dbQueryRow db ?q w] =>
    destruct (extends_dbQueryRow q w) as (calls1 & Htr1 & HP1);
    destruct (dbQueryRow db q w) as [[row|x] w1] end; cbn [fst snd] in *.
  - match goal with |- context [bind ?m ?k w1] =>
      assert (extends plain (bind m k)) as Hrest end.
    { apply extends_bind; [|intros; apply extends_ret].
      destruct (bool_decide _); [by apply extends_dbExec|].
      apply extends_bind; [apply extends_lift | intros; by apply extends_dbExec]. }
    destruct (Hrest w1) as (calls2 & Htr2 & HP2).
    exists (calls1 ++ calls2)%list. rewrite Htr2, Htr1, app_assoc. split; [done|].
    by apply Forall_app.
  - destruct x as [[|msg]| | |]; try by exists calls1.
    match goal with |- context [bind ?m ?k w1] =>
      assert (extends plain (bind m k)) as Hrest end.
    { apply extends_bind; [|intros; apply extends_ret].
      destruct (bool_decide _); by apply extends_dbExec. }
    destruct (Hrest w1) as (calls2 & Htr2 & HP2).
    exists (calls1 ++ calls2)%list. rewrite Htr2, Htr1, app_assoc. split; [done|].
    by apply Forall_app.
Qed.

Lemma extends_check_overflow firstRound : extends plain (check_overflow db firstRound).
Proof.
  unfold check_overflow. destruct (negb firstRound); [|apply extends_ret].
  apply extends_bind; [apply extends_dbQueryRow|]. intros row.
  apply extends_bind; [apply extends_lift | intros; apply extends_ret].
Qed.

Lemma extends_preamble c : extends plain (ChunkUpdate_preamble db c).
Proof.
  unfold ChunkUpdate_preamble.
  apply extends_bind.
  { destruct (NoLogBin c); [by apply extends_dbExec | apply extends_ret]. }
  intros _.
  apply extends_bind; [apply extends_getSessionVariableValue|]. intros minVal.
  apply extends_bind; [apply extends_getSessionVariableValue|]. intros maxVal.
  apply extends_bind; [|intros; apply extends_ret].
  destruct (bool_decide _); by apply extends_dbExec.
Qed.


Lemma dml_calls_plain calls : Forall plain calls → dml_calls calls = [].
Proof.
  intros H. unfold dml_calls. apply filter_nil_of_not.
  intros c Hc. apply (proj1 (Forall_forall _ _) H) in Hc as [_ Hc]. congruence.
Qed.

Lemma statements_plain calls : Forall plain calls → Forall (λ c, is_statement c = true) calls.
Proof. intros H. apply (Forall_impl _ _ _ H). by intros c [? _]. Qed.

Lemma dml_calls_app a b : dml_calls (a ++ b) = (dml_calls a ++ dml_calls b)%list.
Proof. apply filter_app. Qed.

(** The round up to the overflow check. *)
Lemma chunk_round_split c q firstRound w :
  chunk_round db c q firstRound w =
    bind (let* _ := set_range_end db c firstRound in
          let* startVal := getSessionVariableValue db "unique_key_range_start_0" in
          let* endVal := getSessionVariableValue db "unique_key_range_end_0" in
          check_overflow db firstRound)
         (λ overflow : bool,
            if overflow then ret true
            else
              let* affected := dbExec db (if firstRound then firstQuery c q else restQuery c q) in
              let* _ := dbExec db (SelectInto [EVar "unique_key_range_end_0"]
                                              ["unique_key_range_start_0"]) in
              ret false) w.
Proof.
  unfold chunk_round, bind.
  destruct (set_range_end db c firstRound w) as [[[]|x] w1]; [|done].
  destruct (getSessionVariableValue db "unique_key_range_start_0" w1) as [[v1|x] w2]; [|done].
  by destruct (getSessionVariableValue db "unique_key_range_end_0" w2) as [[v2|x] w3].
Qed.

Lemma chunk_round_calls (c : Config) (q : string) (firstRound : bool) w :
  let query := CallExec (if firstRound then firstQuery c q else restQuery c q) in
  ∃ calls,
    (chunk_round db c q firstRound w).2.2 = (w.2 ++ calls)%list
    ∧ Forall (λ c, is_statement c = true) calls
    ∧ match (chunk_round db c q firstRound w).1 with
      | Ok true => dml_calls calls = []
      | Ok false => dml_calls calls = [query]
      | Abort _ => dml_calls calls = [] ∨ dml_calls calls = [query]
      end.
Proof.
  intros query. rewrite chunk_round_split.
  match goal with |- context [bind ?m ?k w] => set (prefix := m); set (rest := k) end.
  assert (extends plain prefix) as Hprefix.
  { apply extends_bind; [apply extends_set_range_end|]. intros _.
    apply extends_bind; [apply extends_getSessionVariableValue|]. intros _.
    apply extends_bind; [apply extends_getSessionVariableValue|]. intros _.
    apply extends_check_overflow. }
  destruct (Hprefix w) as (calls0 & Htr0 & HP0). unfold bind.
  destruct (prefix w) as [[[|]|x] w1]; subst rest; cbn beta iota; cbn [fst snd] in *.
  - exists calls0. split; [done|]. split; [by apply statements_plain | by apply dml_calls_plain].
  - unfold bind, dbExec, issue.
    destruct (Exec db (if firstRound then firstQuery c q else restQuery c q) w1.1) as [[n|x] s2];
      cbn [fst snd].
    + destruct (Exec db _ s2) as [[n'|x] s3]; cbn [fst snd]; rewrite Htr0.
      all: exists (calls0 ++ [query; CallExec (SelectInto [EVar "unique_key_range_end_0"]
                                                         ["unique_key_range_start_0"])])%list.
      all: rewrite <- !app_assoc; split; [done|].
      all: split; [apply Forall_app; split; [by apply statements_plain | by repeat constructor]|].
      all: rewrite dml_calls_app, (dml_calls_plain calls0) by done.
      all: unfold query; destruct firstRound; (done || by right).
    + rewrite Htr0. exists (calls0 ++ [query])%list.
      rewrite <- app_assoc. split; [done|].
      split; [apply Forall_app; split; [by apply statements_plain | by repeat constructor]|].
      rewrite dml_calls_app, (dml_calls_plain calls0) by done.
      unfold query; destruct firstRound; by right.
  - exists calls0. split; [done|]. split; [by apply statements_plain|].
    left. by apply dml_calls_plain.
Qed.

Lemma chunk_loop_calls c q fuel :
  ∀ w, ∃ calls n,
    (chunk_loop db c q fuel false w).2.2 = (w.2 ++ calls)%list
    ∧ Forall (λ c, is_statement c = true) calls
    ∧ dml_calls calls = replicate n (CallExec (restQuery c q)).
Proof.
  induction fuel as [|fuel IH]; intros w.
  - exists [], 0%nat. by rewrite app_nil_r.
  - rewrite chunk_loop_S.
    destruct (chunk_round_calls c q false w) as (calls1 & Htr1 & Hst1 & Hdml1).
    destruct (chunk_round db c q false w) as [[[|]|x] w1]; cbn [fst snd] in *.
    + by exists calls1, 0%nat.
    + destruct (IH w1) as (calls2 & n & Htr2 & Hst2 & Hdml2).
      exists (calls1 ++ calls2)%list, (S n). rewrite Htr2, Htr1, app_assoc. split; [done|].
      split; [by apply Forall_app|]. by rewrite dml_calls_app, Hdml1, Hdml2.
    + destruct Hdml1 as [Hdml1|Hdml1]; [by exists calls1, 0%nat | by exists calls1, 1%nat].
Qed.

End Traces.

(** The calls of [ChunkUpdate]: the preamble, the first round and the
    later rounds, put together. *)
Lemma ChunkUpdate_calls {St : Type} (db : DBInterface St) (fuel : nat) (c : Config)
    (q : string) (w : St * list call) :
  ∃ calls,
    (ChunkUpdate db fuel c q w).2.2 = (w.2 ++ calls)%list
    ∧ Forall (λ c, is_statement c = true) calls
    ∧ (dml_calls calls = []
       ∨ ∃ n, dml_calls calls
              = CallExec (firstQuery c q) :: replicate n (CallExec (restQuery c q))).
Proof.
  rewrite ChunkUpdate_loop.
  destruct (extends_preamble db c w) as (calls0 & Htr0 & HP0).
  destruct (ChunkUpdate_preamble db c w) as [[[]|x] w0]; cbn [fst snd] in *.
  2:{ exists calls0. split; [done|]. split; [by apply statements_plain|].
      left. by apply dml_calls_plain. }
  destruct fuel as [|fuel].
  { exists calls0. split; [done|]. split; [by apply statements_plain|].
    left. by apply dml_calls_plain. }
  rewrite chunk_loop_S.
  destruct (chunk_round_calls db c q true w0) as (calls1 & Htr1 & Hst1 & Hdml1).
  destruct (chunk_round db c q true w0) as [[[|]|x] w1]; cbn [fst snd] in *.
  - exists (calls0 ++ calls1)%list. rewrite Htr1, Htr0, app_assoc. split; [done|].
    split; [apply Forall_app; split; [by apply statements_plain | done]|].
    left. by rewrite dml_calls_app, dml_calls_plain, Hdml1.
  - destruct (chunk_loop_calls db c q fuel w1) as (calls2 & n & Htr2 & Hst2 & Hdml2).
    exists (calls0 ++ calls1 ++ calls2)%list. rewrite Htr2, Htr1, Htr0, !app_assoc.
    split; [done|].
    split; [repeat (apply Forall_app; split); first [done | by apply statements_plain]|].
    right. exists n. by rewrite !dml_calls_app, dml_calls_plain, Hdml1, Hdml2.
  - exists (calls0 ++ calls1)%list. rewrite Htr1, Htr0, app_assoc. split; [done|].
    split; [apply Forall_app; split; [by apply statements_plain | done]|].
    rewrite dml_calls_app, dml_calls_plain by done.
    destruct Hdml1 as [->| ->]; [by left | right; by exists 0%nat].
Qed.

(** X9.  Whatever the database answers, [ChunkUpdate] adds to the trace
    only calls that send a statement, and the user's statement goes out
    in its two rewritten forms only: the first-round form at most once
    and before every later-round form. *)
Theorem chunk_statements_in_order {St : Type} (db : DBInterface St) (fuel : nat) (c : Config)
    (q : string) (w : St * list call) :
  ∃ calls,
    (ChunkUpdate db fuel c q w).2.2 = (w.2 ++ calls)%list
    ∧ Forall (λ c, is_statement c = true) calls
    ∧ (dml_calls calls = []
       ∨ ∃ n, dml_calls calls
              = CallExec (firstQuery c q) :: replicate n (CallExec (restQuery c q))).
Proof. apply ChunkUpdate_calls. Qed.

(** X10.  A statement that does not hold the sentinel the engine looks
    for, [GO_CHUNK(Table)] with the bare table name, is sent as it is in
    the first round and in the later ones. *)
Theorem statement_without_the_sentinel_is_sent_as_it_is (c : Config) (q : string) :
  strings.Contains q (sentinel c) = false →
  render (firstQuery c q) = q ∧ render (restQuery c q) = q.
Proof.
  intros Hq. unfold firstQuery, restQuery. cbn [render]. unfold strings.Replace.
  by rewrite !Replace_scan_without.
Qed.

Lemma statement_without_the_sentinel_is_sent_as_it_is_witness :
  render (firstQuery (engine_config "" 10 ["id"]) "DELETE FROM d.t WHERE GO_CHUNK(d.t)")
    = "DELETE FROM d.t WHERE GO_CHUNK(d.t)"
  ∧ render (restQuery (engine_config "" 10 ["id"]) "DELETE FROM d.t WHERE GO_CHUNK(d.t)")
    = "DELETE FROM d.t WHERE GO_CHUNK(d.t)".
Proof.
  apply (statement_without_the_sentinel_is_sent_as_it_is (engine_config "" 10 ["id"])).
  reflexivity.
Defined.

(** ** The chunks of a single-column key *)

Lemma window_ends_app a b : window_ends (a ++ b) = (window_ends a ++ window_ends b)%list.
Proof. apply omap_app. Qed.

(** "Set range end" on a single column, with the statement that
    installs the end. *)
Lemma set_range_end_single_end c firstRound σ tr m M s :
  CountColumnsInUniqueKey c = 1%nat →
  key_columns σ = [UniqueKeyColumnNames c] →
  0 < probe_limit c firstRound →
  holds_bounds σ m M s →
  ∃ e x,
    set_range_end mysqlDB c firstRound (σ, tr)
      = (Ok tt,
         (set_vars σ (<["unique_key_range_end_0" := VInt64 e]> (user_vars σ)),
          (tr ++ [CallQueryRow (Probe (UniqueKeyColumnNames c) (Database c) (Table c)
                                      (probe_pred c) (probe_limit c firstRound));
                  CallExec (SelectInto [x] ["unique_key_range_end_0"])])%list))
    ∧ ((x = EInt e ∧ probed (table_rows σ) (Z.to_nat (probe_limit c firstRound)) s M e)
       ∨ (x = EVar "unique_key_max_value_0" ∧ e = M
          ∧ rows_above (table_rows σ) [s] [M] = [])).
Proof.
  intros Hk Hcols HL Hb.
  unfold set_range_end. fold (probe_limit c firstRound).
  unfold dbQueryRow at 1. unfold issue at 1. cbn [QueryRow mysqlDB mysql_QueryRow fst snd].
  rewrite bool_decide_eq_false_2 by lia.
  rewrite (probe_candidates σ c m M s) by done.
  set (inner := take (Z.to_nat (probe_limit c firstRound))
                     (merge_sort lex_le (rows_above (table_rows σ) [s] [M]))).
  rewrite !bool_decide_eq_true_2 by done.
  destruct (first_by desc_compare inner) as [k|] eqn:Hfirst.
  - assert (Forall (λ r, ∃ x, r = [x]) inner) as Hsingle.
    { apply Forall_forall. intros r Hr. apply (subseteq_take _ _) in Hr.
      rewrite merge_sort_Permutation in Hr. apply list_elem_of_filter in Hr as [Hr _].
      apply in_window_above in Hr as (x & -> & _). by exists x. }
    destruct (first_by_desc_single inner k Hsingle Hfirst) as (e & -> & Hin & Hmax).
    exists e, (EInt e).
    assert (row_get (key_row (key_columns σ) [e]) (UniqueKeyColumnNames c) = VInt64 e) as Hrow.
    { rewrite Hcols. unfold key_row, row_get. cbn [fmap list_fmap zip zip_with list_to_map foldr].
      cbn. by rewrite lookup_insert_eq. }
    rewrite Hrow. cbn [end_literal].
    erewrite bind_Ok by (by apply assign_into).
    split; [by rewrite <- app_assoc|].
    left. by split.
  - apply first_by_None in Hfirst.
    apply probe_finds_nothing in Hfirst; [|lia].
    destruct Hb as (Hm & HM & Hs). pose proof HM as HM'. apply read_int_Some in HM'.
    exists M, (EVar "unique_key_max_value_0").
    erewrite bind_Ok.
    2:{ apply assign_into. cbn [eval_expr]. by rewrite HM'. }
    split; [by rewrite <- app_assoc|]. by right.
Qed.

Lemma selects_chunk_single σ (p : range_pred) cols lo_op lo hi l e key :
  p = Single cols lo_op lo OpLt hi →
  read_int (user_vars σ) lo = Some l →
  read_int (user_vars σ) hi = Some e →
  selects (user_vars σ) p key = in_window lo_op [l] OpLt [e] key.
Proof.
  intros -> Hl He. unfold selects, read_tuple. cbn [mapM]. by rewrite Hl, He.
Qed.

(** One round on a single-column key, with the chunk it executes and the
    end it installs. *)
Lemma chunk_round_single_chunk c q firstRound σ tr m M s :
  CountColumnsInUniqueKey c = 1%nat →
  key_columns σ = [UniqueKeyColumnNames c] →
  0 < probe_limit c firstRound →
  strings.Contains q (sentinel c) = true →
  holds_bounds σ m M s →
  let stop := negb firstRound && bool_decide (M ≤ s) in
  let L := Z.to_nat (probe_limit c firstRound) in
  ∃ e σ' calls,
    chunk_round mysqlDB c q firstRound (σ, tr) = (Ok stop, (σ', (tr ++ calls)%list))
    ∧ probes calls = 1%nat
    ∧ statements calls = (if stop then 0 else 1)%nat
    ∧ table_rows σ' = table_rows σ
    ∧ key_columns σ' = key_columns σ
    ∧ holds_bounds σ' m M (if stop then s else e)
    ∧ targeted σ'
      = (if stop then targeted σ
         else targeted σ ++ [if firstRound then chunk_of (table_rows σ) OpGe m e
                             else chunk_of (table_rows σ) OpGt s e])%list
    ∧ ((window_ends calls = [e] ∧ probed (table_rows σ) L s M e)
       ∨ (window_ends calls = [] ∧ e = M ∧ rows_above (table_rows σ) [s] [M] = [])).
Proof.
  intros Hk Hcols Hsize Hq Hb stop L.
  destruct (set_range_end_single_end c firstRound σ tr m M s Hk Hcols Hsize Hb)
    as (e & x & Hend & Hx).
  destruct Hb as (Hm & HM & Hs).
  set (σ1 := set_vars σ (<["unique_key_range_end_0" := VInt64 e]> (user_vars σ))) in *.
  assert (read_int (user_vars σ1) "unique_key_min_value_0" = Some m) as Hm1
    by (cbn; by rewrite read_int_insert_ne).
  assert (read_int (user_vars σ1) "unique_key_max_value_0" = Some M) as HM1
    by (cbn; by rewrite read_int_insert_ne).
  assert (read_int (user_vars σ1) "unique_key_range_start_0" = Some s) as Hs1
    by (cbn; by rewrite read_int_insert_ne).
  assert (read_int (user_vars σ1) "unique_key_range_end_0" = Some e) as He1
    by (cbn; by rewrite read_int_insert).
  assert (∃ ends0,
            window_ends [CallExec (SelectInto [x] ["unique_key_range_end_0"])] = ends0
            ∧ ((ends0 = [e] ∧ probed (table_rows σ) L s M e)
               ∨ (ends0 = [] ∧ e = M ∧ rows_above (table_rows σ) [s] [M] = [])))
    as (ends0 & Hwe & Hends).
  { destruct Hx as [[-> ?] | (-> & ? & ?)]; eexists; (split; [reflexivity|]);
      [by left | by right]. }
  unfold chunk_round.
  erewrite bind_Ok by exact Hend.
  erewrite bind_Ok by apply getSessionVariableValue_mysql.
  erewrite bind_Ok by apply getSessionVariableValue_mysql.
  assert (∃ calls0,
            check_overflow mysqlDB firstRound
              (σ1, (((tr ++ [CallQueryRow (Probe (UniqueKeyColumnNames c) (Database c) (Table c)
                                                 (probe_pred c) (probe_limit c firstRound));
                             CallExec (SelectInto [x] ["unique_key_range_end_0"])])
                     ++ [CallQueryRow (SelectVar "unique_key_range_start_0")])
                     ++ [CallQueryRow (SelectVar "unique_key_range_end_0")])%list)
            = (Ok stop, (σ1, (tr ++ calls0)%list))
            ∧ window_ends calls0 = ends0
            ∧ probes calls0 = 1%nat ∧ statements calls0 = 0%nat)
    as (calls0 & Hover & Hw0 & Hp0 & Hs0).
  { destruct firstRound.
    - eexists. split; [unfold check_overflow, ret; cbn [negb]; by rewrite <- !app_assoc|].
      split; [rewrite <- Hwe; reflexivity|]. by split.
    - eexists. split; [|split; [|split]].
      + rewrite (check_overflow_later _ _ M s) by done. by rewrite <- !app_assoc.
      + rewrite <- Hwe. unfold window_ends. cbn [omap list_omap app window_end].
        by destruct x as [| |].
      + done.
      + done. }
  rewrite <- Hw0 in Hends.
  erewrite bind_Ok by exact Hover.
  destruct stop eqn:Hstop.
  - exists e, σ1, calls0. unfold ret. by repeat split.
  - replace (if firstRound then firstQuery c q else restQuery c q)
      with (Dml q (sentinel c) (if firstRound then first_pred c else rest_pred c))
      by (by destruct firstRound).
    erewrite bind_Ok by (by apply dml_targets).
    erewrite bind_Ok.
    2:{ apply assign_into. cbn. by rewrite lookup_insert_eq. }
    eexists e, _, _. unfold ret. rewrite <- !app_assoc.
    split; [reflexivity|].
    split; [by rewrite !probes_app, Hp0|].
    split; [by rewrite !statements_app, Hs0|].
    split; [done|]. split; [done|].
    split.
    { unfold holds_bounds. cbn. rewrite read_int_insert.
      rewrite !(read_int_insert_ne _ _ "unique_key_range_start_0") by done.
      by rewrite !(read_int_insert_ne _ _ "unique_key_range_end_0") by done. }
    split.
    { cbn [targeted set_vars add_targeted]. f_equal. f_equal.
      change (table_rows σ1) with (table_rows σ).
      destruct firstRound; unfold chunk_of; apply list_filter_iff; intros key.
      - unfold first_pred. rewrite bool_decide_eq_true_2 by done.
        by erewrite selects_chunk_single.
      - unfold rest_pred. rewrite bool_decide_eq_true_2 by done.
        by erewrite selects_chunk_single. }
    rewrite !window_ends_app. unfold window_ends at 2 3 5 6. cbn [omap list_omap window_end].
    rewrite !app_nil_r. done.
Qed.

Lemma in_window_between lo_op lo e key :
  in_window lo_op [lo] OpLt [e] key = true
  ↔ ∃ x, key = [x] ∧ (match lo_op with OpGt => lo < x | OpGe => lo ≤ x end) ∧ x < e.
Proof.
  unfold in_window. rewrite !andb_true_iff, !bool_decide_eq_true. split.
  - intros [[[Hlen _] Hlo] Hhi].
    destruct key as [|x [|? ?]]; try done. exists x. split; [done|].
    unfold holds_lower, holds_upper in *. rewrite lex_compare_single in *.
    destruct lo_op; destruct (Z.compare_spec x lo); try done;
      destruct (Z.compare_spec x e); try done; lia.
  - intros (x & -> & Hs & HM). unfold holds_lower, holds_upper. rewrite !lex_compare_single.
    destruct lo_op; destruct (Z.compare_spec x lo); try lia;
      destruct (Z.compare_spec x e); try lia; done.
Qed.

Lemma elem_of_chunk_of rows lo_op lo e key :
  key ∈ chunk_of rows lo_op lo e
  ↔ key ∈ rows
    ∧ ∃ x, key = [x] ∧ (match lo_op with OpGt => lo < x | OpGe => lo ≤ x end) ∧ x < e.
Proof. unfold chunk_of. rewrite list_elem_of_filter, in_window_between. tauto. Qed.

Lemma elem_of_rows_above rows s M x :
  [x] ∈ rows_above rows [s] [M] ↔ [x] ∈ rows ∧ s < x ≤ M.
Proof.
  unfold rows_above. rewrite list_elem_of_filter, in_window_above. split.
  - intros [(y & [= <-] & ?) ?]. done.
  - intros [? ?]. split; [|done]. by exists x.
Qed.

Lemma probed_range rows L s M e : probed rows L s M e → [e] ∈ rows ∧ s < e ≤ M.
Proof.
  intros [Hin _]. apply (subseteq_take L) in Hin.
  rewrite merge_sort_Permutation in Hin. by apply elem_of_rows_above in Hin.
Qed.

(** The first round. *)
Lemma covered_first rows (L : nat) m M e ends :
  (ends = [e] ∧ probed rows L m M e) ∨ (ends = [] ∧ e = M ∧ rows_above rows [m] [M] = []) →
  covered rows m M e [chunk_of rows OpGe m e] ends.
Proof.
  intros Hround.
  assert (e ≤ M ∧ (∀ x, x ∈ ends → x = e ∧ m < e) ∧ (e ∈ ends ∨ M ≤ e)) as (HeM & Hends & Hat).
  { destruct Hround as [[-> Hp] | (-> & -> & _)].
    - apply probed_range in Hp as [_ ?]. split; [lia|]. split; [|left; left].
      intros x ->%list_elem_of_singleton. split; [done|lia].
    - split; [lia|]. split; [|by right]. by intros x ?%elem_of_nil. }
  split; [|split; [|split; [|split]]].
  - intros chunk key ->%list_elem_of_singleton [Hrow (x & -> & Hlo & Hhi)]%elem_of_chunk_of.
    exists x. repeat (split; [first [done | lia]|]).
    intros Hx. apply Hends in Hx. lia.
  - intros x Hx. apply Hends in Hx. lia.
  - intros x Hrow Hlo Hhi. left. exists (chunk_of rows OpGe m e). split; [left|].
    apply elem_of_chunk_of. split; [done|]. by exists x.
  - intros i j ci cj key Hi Hj _ _.
    apply lookup_lt_Some in Hi, Hj. simpl in *. lia.
  - done.
Qed.

(** A later round that does not break. *)
Lemma covered_later rows (L : nat) m M s e chunks ends ends' :
  covered rows m M s chunks ends →
  s < M →
  (ends' = [e] ∧ probed rows L s M e) ∨ (ends' = [] ∧ e = M ∧ rows_above rows [s] [M] = []) →
  covered rows m M e (chunks ++ [chunk_of rows OpGt s e]) (ends ++ ends').
Proof.
  intros (Ha & Hb & Hc & Hd & He) HsM Hround.
  assert (s ∈ ends) as Hs by (destruct He; [done | lia]).
  assert (m < s) as Hms by (by apply Hb in Hs as [? _]).
  assert (s < e ≤ M ∧ (∀ x, x ∈ ends' → x = e) ∧ (e ∈ ends' ∨ M ≤ e)
          ∧ (∀ x, [x] ∈ rows → s < x → x < M → x < e ∨ e ∈ ends'))
    as (HeM & Hends & Hat & Hgap).
  { destruct Hround as [[-> Hp] | (-> & -> & Hnone)].
    - apply probed_range in Hp as [_ ?]. split; [lia|].
      split; [by intros x ->%list_elem_of_singleton|]. split; [left; left|].
      intros x _ _ _. right. left.
    - split; [lia|]. split; [by intros x ?%elem_of_nil|]. split; [by right|].
      intros x Hrow Hlo Hhi. by left. }
  split; [|split; [|split; [|split]]].
  - intros chunk key [Hchunk | ->%list_elem_of_singleton]%elem_of_app Hkey.
    + destruct (Ha chunk key Hchunk Hkey) as (x & -> & Hrow & ? & ? & ? & Hnot).
      exists x. repeat (split; [first [done | lia]|]).
      intros [Hx | Hx]%elem_of_app; [done|]. apply Hends in Hx. lia.
    + apply elem_of_chunk_of in Hkey as [Hrow (x & -> & Hlo & Hhi)].
      exists x. repeat (split; [first [done | lia]|]).
      intros [Hx | Hx]%elem_of_app; [apply Hb in Hx; lia | apply Hends in Hx; lia].
  - intros x [Hx | Hx]%elem_of_app; [apply Hb in Hx; lia | apply Hends in Hx; lia].
  - intros x Hrow Hlo Hhi.
    destruct (decide (x < s)) as [Hlt|Hge].
    + destruct (Hc x Hrow Hlo Hlt) as [(chunk & Hchunk & Hkey) | Hend].
      * left. exists chunk. split; [apply elem_of_app; by left | done].
      * right. apply elem_of_app. by left.
    + destruct (decide (x = s)) as [->|Hne].
      * right. apply elem_of_app. by left.
      * left. exists (chunk_of rows OpGt s e). split; [apply elem_of_app; right; left|].
        apply elem_of_chunk_of. split; [done|]. exists x. split; [done|]. lia.
  - intros i j ci cj key Hi Hj Hki Hkj.
    apply lookup_app_Some in Hi as [Hi | [Hli Hi]], Hj as [Hj | [Hlj Hj]].
    + by apply (Hd i j ci cj key).
    + apply list_lookup_singleton_Some in Hj as [_ <-].
      apply elem_of_chunk_of in Hkj as [_ (x & -> & ? & ?)].
      destruct (Ha ci [x] (list_elem_of_lookup_2 _ _ _ Hi) Hki) as (y & [= <-] & _ & _ & ? & _).
      lia.
    + apply list_lookup_singleton_Some in Hi as [_ <-].
      apply elem_of_chunk_of in Hki as [_ (x & -> & ? & ?)].
      destruct (Ha cj [x] (list_elem_of_lookup_2 _ _ _ Hj) Hkj) as (y & [= <-] & _ & _ & ? & _).
      lia.
    + apply list_lookup_singleton_Some in Hi as [Hi _], Hj as [Hj _]. lia.
  - destruct Hat as [Hat|Hat]; [left; apply elem_of_app; by right | by right].
Qed.

#[local] Instance lex_le_total : Total lex_le.
Proof.
  intros a b. unfold lex_le. rewrite (lex_compare_antisym a b).
  destruct (lex_compare a b); cbn; [by left | by left | by right].
Qed.

#[local] Instance lex_le_transitive : Transitive lex_le.
Proof. intros a b c. apply lex_le_trans. Qed.

Lemma length_filter_or {A} (P Q R : A → Prop)
    `{∀ x, Decision (P x)} `{∀ x, Decision (Q x)} `{∀ x, Decision (R x)} (l : list A) :
  (∀ x, P x → Q x ∨ R x) →
  (length (filter P l) ≤ length (filter Q l) + length (filter R l))%nat.
Proof.
  intros HP. induction l as [|a l IH]; [done|].
  rewrite !filter_cons.
  destruct (decide (P a)) as [Ha|Ha].
  - destruct (HP a Ha); [rewrite (decide_True (P := Q a)) by done
                        | rewrite (decide_True (P := R a)) by done];
      repeat case_decide; simpl; lia.
  - repeat case_decide; simpl; lia.
Qed.

Lemma length_filter_eq_NoDup {A} `{EqDecision A} (a : A) (l : list A) :
  NoDup l → (length (filter (λ x, x = a) l) ≤ 1)%nat.
Proof.
  intros Hl. induction Hl as [|x l Hx Hl IH]; [simpl; lia|].
  rewrite filter_cons. destruct (decide (x = a)) as [->|Hne]; [|done].
  rewrite (filter_nil_of_not (λ x, x = a) l); [simpl; lia|].
  by intros y Hy ->.
Qed.

(** The rows a round skips over to reach the end it has probed are
    fewer than the limit of the probe. *)
Lemma chunk_size_later rows (L : nat) s M e :
  (0 < L)%nat →
  probed rows L s M e ∨ (e = M ∧ rows_above rows [s] [M] = []) →
  (length (chunk_of rows OpGt s e) + 1 ≤ L)%nat.
Proof.
  intros HL [Hp | [-> Hnone]].
  - pose proof (probed_range _ _ _ _ _ Hp) as [_ HeM]. destruct Hp as [Hin Hmax].
    set (X := rows_above rows [s] [M]) in *. set (sX := merge_sort lex_le X) in *.
    set (Pe := λ key, in_window OpGt [s] OpLt [e] key = true).
    assert (sX ≡ₚ X) as Hperm by apply merge_sort_Permutation.
    assert (chunk_of rows OpGt s e = filter Pe X) as ->.
    { unfold X, rows_above, chunk_of. rewrite list_filter_filter. apply list_filter_iff.
      intros key. unfold Pe. rewrite in_window_between, in_window_above. split.
      - intros (x & -> & ? & ?). split; exists x; split; (done || lia).
      - by intros [? _]. }
    assert (length (filter Pe X) = length (filter Pe sX)) as -> by by rewrite Hperm.
    rewrite <- (take_drop L sX). rewrite filter_app, length_app.
    rewrite (filter_nil_of_not Pe (drop L sX)).
    2:{ intros key Hkey HPe. apply in_window_between in HPe as (x & -> & ? & ?).
        assert (lex_le [e] [x]) as Hle.
        { apply (StronglySorted_app_1_elem_of lex_le (take L sX) (drop L sX)); [|done..].
          rewrite take_drop. apply StronglySorted_merge_sort; apply _. }
        unfold lex_le in Hle. rewrite lex_compare_single in Hle.
        destruct (Z.compare_spec e x); try done; lia. }
    assert (length (filter Pe (take L sX)) < length (take L sX))%nat as Hlt.
    { apply (length_filter_lt _ _ [e]); [done|].
      intros HPe. apply in_window_between in HPe as (x & [= <-] & ? & ?). lia. }
    rewrite length_take in Hlt. simpl. lia.
  - unfold chunk_of. rewrite (filter_nil_of_not _ rows); [simpl; lia|].
    intros key Hkey HP. apply in_window_between in HP as (x & -> & ? & ?).
    assert ([x] ∈ rows_above rows [s] [M]) as Hin by (apply elem_of_rows_above; split; [done|lia]).
    rewrite Hnone in Hin. by apply elem_of_nil in Hin.
Qed.

(** The first chunk holds the row at [min] besides. *)
Lemma chunk_size_first rows (L : nat) m M e :
  NoDup rows →
  (0 < L)%nat →
  probed rows L m M e ∨ (e = M ∧ rows_above rows [m] [M] = []) →
  (length (chunk_of rows OpGe m e) ≤ L)%nat.
Proof.
  intros Hrows HL Hround.
  pose proof (chunk_size_later rows L m M e HL Hround) as Hlater.
  pose proof (length_filter_eq_NoDup [m] rows Hrows) as Hmin.
  pose proof (length_filter_or (λ key, in_window OpGe [m] OpLt [e] key = true)
                (λ key, key = [m]) (λ key, in_window OpGt [m] OpLt [e] key = true) rows) as Hor.
  unfold chunk_of in *. etrans; [apply Hor|lia].
  intros key (x & -> & Hlo & Hhi)%in_window_between.
  destruct (decide (x = m)) as [->|Hne]; [by left|].
  right. apply in_window_between. exists x. split; [done|]. lia.
Qed.

Lemma preamble_single_ends c σ tr m :
  CountColumnsInUniqueKey c = 1%nat →
  read_int (user_vars σ) "unique_key_min_value_0" = Some m →
  ∃ calls,
    ChunkUpdate_preamble mysqlDB c (σ, tr)
      = (Ok tt, (set_vars σ (<["unique_key_range_start_0" := VInt64 m]> (user_vars σ)),
                 (tr ++ calls)%list))
    ∧ window_ends calls = [].
Proof.
  intros Hk Hm. unfold ChunkUpdate_preamble. rewrite bool_decide_eq_true_2 by done.
  apply read_int_Some in Hm.
  assert (∃ calls0, (if NoLogBin c then dbExec mysqlDB SetLogBinOff else ret 0) (σ, tr)
                    = (Ok 0, (σ, (tr ++ calls0)%list))
                    ∧ window_ends calls0 = [])
    as (calls0 & Hlog & Hw0).
  { destruct (NoLogBin c).
    - by exists [CallExec SetLogBinOff].
    - exists []. by rewrite app_nil_r. }
  erewrite bind_Ok by exact Hlog.
  erewrite bind_Ok by apply getSessionVariableValue_mysql.
  erewrite bind_Ok by apply getSessionVariableValue_mysql.
  erewrite bind_Ok.
  2:{ apply assign_into. cbn. by rewrite Hm. }
  eexists. unfold ret. rewrite <- !app_assoc. split; [reflexivity|].
  rewrite !window_ends_app, Hw0. done.
Qed.

Lemma later_rounds_cover c q m M :
  CountColumnsInUniqueKey c = 1%nat →
  0 < ChunkSize c < MaxInt →
  strings.Contains q (sentinel c) = true →
  ∀ fuel σ tr s chunks ends,
    key_columns σ = [UniqueKeyColumnNames c] →
    holds_bounds σ m M s →
    covered (table_rows σ) m M s chunks ends →
    ∃ o σ' calls chunks' s',
      chunk_loop mysqlDB c q fuel false (σ, tr) = (o, (σ', (tr ++ calls)%list))
      ∧ targeted σ' = (targeted σ ++ chunks')%list
      ∧ covered (table_rows σ) m M s' (chunks ++ chunks') (ends ++ window_ends calls)
      ∧ (o = Ok tt → M ≤ s')
      ∧ Forall (λ chunk, Z.of_nat (length chunk) ≤ ChunkSize c) chunks'.
Proof.
  intros Hk Hsize Hq. induction fuel as [|fuel IH]; intros σ tr s chunks ends Hcols Hb Hcov.
  { exists (Abort OutOfFuel), σ, [], [], s. change (window_ends []) with (@nil Z).
    rewrite !app_nil_r. split; [done|]. split; [done|]. split; [done|]. split; [done|].
    constructor. }
  rewrite chunk_loop_S.
  destruct (chunk_round_single_chunk c q false σ tr m M s Hk Hcols
              ltac:(by apply probe_limit_pos) Hq Hb)
    as (e & σ1 & calls1 & Hround & _ & _ & Hrows & Hcols1 & Hb1 & Htar & Hends).
  cbn [negb andb] in Hround, Hb1, Htar. rewrite Hround.
  destruct (decide (M ≤ s)) as [HMs|HMs].
  - rewrite bool_decide_eq_true_2 in Htar, Hb1 |- * by done.
    assert (window_ends calls1 = []) as Hw1.
    { destruct Hends as [[_ Hp] | [? _]]; [|done]. apply probed_range in Hp. lia. }
    exists (Ok tt), σ1, calls1, [], s. rewrite Hw1, !app_nil_r.
    split; [done|]. split; [done|]. split; [done|]. split; [done|]. constructor.
  - rewrite bool_decide_eq_false_2 in Htar, Hb1 |- * by done.
    assert (covered (table_rows σ1) m M e (chunks ++ [chunk_of (table_rows σ) OpGt s e])
                    (ends ++ window_ends calls1)) as Hcov1.
    { rewrite Hrows.
      apply (covered_later _ (Z.to_nat (probe_limit c false))); [done | lia | done]. }
    destruct (IH σ1 (tr ++ calls1)%list e _ _ ltac:(congruence) Hb1 Hcov1)
      as (o & σ' & calls & chunks' & s' & Hloop & Htar' & Hcov' & Hstop & Hsizes).
    exists o, σ', (calls1 ++ calls)%list, (chunk_of (table_rows σ) OpGt s e :: chunks'), s'.
    rewrite Hloop, Htar', Htar, <- !app_assoc, window_ends_app.
    split; [done|]. split; [done|].
    split; [by rewrite Hrows, <- !app_assoc in Hcov'|]. split; [done|].
    constructor; [|done].
    assert (length (chunk_of (table_rows σ) OpGt s e) + 1
            ≤ Z.to_nat (probe_limit c false))%nat as Hlen.
    { apply (chunk_size_later _ _ s M); [rewrite probe_limit_later by done; lia|]. tauto. }
    rewrite probe_limit_later in Hlen by done. lia.
Qed.

(** The chunks of a whole run on a single-column key. *)
Lemma single_column_chunks c q σ tr m M fuel :
  CountColumnsInUniqueKey c = 1%nat →
  key_columns σ = [UniqueKeyColumnNames c] →
  0 < ChunkSize c < MaxInt →
  strings.Contains q (sentinel c) = true →
  read_int (user_vars σ) "unique_key_min_value_0" = Some m →
  read_int (user_vars σ) "unique_key_max_value_0" = Some M →
  ceil_div (Z.of_nat (length (rows_within (table_rows σ) [m] [M]))) (ChunkSize c) + 3
    ≤ Z.of_nat fuel →
  ∃ σ' calls chunks s',
    ChunkUpdate mysqlDB fuel c q (σ, tr) = (Ok tt, (σ', (tr ++ calls)%list))
    ∧ targeted σ' = (targeted σ ++ chunks)%list
    ∧ covered (table_rows σ) m M s' chunks (window_ends calls)
    ∧ M ≤ s'
    ∧ (NoDup (table_rows σ) →
       Forall (λ chunk, Z.of_nat (length chunk) ≤ ChunkSize c) chunks).
Proof.
  intros Hk Hcols Hsize Hq Hm HM Hfuel.
  destruct (single_column_loop_halts c q σ tr m M fuel Hk Hcols Hsize Hq Hm HM Hfuel)
    as (σh & callsh & Hhalts & _).
  destruct (preamble_single_ends c σ tr m Hk Hm) as (calls0 & Hpre & Hw0).
  set (σ0 := set_vars σ (<["unique_key_range_start_0" := VInt64 m]> (user_vars σ))) in *.
  assert (holds_bounds σ0 m M m) as Hb0.
  { unfold holds_bounds. cbn. rewrite read_int_insert, !read_int_insert_ne by done. done. }
  rewrite ChunkUpdate_loop, Hpre in Hhalts |- *.
  destruct fuel as [|fuel]; [done|].
  rewrite chunk_loop_S in Hhalts |- *.
  destruct (chunk_round_single_chunk c q true σ0 (tr ++ calls0) m M m Hk Hcols
              ltac:(by apply probe_limit_pos) Hq Hb0)
    as (e & σ1 & calls1 & Hround & _ & _ & Hrows & Hcols1 & Hb1 & Htar & Hends).
  cbn [negb andb] in Hround, Hb1, Htar. rewrite Hround in Hhalts |- *.
  change (table_rows σ0) with (table_rows σ) in *.
  change (key_columns σ0) with (key_columns σ) in *.
  change (targeted σ0) with (targeted σ) in *.
  assert (covered (table_rows σ1) m M e [chunk_of (table_rows σ) OpGe m e]
                  (window_ends calls1)) as Hcov1.
  { rewrite Hrows. by apply (covered_first _ (Z.to_nat (probe_limit c true))). }
  destruct (later_rounds_cover c q m M Hk Hsize Hq fuel σ1 ((tr ++ calls0) ++ calls1)%list e
              _ _ ltac:(congruence) Hb1 Hcov1)
    as (o & σ' & calls & chunks' & s' & Hloop & Htar' & Hcov' & Hstop & Hsizes).
  rewrite Hloop in Hhalts |- *. injection Hhalts as -> _ _.
  exists σ', (calls0 ++ calls1 ++ calls)%list, (chunk_of (table_rows σ) OpGe m e :: chunks'), s'.
  rewrite !app_assoc. split; [done|].
  split; [by rewrite Htar', Htar, <- app_assoc|].
  split; [rewrite Hrows in Hcov'; rewrite !window_ends_app, Hw0; exact Hcov'|].
  split; [by apply Hstop|].
  intros Hnodup. constructor; [|done].
  assert (length (chunk_of (table_rows σ) OpGe m e) ≤ Z.to_nat (probe_limit c true))%nat as Hlen.
  { apply (chunk_size_first _ _ m M); [done | unfold probe_limit; lia | tauto]. }
  unfold probe_limit in Hlen. lia.
Qed.

(** X11.  On a single-column key, with a chunk size of one row or more
    and below the largest [int], the chunk statements target rows of
    the table with a key in [[min, max)], and no row is targeted by two
    of them; the row at [max] is in no chunk. *)
Theorem no_row_is_targeted_twice (c : Config) (q : string) (σ : mysql) (tr : list call)
    (m M : Z) (fuel : nat) :
  CountColumnsInUniqueKey c = 1%nat →
  key_columns σ = [UniqueKeyColumnNames c] →
  0 < ChunkSize c < MaxInt →
  strings.Contains q (sentinel c) = true →
  read_int (user_vars σ) "unique_key_min_value_0" = Some m →
  read_int (user_vars σ) "unique_key_max_value_0" = Some M →
  ceil_div (Z.of_nat (length (rows_within (table_rows σ) [m] [M]))) (ChunkSize c) + 3
    ≤ Z.of_nat fuel →
  ∃ σ' calls chunks,
    ChunkUpdate mysqlDB fuel c q (σ, tr) = (Ok tt, (σ', (tr ++ calls)%list))
    ∧ targeted σ' = (targeted σ ++ chunks)%list
    ∧ (∀ chunk key, chunk ∈ chunks → key ∈ chunk →
         key ∈ table_rows σ ∧ ∃ x, key = [x] ∧ m ≤ x < M)
    ∧ (∀ i j ci cj key,
         chunks !! i = Some ci → chunks !! j = Some cj → key ∈ ci → key ∈ cj → i = j).
Proof.
  intros Hk Hcols Hsize Hq Hm HM Hfuel.
  destruct (single_column_chunks c q σ tr m M fuel Hk Hcols Hsize Hq Hm HM Hfuel)
    as (σ' & calls & chunks & s' & Hrun & Htar & (Ha & _ & _ & Hd & _) & _ & _).
  exists σ', calls, chunks. split; [done|]. split; [done|]. split; [|done].
  intros chunk key Hchunk Hkey.
  destruct (Ha chunk key Hchunk Hkey) as (x & -> & Hrow & ? & _ & ? & _).
  split; [done|]. exists x. split; [done|lia].
Qed.

Lemma no_row_is_targeted_twice_witness :
  let c := engine_config update_t 2 ["id"] in
  let w := seeded c ["id"] [[1]; [2]; [3]; [4]; [5]] in
  ∃ σ' calls chunks,
    ChunkUpdate mysqlDB 10 c update_t (w.1, w.2) = (Ok tt, (σ', (w.2 ++ calls)%list))
    ∧ targeted σ' = (targeted w.1 ++ chunks)%list
    ∧ (∀ chunk key, chunk ∈ chunks → key ∈ chunk →
         key ∈ table_rows w.1 ∧ ∃ x, key = [x] ∧ 1 ≤ x < 5)
    ∧ (∀ i j ci cj key,
         chunks !! i = Some ci → chunks !! j = Some cj → key ∈ ci → key ∈ cj → i = j).
Proof.
  intros c w.
  assert (CountColumnsInUniqueKey c = 1%nat) as Hk by evaluated.
  assert (key_columns w.1 = [UniqueKeyColumnNames c]) as Hcols by evaluated.
  assert (0 < ChunkSize c < MaxInt) as Hsize by (vm_compute; split; reflexivity).
  assert (strings.Contains update_t (sentinel c) = true) as Hq by evaluated.
  assert (read_int (user_vars w.1) "unique_key_min_value_0" = Some 1) as Hm by evaluated.
  assert (read_int (user_vars w.1) "unique_key_max_value_0" = Some 5) as HM by evaluated.
  assert (ceil_div (Z.of_nat (length (rows_within (table_rows w.1) [1] [5]))) (ChunkSize c) = 3)
    as Hceil by evaluated.
  apply (no_row_is_targeted_twice c update_t w.1 w.2 1 5 10 Hk Hcols Hsize Hq Hm HM).
  rewrite Hceil. lia.
Defined.

(** X12.  On a single-column key without duplicates, with a chunk size
    of one row or more and below the largest [int], no chunk statement
    targets more than [ChunkSize] rows. *)
Theorem chunks_hold_at_most_chunk_size_rows (c : Config) (q : string) (σ : mysql)
    (tr : list call) (m M : Z) (fuel : nat) :
  CountColumnsInUniqueKey c = 1%nat →
  key_columns σ = [UniqueKeyColumnNames c] →
  0 < ChunkSize c < MaxInt →
  strings.Contains q (sentinel c) = true →
  read_int (user_vars σ) "unique_key_min_value_0" = Some m →
  read_int (user_vars σ) "unique_key_max_value_0" = Some M →
  ceil_div (Z.of_nat (length (rows_within (table_rows σ) [m] [M]))) (ChunkSize c) + 3
    ≤ Z.of_nat fuel →
  NoDup (table_rows σ) →
  ∃ σ' calls chunks,
    ChunkUpdate mysqlDB fuel c q (σ, tr) = (Ok tt, (σ', (tr ++ calls)%list))
    ∧ targeted σ' = (targeted σ ++ chunks)%list
    ∧ Forall (λ chunk, Z.of_nat (length chunk) ≤ ChunkSize c) chunks.
Proof.
  intros Hk Hcols Hsize Hq Hm HM Hfuel Hnodup.
  destruct (single_column_chunks c q σ tr m M fuel Hk Hcols Hsize Hq Hm HM Hfuel)
    as (σ' & calls & chunks & s' & Hrun & Htar & _ & _ & Hsizes).
  exists σ', calls, chunks. split; [done|]. split; [done|]. by apply Hsizes.
Qed.

Lemma chunks_hold_at_most_chunk_size_rows_witness :
  let c := engine_config update_t 2 ["id"] in
  let w := seeded c ["id"] [[1]; [2]; [3]; [4]; [5]] in
  ∃ σ' calls chunks,
    ChunkUpdate mysqlDB 10 c update_t (w.1, w.2) = (Ok tt, (σ', (w.2 ++ calls)%list))
    ∧ targeted σ' = (targeted w.1 ++ chunks)%list
    ∧ Forall (λ chunk, Z.of_nat (length chunk) ≤ ChunkSize c) chunks.
Proof.
  intros c w.
  assert (CountColumnsInUniqueKey c = 1%nat) as Hk by evaluated.
  assert (key_columns w.1 = [UniqueKeyColumnNames c]) as Hcols by evaluated.
  assert (0 < ChunkSize c < MaxInt) as Hsize by (vm_compute; split; reflexivity).
  assert (strings.Contains update_t (sentinel c) = true) as Hq by evaluated.
  assert (read_int (user_vars w.1) "unique_key_min_value_0" = Some 1) as Hm by evaluated.
  assert (read_int (user_vars w.1) "unique_key_max_value_0" = Some 5) as HM by evaluated.
  assert (ceil_div (Z.of_nat (length (rows_within (table_rows w.1) [1] [5]))) (ChunkSize c) = 3)
    as Hceil by evaluated.
  assert (table_rows w.1 = [[1]; [2]; [3]; [4]; [5]]) as Hrows by evaluated.
  apply (chunks_hold_at_most_chunk_size_rows c update_t w.1 w.2 1 5 10
           Hk Hcols Hsize Hq Hm HM).
  - rewrite Hceil. lia.
  - rewrite Hrows. apply (bool_decide_unpack (NoDup [[1]; [2]; [3]; [4]; [5]])). vm_compute. exact I.
Defined.

(** X13.  On a single-column key, with a chunk size of one row or more
    and below the largest [int], a row with its key in [[min, max]] is
    in a chunk exactly when it is neither the row at [max] nor the end
    of a window, the [e] of a [SELECT e INTO @unique_key_range_end_0]
    of the run. *)
Theorem rows_left_out_are_the_window_ends (c : Config) (q : string) (σ : mysql)
    (tr : list call) (m M : Z) (fuel : nat) :
  CountColumnsInUniqueKey c = 1%nat →
  key_columns σ = [UniqueKeyColumnNames c] →
  0 < ChunkSize c < MaxInt →
  strings.Contains q (sentinel c) = true →
  read_int (user_vars σ) "unique_key_min_value_0" = Some m →
  read_int (user_vars σ) "unique_key_max_value_0" = Some M →
  ceil_div (Z.of_nat (length (rows_within (table_rows σ) [m] [M]))) (ChunkSize c) + 3
    ≤ Z.of_nat fuel →
  ∃ σ' calls chunks,
    ChunkUpdate mysqlDB fuel c q (σ, tr) = (Ok tt, (σ', (tr ++ calls)%list))
    ∧ targeted σ' = (targeted σ ++ chunks)%list
    ∧ ∀ x, [x] ∈ table_rows σ → m ≤ x ≤ M →
        ((∃ chunk, chunk ∈ chunks ∧ [x] ∈ chunk) ↔ ((x ∉ window_ends calls) ∧ x ≠ M)).
Proof.
  intros Hk Hcols Hsize Hq Hm HM Hfuel.
  destruct (single_column_chunks c q σ tr m M fuel Hk Hcols Hsize Hq Hm HM Hfuel)
    as (σ' & calls & chunks & s' & Hrun & Htar & (Ha & _ & Hc & _ & _) & Hs' & _).
  exists σ', calls, chunks. split; [done|]. split; [done|].
  intros x Hrow Hx. split.
  - intros (chunk & Hchunk & Hkey).
    destruct (Ha chunk [x] Hchunk Hkey) as (y & [= <-] & _ & _ & _ & ? & ?). split; [done|lia].
  - intros [Hnot Hne]. destruct (Hc x Hrow) as [?|?]; [lia | lia | done | done].
Qed.

Lemma rows_left_out_are_the_window_ends_witness :
  let c := engine_config update_t 2 ["id"] in
  let w := seeded c ["id"] [[1]; [2]; [3]; [4]; [5]] in
  ∃ σ' calls chunks,
    ChunkUpdate mysqlDB 10 c update_t (w.1, w.2) = (Ok tt, (σ', (w.2 ++ calls)%list))
    ∧ targeted σ' = (targeted w.1 ++ chunks)%list
    ∧ ∀ x, [x] ∈ table_rows w.1 → 1 ≤ x ≤ 5 →
        ((∃ chunk, chunk ∈ chunks ∧ [x] ∈ chunk) ↔ ((x ∉ window_ends calls) ∧ x ≠ 5)).
Proof.
  intros c w.
  assert (CountColumnsInUniqueKey c = 1%nat) as Hk by evaluated.
  assert (key_columns w.1 = [UniqueKeyColumnNames c]) as Hcols by evaluated.
  assert (0 < ChunkSize c < MaxInt) as Hsize by (vm_compute; split; reflexivity).
  assert (strings.Contains update_t (sentinel c) = true) as Hq by evaluated.
  assert (read_int (user_vars w.1) "unique_key_min_value_0" = Some 1) as Hm by evaluated.
  assert (read_int (user_vars w.1) "unique_key_max_value_0" = Some 5) as HM by evaluated.
  assert (ceil_div (Z.of_nat (length (rows_within (table_rows w.1) [1] [5]))) (ChunkSize c) = 3)
    as Hceil by evaluated.
  apply (rows_left_out_are_the_window_ends c update_t w.1 w.2 1 5 10 Hk Hcols Hsize Hq Hm HM).
  rewrite Hceil. lia.
Defined.

Lemma preamble_runs c σ tr :
  ∃ σ0 calls,
    ChunkUpdate_preamble mysqlDB c (σ, tr) = (Ok tt, (σ0, (tr ++ calls)%list))
    ∧ table_rows σ0 = table_rows σ ∧ targeted σ0 = targeted σ
    ∧ statements calls = 0%nat ∧ probes calls = 0%nat.
Proof.
  unfold ChunkUpdate_preamble.
  assert (∃ calls0, (if NoLogBin c then dbExec mysqlDB SetLogBinOff else ret 0) (σ, tr)
                    = (Ok 0, (σ, (tr ++ calls0)%list))
                    ∧ probes calls0 = 0%nat ∧ statements calls0 = 0%nat)
    as (calls0 & Hlog & Hp0 & Hs0).
  { destruct (NoLogBin c).
    - by exists [CallExec SetLogBinOff].
    - exists []. by rewrite app_nil_r. }
  erewrite bind_Ok by exact Hlog.
  erewrite bind_Ok by apply getSessionVariableValue_mysql.
  erewrite bind_Ok by apply getSessionVariableValue_mysql.
  destruct (bool_decide (CountColumnsInUniqueKey c = 1%nat)).
  - erewrite bind_Ok by (by apply assign_into).
    eexists _, _. unfold ret. rewrite <- !app_assoc. split; [reflexivity|].
    split; [done|]. split; [done|].
    by rewrite !probes_app, !statements_app, Hp0, Hs0.
  - erewrite bind_Ok.
    2:{ apply assign_many; [apply eval_vars|].
        unfold min_value_names, range_start_names. by rewrite length_fmap, !var_names_length. }
    eexists _, _. unfold ret. rewrite <- !app_assoc. split; [reflexivity|].
    split; [done|]. split; [done|].
    by rewrite !probes_app, !statements_app, Hp0, Hs0.
Qed.

(** X14.  With a chunk size of zero on a single-column key, the first
    probe finds nothing, the window goes to [max] at once, and the run
    is two rounds with one chunk statement, which targets every row
    from [min] up to [max], the row at [max] left out. *)
Theorem zero_chunk_size_is_one_chunk (c : Config) (q : string) (σ : mysql) (tr : list call)
    (m M : Z) (fuel : nat) :
  CountColumnsInUniqueKey c = 1%nat →
  key_columns σ = [UniqueKeyColumnNames c] →
  ChunkSize c = 0 →
  strings.Contains q (sentinel c) = true →
  read_int (user_vars σ) "unique_key_min_value_0" = Some m →
  read_int (user_vars σ) "unique_key_max_value_0" = Some M →
  ∃ σ' calls,
    ChunkUpdate mysqlDB (S (S fuel)) c q (σ, tr) = (Ok tt, (σ', (tr ++ calls)%list))
    ∧ targeted σ' = (targeted σ ++ [chunk_of (table_rows σ) OpGe m M])%list
    ∧ statements calls = 1%nat
    ∧ probes calls = 2%nat.
Proof.
  intros Hk Hcols Hzero Hq Hm HM.
  destruct (preamble_single c σ tr m Hk Hm) as (calls0 & Hpre & Hp0 & Hs0).
  set (σ0 := set_vars σ (<["unique_key_range_start_0" := VInt64 m]> (user_vars σ))) in *.
  assert (read_int (user_vars σ0) "unique_key_max_value_0" = Some M) as HM0
    by (cbn; by rewrite read_int_insert_ne).
  set (σ1 := set_vars σ0 (<["unique_key_range_end_0" := VInt64 M]> (user_vars σ0))).
  assert (read_int (user_vars σ1) "unique_key_min_value_0" = Some m) as Hm1
    by (cbn; by rewrite !read_int_insert_ne).
  assert (read_int (user_vars σ1) "unique_key_range_end_0" = Some M) as He1
    by (cbn; by rewrite read_int_insert).
  set (σ2 := add_targeted σ1 (chunk_of (table_rows σ) OpGe m M)).
  set (σ3 := set_vars σ2 (<["unique_key_range_start_0" := VInt64 M]> (user_vars σ2))).
  assert (holds_bounds σ3 m M M) as Hb3.
  { unfold holds_bounds. cbn. rewrite read_int_insert, !read_int_insert_ne by done. done. }
  assert (∃ calls1,
            chunk_round mysqlDB c q true (σ0, (tr ++ calls0)%list)
              = (Ok false, (σ3, ((tr ++ calls0) ++ calls1)%list))
            ∧ statements calls1 = 1%nat ∧ probes calls1 = 1%nat)
    as (calls1 & Hround1 & Hs1 & Hp1).
  { unfold chunk_round.
    erewrite bind_Ok.
    2:{ unfold set_range_end. rewrite Hzero.
        unfold dbQueryRow at 1. unfold issue at 1.
        cbn [QueryRow mysqlDB mysql_QueryRow fst snd].
        rewrite bool_decide_eq_false_2 by lia.
        change (Z.to_nat 0) with 0%nat. rewrite take_0. cbn [first_by].
        rewrite bool_decide_eq_true_2 by done. cbn beta iota.
        erewrite bind_Ok; [reflexivity|].
        apply (assign_into _ _ _ _ (VInt64 M)). cbn [eval_expr].
        apply read_int_Some in HM0. by rewrite HM0. }
    erewrite bind_Ok by apply getSessionVariableValue_mysql.
    erewrite bind_Ok by apply getSessionVariableValue_mysql.
    erewrite bind_Ok by reflexivity. cbn iota.
    unfold firstQuery.
    erewrite bind_Ok by (by apply dml_targets).
    fold σ1. assert (filter (λ key, selects (user_vars σ1) (first_pred c) key = true) (table_rows σ1)
            = chunk_of (table_rows σ) OpGe m M) as ->.
    { unfold chunk_of. apply list_filter_iff. intros key.
      unfold first_pred. rewrite bool_decide_eq_true_2 by done.
      by erewrite selects_chunk_single. }
    erewrite bind_Ok.
    2:{ apply (assign_into _ _ _ _ (VInt64 M)). cbn. by rewrite lookup_insert_eq. }
    eexists. unfold ret. rewrite <- !app_assoc. split; [reflexivity|]. split; reflexivity. }
  destruct (chunk_round_single_chunk c q false σ3 ((tr ++ calls0) ++ calls1)%list m M M Hk Hcols
              ltac:(unfold probe_limit; rewrite Hzero; vm_compute; reflexivity) Hq Hb3)
    as (e & σ4 & calls2 & Hround2 & Hp2 & Hs2 & _ & _ & _ & Htar2 & _).
  cbn [negb andb] in Hround2, Htar2, Hs2.
  rewrite bool_decide_eq_true_2 in Hround2, Htar2, Hs2 by done.
  rewrite ChunkUpdate_loop, Hpre, chunk_loop_S, Hround1, chunk_loop_S, Hround2.
  exists σ4, (calls0 ++ calls1 ++ calls2)%list. rewrite !app_assoc. split; [done|].
  split; [by rewrite Htar2|].
  rewrite !statements_app, !probes_app. lia.
Qed.

Lemma zero_chunk_size_is_one_chunk_witness :
  let c := engine_config update_t 0 ["id"] in
  let w := seeded c ["id"] [[1]; [2]; [3]; [4]] in
  ∃ σ' calls,
    ChunkUpdate mysqlDB 2 c update_t (w.1, w.2) = (Ok tt, (σ', (w.2 ++ calls)%list))
    ∧ targeted σ' = (targeted w.1 ++ [chunk_of (table_rows w.1) OpGe 1 4])%list
    ∧ statements calls = 1%nat
    ∧ probes calls = 2%nat.
Proof.
  intros c w.
  apply (zero_chunk_size_is_one_chunk c update_t w.1 w.2 1 4 0); reflexivity.
Defined.

(** X15.  With a chunk size below zero, whatever the key, the server
    refuses the first probe ([LIMIT] with a negative number), the engine
    returns that error, and no chunk statement has been sent. *)
Theorem negative_chunk_size_fails_at_the_first_probe (c : Config) (q : string) (σ : mysql)
    (tr : list call) (fuel : nat) :
  ChunkSize c < 0 →
  ∃ σ' calls,
    ChunkUpdate mysqlDB (S fuel) c q (σ, tr)
      = (Abort (Error (ErrorString "You have an error in your SQL syntax")),
         (σ', (tr ++ calls)%list))
    ∧ targeted σ' = targeted σ
    ∧ statements calls = 0%nat
    ∧ last calls = Some (CallQueryRow (Probe (UniqueKeyColumnNames c) (Database c) (Table c)
                                             (probe_pred c) (ChunkSize c))).
Proof.
  intros Hneg.
  destruct (preamble_runs c σ tr) as (σ0 & calls0 & Hpre & _ & Htar & Hst & _).
  rewrite ChunkUpdate_loop, Hpre, chunk_loop_S.
  unfold chunk_round, bind at 1, set_range_end.
  unfold dbQueryRow at 1. unfold issue at 1. cbn [QueryRow mysqlDB mysql_QueryRow fst snd].
  rewrite bool_decide_eq_true_2 by done. unfold sql_error.
  eexists σ0, _. rewrite <- app_assoc. split; [reflexivity|]. split; [done|].
  split; [by rewrite statements_app, Hst|]. by rewrite last_snoc.
Qed.

Lemma negative_chunk_size_fails_at_the_first_probe_witness :
  let c := engine_config update_t (-5) ["id"] in
  let w := seeded c ["id"] [[1]; [2]; [3]] in
  ∃ σ' calls,
    ChunkUpdate mysqlDB 10 c update_t (w.1, w.2)
      = (Abort (Error (ErrorString "You have an error in your SQL syntax")),
         (σ', (w.2 ++ calls)%list))
    ∧ targeted σ' = targeted w.1
    ∧ statements calls = 0%nat
    ∧ last calls = Some (CallQueryRow (Probe (UniqueKeyColumnNames c) (Database c) (Table c)
                                             (probe_pred c) (ChunkSize c))).
Proof.
  intros c w. apply (negative_chunk_size_fails_at_the_first_probe c update_t w.1 w.2 9).
  reflexivity.
Defined.

(** X21.  With the largest [int] as chunk size on a single-column key,
    the first round runs as with any other size; in the second the
    [limit++] wraps around, the probe asks for
    [LIMIT -9223372036854775808], the server refuses it, and the engine
    returns that error, one chunk statement sent. *)
Theorem largest_chunk_size_wraps_at_the_second_probe (c : Config) (q : string) (σ : mysql)
    (tr : list call) (m M : Z) (fuel : nat) :
  CountColumnsInUniqueKey c = 1%nat →
  key_columns σ = [UniqueKeyColumnNames c] →
  ChunkSize c = MaxInt →
  strings.Contains q (sentinel c) = true →
  read_int (user_vars σ) "unique_key_min_value_0" = Some m →
  read_int (user_vars σ) "unique_key_max_value_0" = Some M →
  ∃ σ' calls,
    ChunkUpdate mysqlDB (S (S fuel)) c q (σ, tr)
      = (Abort (Error (ErrorString "You have an error in your SQL syntax")),
         (σ', (tr ++ calls)%list))
    ∧ statements calls = 1%nat
    ∧ probes calls = 2%nat
    ∧ last calls = Some (CallQueryRow (Probe (UniqueKeyColumnNames c) (Database c) (Table c)
                                             (probe_pred c) (-9223372036854775808))).
Proof.
  intros Hk Hcols Hmax Hq Hm HM.
  destruct (preamble_single c σ tr m Hk Hm) as (calls0 & Hpre & Hp0 & Hs0).
  set (σ0 := set_vars σ (<["unique_key_range_start_0" := VInt64 m]> (user_vars σ))) in *.
  assert (holds_bounds σ0 m M m) as Hb0.
  { unfold holds_bounds. cbn. rewrite read_int_insert, !read_int_insert_ne by done. done. }
  destruct (chunk_round_single_chunk c q true σ0 (tr ++ calls0) m M m Hk Hcols
              ltac:(unfold probe_limit; rewrite Hmax; reflexivity) Hq Hb0)
    as (e & σ1 & calls1 & Hround & Hp1 & Hs1 & _).
  cbn [negb andb] in Hround, Hs1.
  rewrite ChunkUpdate_loop, Hpre, chunk_loop_S, Hround, chunk_loop_S.
  unfold chunk_round, bind at 1, set_range_end. rewrite Hmax.
  change (wrap_int (MaxInt + 1)) with (-9223372036854775808).
  unfold dbQueryRow at 1. unfold issue at 1. cbn [QueryRow mysqlDB mysql_QueryRow fst snd].
  rewrite bool_decide_eq_true_2 by done. unfold sql_error.
  eexists σ1, _. rewrite <- !app_assoc. split; [reflexivity|].
  rewrite !app_assoc, last_snoc, !statements_app, !probes_app, Hp0, Hs0, Hp1, Hs1.
  done.
Qed.

Lemma largest_chunk_size_wraps_at_the_second_probe_witness :
  let c := engine_config update_t 9223372036854775807 ["id"] in
  let w := seeded c ["id"] [[1]; [2]; [3]] in
  ∃ σ' calls,
    ChunkUpdate mysqlDB 10 c update_t (w.1, w.2)
      = (Abort (Error (ErrorString "You have an error in your SQL syntax")),
         (σ', (w.2 ++ calls)%list))
    ∧ statements calls = 1%nat
    ∧ probes calls = 2%nat
    ∧ last calls = Some (CallQueryRow (Probe (UniqueKeyColumnNames c) (Database c) (Table c)
                                             (probe_pred c) (-9223372036854775808))).
Proof.
  intros c w.
  apply (largest_chunk_size_wraps_at_the_second_probe c update_t w.1 w.2 1 3 8); reflexivity.
Defined.

(** ** The calls of a run, in their order *)

Lemma issue_trace {S A : Type} c (op : S → outcome A * S) w :
  (issue c op w).2.2 = (w.2 ++ [c])%list.
Proof. unfold issue. by destruct (op w.1). Qed.

Lemma or_fatal_trace {S A : Type} prefix (m : M S A) w : (or_fatal prefix m w).2 = (m w).2.
Proof. unfold or_fatal. by destruct (m w) as [[a|[[]| | |]] w1]. Qed.

Lemma not_deferred_statement c : is_statement c = true → not_deferred c.
Proof. by destruct c. Qed.

Lemma GetSelectedUniqueKeyColumnNames_trace {U : Unicode} {St : Type}
    (db : DBInterface St) c w :
  (GetSelectedUniqueKeyColumnNames db c w).2.2
    = (w.2 ++ (if bool_decide (ForcedChunkingColumn c ≠ "") then []
               else [CallGetPossibleUniqueKeyColumns (Database c) (Table c)]))%list.
Proof.
  unfold GetSelectedUniqueKeyColumnNames.
  destruct (bool_decide (ForcedChunkingColumn c ≠ "")).
  - rewrite app_nil_r.
    destruct (bool_decide _); [done|]. destruct (strings.Contains _ _); [|done].
    unfold bind, lift, ret.
    destruct (index _ 0); [|done]. by destruct (index _ 1).
  - unfold bind at 1, dbGetPossibleUniqueKeyColumns, issue.
    destruct (GetPossibleUniqueKeyColumns db (Database c) (Table c) w.1) as [[rows|x] s'];
      [|done].
    destruct rows as [|row rows]; [done|].
    unfold bind, lift, ret.
    destruct (assert_string _); [|done]. destruct (assert_int64 _); [|done].
    destruct (assert_string _); [|done]. by destruct (classify _ _).
Qed.

Lemma bind_cases {S A B : Type} (Q : outcome B * (S * list call) → Prop)
    (m : M S A) (k : A → M S B) w :
  (∀ a w1, m w = (Ok a, w1) → Q (k a w1)) →
  (∀ x w1, m w = (Abort x, w1) → Q (Abort x, w1)) →
  Q (bind m k w).
Proof. unfold bind. destruct (m w) as [[a|x] w1]; eauto. Qed.

Section DriverTraces.

Context {U : Unicode} {St : Type} (db : DBInterface St) (sys : System St).

Lemma extends_work fuel f c :
  extends (λ c, is_statement c = true)
    (let* range := or_fatal "Range error:" (GetUniqueKeyRange db c) in
     if negb range.2 then ret "No range to process"
     else let* _ := or_fatal "Chunk error:" (ChunkUpdate db fuel c (execute f)) in
          ret "").
Proof.
  apply extends_bind.
  { apply extends_or_fatal, (extends_weaken plain); [by intros ? [? _]|].
    apply extends_GetUniqueKeyRange. }
  intros range. destruct (negb range.2); [apply extends_ret|].
  apply extends_bind; [|intros; apply extends_ret].
  apply extends_or_fatal. intros w0.
  destruct (ChunkUpdate_calls db fuel c (execute f) w0) as (calls & Htr & Hst & _).
  by exists calls.
Qed.

Lemma lock_and_chunk_trace fuel f c d t w :
  let r := lock_and_chunk db fuel f c d t w in
  (∀ out, r.1 = Ok out →
     ∃ stmts, r.2.2 = (w.2 ++ (if skipLock f then [] else [CallLockTableRead d t]) ++ stmts
                           ++ (if skipLock f then [] else [CallUnlockTables]))%list
              ∧ Forall (λ c, is_statement c = true) stmts)
  ∧ (∀ code out, r.1 = Abort (OsExit code out) →
       ∃ calls, r.2.2 = (w.2 ++ calls)%list ∧ Forall not_deferred calls).
Proof.
  unfold lock_and_chunk.
  match goal with |- context [if negb (skipLock f) then _ else ?wk] => set (work := wk) end.
  pose proof (extends_work fuel f c) as Hwork. fold work in Hwork.
  destruct (skipLock f); cbn [negb].
  - destruct (Hwork w) as (stmts & Htr & Hst). split.
    + intros out _. exists stmts. by rewrite app_nil_r.
    + intros code out _. exists stmts. split; [done|].
      apply (Forall_impl _ _ _ Hst), not_deferred_statement.
  - unfold bind.
    assert ((or_fatal "Lock error:" (dbLockTableRead db d t) w).2.2
            = (w.2 ++ [CallLockTableRead d t])%list) as Hlock
      by (rewrite or_fatal_trace; apply issue_trace).
    destruct (or_fatal "Lock error:" (dbLockTableRead db d t) w) as [[[]|x] w1];
      cbn [fst snd] in Hlock.
    2:{ split; [done|]. intros code out _. exists [CallLockTableRead d t].
        split; [done|]. by repeat constructor. }
    unfold with_defer. destruct (Hwork w1) as (stmts & Htr & Hst).
    destruct (work w1) as [[out'|[e|what|code' out'|]] w2]; cbn [fst snd] in *.
    + split; [|done]. intros out _. exists stmts.
      unfold dbUnlockTables. by rewrite issue_trace, Htr, Hlock, <- !app_assoc.
    + by split.
    + by split.
    + split; [done|]. intros code out _. exists ([CallLockTableRead d t] ++ stmts)%list.
      rewrite Htr, Hlock, <- app_assoc. split; [done|].
      apply Forall_app. split; [by repeat constructor|].
      apply (Forall_impl _ _ _ Hst), not_deferred_statement.
    + by split.
Qed.

(** The run on a negative count does not return; it exits only on a
    lock error. *)
Lemma lock_and_panic_trace f d t w :
  let r := lock_and_panic db f d t w in
  (∀ out, r.1 ≠ Ok out)
  ∧ (∀ code out, r.1 = Abort (OsExit code out) →
       ∃ calls, r.2.2 = (w.2 ++ calls)%list ∧ Forall not_deferred calls).
Proof.
  unfold lock_and_panic. destruct (skipLock f); cbn [negb]; [by split|].
  unfold bind.
  assert ((or_fatal "Lock error:" (dbLockTableRead db d t) w).2.2
          = (w.2 ++ [CallLockTableRead d t])%list) as Hlock
    by (rewrite or_fatal_trace; apply issue_trace).
  destruct (or_fatal "Lock error:" (dbLockTableRead db d t) w) as [[[]|x] w1];
    cbn [fst snd] in Hlock; [by split|].
  split; [done|]. intros code out _. exists [CallLockTableRead d t].
  split; [done|]. by repeat constructor.
Qed.

Lemma runChunkUpdate_trace fuel f w :
  driver_trace f w.2 (runChunkUpdate db sys fuel f w).
Proof.
  assert (∀ x (w0 : St * list call) calls,
            w0.2 = (w.2 ++ calls)%list → Forall not_deferred calls →
            driver_trace f w.2 (Abort x, w0)) as Hstop.
  { intros x w0 calls Htr Hq. split; [done|]. intros code out _. by exists calls. }
  unfold runChunkUpdate.
  destruct (bool_decide (execute f = "")).
  { apply (Hstop _ _ []); [by rewrite app_nil_r | done]. }
  destruct (FindStringSubmatch (execute f)) as [tableSpec|].
  2:{ apply (Hstop _ _ []); [by rewrite app_nil_r | done]. }
  apply bind_cases.
  2:{ intros x w0 [= _ <-]. apply (Hstop _ _ []); [by rewrite app_nil_r | done]. }
  intros tableName w0 Hw0.
  assert (w0 = w) as -> by (unfold lift in Hw0; congruence). clear Hw0.
  set (dbName := if bool_decide (length (strings.Split tableSpec ".") = 2%nat)
                 then default "" (strings.Split tableSpec "." !! 0%nat) else database f).
  destruct (bool_decide (dbName = "")).
  { apply (Hstop _ _ []); [by rewrite app_nil_r | done]. }
  assert (∀ o w1,
            (if promptPass f
             then or_fatal "" (λ w : St * list call,
                                 let '(r, s') := ReadPassword sys w.1 in (r, (s', w.2)))
             else ret (password f)) w = (o, w1) → w1.2 = w.2) as Hpass.
  { intros o w1. destruct (promptPass f); [|by intros [= _ <-]].
    intros E. apply (f_equal snd) in E. rewrite or_fatal_trace in E.
    destruct (ReadPassword sys w.1). cbn in E. by subst. }
  apply bind_cases.
  2:{ intros x w1 E. apply (Hstop _ _ []); [|done]. rewrite app_nil_r. by apply Hpass in E. }
  intros pass w1 E. apply Hpass in E as Hw1. clear E Hpass.
  set (config := {| User := user f; Password := pass; Host := host f; Port := port f;
                    Socket := socket f; ConnDatabase := dbName;
                    DefaultsFile := defaultsFile f |}).
  assert (∀ o w2,
            or_fatal "DB connection error:" (issue (CallNewDB config) (NewDB sys config)) w1
              = (o, w2) → w2.2 = (w.2 ++ [CallNewDB config])%list) as Hopen.
  { intros o w2 E. apply (f_equal snd) in E. rewrite or_fatal_trace in E.
    cbn [snd] in E. subst w2. by rewrite issue_trace, Hw1. }
  apply bind_cases.
  2:{ intros x w2 E. apply (Hstop _ _ [CallNewDB config]); [by apply Hopen in E|].
      by repeat constructor. }
  intros [] w2 E. apply Hopen in E as Hw2. clear E Hopen.
  unfold with_defer.
  match goal with |- context [match ?b w2 with _ => _ end] => set (body := b) end.
  assert (checked_trace f dbName tableName w2.2 (body w2)) as [Hret Hexit].
  { assert (∀ x (w0 : St * list call) calls,
              w0.2 = (w2.2 ++ calls)%list → Forall not_deferred calls →
              checked_trace f dbName tableName w2.2 (Abort x, w0)) as Hstop'.
    { intros x w0 calls Htr Hq. split; [done|]. intros code out _. by exists calls. }
    subst body. apply bind_cases.
    2:{ intros x w3 E. apply (f_equal snd) in E. rewrite or_fatal_trace in E.
        cbn [snd] in E. subst w3.
        apply (Hstop' _ _ [CallTableExists dbName tableName]); [apply issue_trace|].
        by repeat constructor. }
    intros exists_ w3 E. apply (f_equal snd) in E. rewrite or_fatal_trace in E.
    cbn [snd] in E.
    assert (w3.2 = (w2.2 ++ [CallTableExists dbName tableName])%list) as Hw3
      by (subst w3; apply issue_trace).
    clear E. destruct (negb exists_).
    { apply (Hstop' _ _ [CallTableExists dbName tableName]); [done | by repeat constructor]. }
    set (key := if bool_decide (forceColumn f ≠ "") then []
                else [CallGetPossibleUniqueKeyColumns dbName tableName]).
    assert (∀ o w4,
              or_fatal "Unique key error:"
                (GetSelectedUniqueKeyColumnNames db (Config_of_Flags f dbName tableName)) w3
                = (o, w4) →
              w4.2 = (w2.2 ++ [CallTableExists dbName tableName] ++ key)%list) as Hkey.
    { intros o w4 E. apply (f_equal snd) in E. rewrite or_fatal_trace in E.
      cbn [snd] in E. subst w4.
      by rewrite GetSelectedUniqueKeyColumnNames_trace, Hw3, <- app_assoc. }
    assert (Forall not_deferred ([CallTableExists dbName tableName] ++ key)) as Hquiet.
    { unfold key. destruct (bool_decide (forceColumn f ≠ "")); by repeat constructor. }
    apply bind_cases.
    2:{ intros x w4 E. apply Hkey in E. by apply (Hstop' _ _ _ E). }
    intros [[uniqueKey count] keyType] w4 E. apply Hkey in E as Hw4. clear E Hkey.
    destruct (bool_decide (uniqueKey = "")); [by apply (Hstop' _ _ _ Hw4)|].
    destruct (bool_decide (count < 0)).
    { destruct (lock_and_panic_trace f dbName tableName w4) as [Hnot Hexit].
      split; [intros out Hout; by apply Hnot in Hout|].
      intros code out Hout. destruct (Hexit code out Hout) as (calls & Htr & Hq).
      exists (([CallTableExists dbName tableName] ++ key) ++ calls)%list.
      rewrite Htr, Hw4, <- !app_assoc. split; [done|].
      rewrite app_assoc. by apply Forall_app. }
    destruct (lock_and_chunk_trace fuel f
                (with_unique_key (Config_of_Flags f dbName tableName) uniqueKey
                                 (Z.to_nat count) keyType)
                dbName tableName w4) as [Hret Hexit].
    split.
    - intros out Hout. destruct (Hret out Hout) as (stmts & Htr & Hst).
      exists stmts. split; [|done]. rewrite Htr, Hw4. fold key. by rewrite <- !app_assoc.
    - intros code out Hout. destruct (Hexit code out Hout) as (calls & Htr & Hq).
      exists (([CallTableExists dbName tableName] ++ key) ++ calls)%list.
      rewrite Htr, Hw4, <- !app_assoc. split; [done|].
      rewrite app_assoc. by apply Forall_app. }
  destruct (body w2) as [[out'|[e|what|code' out'|]] w3]; cbn [fst snd] in *.
  - split; [|done]. intros out _. destruct (Hret out' eq_refl) as (stmts & Htr & Hst).
    exists config, dbName, tableName, stmts. split; [|done].
    cbn [fst snd]. by rewrite issue_trace, Htr, Hw2, <- !app_assoc.
  - by split.
  - by split.
  - split; [done|]. intros code out _.
    destruct (Hexit code' out' eq_refl) as (calls & Htr & Hq).
    exists ([CallNewDB config] ++ calls)%list. cbn [fst snd]. rewrite Htr, Hw2, <- app_assoc.
    split; [done|]. apply Forall_app. split; [by repeat constructor | done].
  - by split.
Qed.

End DriverTraces.

(** X16.  A run that returns has opened the connection, checked the
    table, read the catalogue unless a column is forced, locked the
    table unless told not to, sent statements, unlocked and closed, in
    this order: no statement is sent before the lock or after the
    unlock. *)
Theorem run_returns_between_open_and_close {U : Unicode} {St : Type} (db : DBInterface St)
    (sys : System St) (fuel : nat) (f : Flags) (w : St * list call) (out : string) :
  (runChunkUpdate db sys fuel f w).1 = Ok out →
  ∃ config d t stmts,
    (runChunkUpdate db sys fuel f w).2.2
      = (w.2 ++ [CallNewDB config; CallTableExists d t]
             ++ (if bool_decide (forceColumn f ≠ "") then []
                 else [CallGetPossibleUniqueKeyColumns d t])
             ++ (if skipLock f then [] else [CallLockTableRead d t])
             ++ stmts
             ++ (if skipLock f then [] else [CallUnlockTables])
             ++ [CallClose])%list
    ∧ Forall (λ c, is_statement c = true) stmts.
Proof. apply (runChunkUpdate_trace db sys fuel f w). Qed.

Lemma run_returns_between_open_and_close_witness :
  let r := run 10 (flags_of update_t 2 "d") ["id"] [[1]; [2]; [3]] in
  ∃ config d t stmts,
    r.2.2
      = ([] ++ [CallNewDB config; CallTableExists d t]
            ++ (if bool_decide (forceColumn (flags_of update_t 2 "d") ≠ "") then []
                else [CallGetPossibleUniqueKeyColumns d t])
            ++ (if skipLock (flags_of update_t 2 "d") then [] else [CallLockTableRead d t])
            ++ stmts
            ++ (if skipLock (flags_of update_t 2 "d") then [] else [CallUnlockTables])
            ++ [CallClose])%list
    ∧ Forall (λ c, is_statement c = true) stmts.
Proof.
  intros r.
  assert (r.1 = Ok "") as Hout by evaluated.
  exact (run_returns_between_open_and_close (U := ascii_scenarios) mysqlDB mysqlSystem 10
           (flags_of update_t 2 "d") (session ["id"] [[1]; [2]; [3]], []) "" Hout).
Defined.

(** X17.  A run that ends in an exit ([os.Exit], [log.Fatal]) has
    neither unlocked the table nor closed the connection: the deferred
    calls do not run. *)
Theorem exit_skips_the_deferred_calls {U : Unicode} {St : Type} (db : DBInterface St)
    (sys : System St) (fuel : nat) (f : Flags) (w : St * list call) (code : Z) (out : string) :
  (runChunkUpdate db sys fuel f w).1 = Abort (OsExit code out) →
  ∃ calls,
    (runChunkUpdate db sys fuel f w).2.2 = (w.2 ++ calls)%list
    ∧ (CallUnlockTables ∉ calls) ∧ (CallClose ∉ calls).
Proof.
  intros Hexit.
  destruct (proj2 (runChunkUpdate_trace db sys fuel f w) code out Hexit) as (calls & Htr & Hq).
  exists calls. split; [done|].
  split; intros Hin; apply (proj1 (Forall_forall _ _) Hq) in Hin as [? ?]; done.
Qed.

Lemma exit_skips_the_deferred_calls_witness :
  let f := flags_of "UPDATE test SET col=val WHERE GO_CHUNK(test)" (-1) "test" in
  let r := run 10 f ["id"] [[1]; [2]; [3]] in
  ∃ calls, r.2.2 = ([] ++ calls)%list ∧ (CallUnlockTables ∉ calls) ∧ (CallClose ∉ calls).
Proof.
  intros f r.
  assert (r.1 = Abort (OsExit 1 "Chunk error:You have an error in your SQL syntax")) as Hexit
    by evaluated.
  exact (exit_skips_the_deferred_calls mysqlDB mysqlSystem 10 f
           (session ["id"] [[1]; [2]; [3]], []) 1 _ Hexit).
Defined.

(** ** The options nothing reads *)

Lemma chunk_round_unread {St : Type} (db : DBInterface St) c t s d q firstRound w :
  chunk_round db (with_unread c t s d) q firstRound w = chunk_round db c q firstRound w.
Proof. reflexivity. Qed.

Lemma chunk_loop_unread {St : Type} (db : DBInterface St) c t s d q fuel :
  ∀ firstRound w,
    chunk_loop db (with_unread c t s d) q fuel firstRound w = chunk_loop db c q fuel firstRound w.
Proof.
  induction fuel as [|fuel IH]; intros firstRound w; [done|].
  rewrite !chunk_loop_S, chunk_round_unread.
  destruct (chunk_round db c q firstRound w) as [[[|]|x] w']; [done | apply IH | done].
Qed.

Lemma engine_unread {U : Unicode} {St : Type} (db : DBInterface St) c t s d fuel q w :
  GetSelectedUniqueKeyColumnNames db (with_unread c t s d) w
      = GetSelectedUniqueKeyColumnNames db c w
  ∧ GetUniqueKeyRange db (with_unread c t s d) w = GetUniqueKeyRange db c w
  ∧ ChunkUpdate db fuel (with_unread c t s d) q w = ChunkUpdate db fuel c q w.
Proof.
  split; [reflexivity|]. split; [reflexivity|].
  rewrite !ChunkUpdate_loop.
  change (ChunkUpdate_preamble db (with_unread c t s d) w) with (ChunkUpdate_preamble db c w).
  destruct (ChunkUpdate_preamble db c w) as [[[]|x] w']; [apply chunk_loop_unread | done].
Qed.

Lemma lock_and_chunk_unread {St : Type} (db : DBInterface St) fuel f c t s d dbName tableName w :
  lock_and_chunk db fuel (flags_with_unread f t s d) (with_unread c t s d) dbName tableName w
    = lock_and_chunk db fuel f c dbName tableName w.
Proof.
  assert (∀ w0,
    (let* range := or_fatal "Range error:" (GetUniqueKeyRange db (with_unread c t s d)) in
     if negb range.2 then ret "No range to process"
     else let* _ := or_fatal "Chunk error:"
                      (ChunkUpdate db fuel (with_unread c t s d)
                                   (execute (flags_with_unread f t s d))) in
          ret "") w0
    = (let* range := or_fatal "Range error:" (GetUniqueKeyRange db c) in
       if negb range.2 then ret "No range to process"
       else let* _ := or_fatal "Chunk error:" (ChunkUpdate db fuel c (execute f)) in
            ret "") w0) as Hwork.
  { intros w0. unfold bind at 1 3.
    change (or_fatal "Range error:" (GetUniqueKeyRange db (with_unread c t s d)) w0)
      with (or_fatal "Range error:" (GetUniqueKeyRange db c) w0).
    destruct (or_fatal "Range error:" (GetUniqueKeyRange db c) w0) as [[range|x] w1]; [|done].
    destruct (negb range.2); [done|].
    unfold bind, or_fatal. cbn [execute flags_with_unread].
    by rewrite (proj2 (proj2 (engine_unread db c t s d fuel (execute f) w1))). }
  unfold lock_and_chunk. cbn [skipLock flags_with_unread].
  destruct (negb (skipLock f)); [|apply Hwork].
  unfold bind at 1 4. destruct (or_fatal "Lock error:" (dbLockTableRead db dbName tableName) w)
    as [[[]|x] w1]; [|done].
  unfold with_defer. by rewrite Hwork.
Qed.

Lemma bind_ext {S A B : Type} (m : M S A) (k k' : A → M S B) w :
  (∀ a w', k a w' = k' a w') → bind m k w = bind m k' w.
Proof. intros H. unfold bind. destruct (m w) as [[a|x] w']; [apply H | done]. Qed.

Lemma with_defer_ext {S A : Type} (d : M S unit) (body body' : M S A) w :
  body w = body' w → with_defer d body w = with_defer d body' w.
Proof. unfold with_defer. by intros ->. Qed.

(** X18.  [--terminate-on-not-found], [--skip-retry-chunk] and [--debug]
    change nothing: with any values for them a run makes the same calls
    and ends the same way. *)
Theorem unread_options_change_nothing {U : Unicode} {St : Type} (db : DBInterface St)
    (sys : System St) (fuel : nat) (f : Flags) (terminate skipRetry_ debug_ : bool)
    (w : St * list call) :
  runChunkUpdate db sys fuel (flags_with_unread f terminate skipRetry_ debug_) w
    = runChunkUpdate db sys fuel f w.
Proof.
  unfold runChunkUpdate.
  cbn [execute database promptPass password user host port socket defaultsFile flags_with_unread].
  destruct (bool_decide (execute f = "")); [done|].
  destruct (FindStringSubmatch (execute f)) as [tableSpec|]; [|done].
  apply bind_ext. intros tableName w1.
  destruct (bool_decide (_ = "")); [done|].
  apply bind_ext. intros pass w2.
  apply bind_ext. intros [] w3.
  apply with_defer_ext.
  apply bind_ext. intros exists_ w4.
  destruct (negb exists_); [done|].
  change (GetSelectedUniqueKeyColumnNames db
            (Config_of_Flags (flags_with_unread f terminate skipRetry_ debug_) ?d ?t))
    with (GetSelectedUniqueKeyColumnNames db (Config_of_Flags f d t)).
  apply bind_ext. intros [[uniqueKey count] keyType] w5.
  destruct (bool_decide (uniqueKey = "")); [done|].
  destruct (bool_decide (count < 0)); [reflexivity|].
  match goal with |- lock_and_chunk db fuel _ (with_unique_key (Config_of_Flags _ ?d ?t) _ _ _) _ _ _ = _ =>
    change (with_unique_key
              (Config_of_Flags (flags_with_unread f terminate skipRetry_ debug_) d t)
              uniqueKey (Z.to_nat count) keyType)
      with (with_unread (with_unique_key (Config_of_Flags f d t) uniqueKey (Z.to_nat count)
                                         keyType)
                        terminate skipRetry_ debug_) end.
  apply lock_and_chunk_unread.
Qed.

(** ** The connection settings *)

Lemma keep_lookup client name config name' :
  keep client name config !! name'
    = if bool_decide (name' = name) && bool_decide (client name ≠ "")
      then Some (client name) else config !! name'.
Proof.
  unfold keep. destruct (bool_decide (client name ≠ "")).
  - destruct (decide (name' = name)) as [->|Hne].
    + rewrite bool_decide_eq_true_2 by done. apply lookup_insert_eq.
    + rewrite bool_decide_eq_false_2 by done. by apply lookup_insert_ne.
  - by rewrite andb_false_r.
Qed.

Lemma parseMyCnf_client_lookup client name :
  name ∈ ["user"; "password"; "host"; "port"; "socket"; "database"] →
  parseMyCnf_client client !! name
    = if bool_decide (client name = "") then None else Some (client name).
Proof.
  intros Hin. unfold parseMyCnf_client. rewrite !keep_lookup, lookup_empty.
  destruct (decide (client name = "")) as [E|E];
    [rewrite (bool_decide_eq_true_2 _ E) | rewrite (bool_decide_eq_false_2 _ E)];
    repeat (apply elem_of_cons in Hin as [->|Hin]); try (by apply elem_of_nil in Hin);
    repeat (first [ rewrite (bool_decide_eq_true_2 (_ = _)) by done
                  | rewrite (bool_decide_eq_false_2 (_ = _)) by done ]);
    cbn [andb];
    first [ rewrite (bool_decide_eq_false_2 (_ ≠ "")) by (intros H; by apply H)
          | rewrite (bool_decide_eq_true_2 (_ ≠ "")) by done ];
    done.
Qed.

Lemma or_file_client client name given :
  name ∈ ["user"; "password"; "host"; "port"; "socket"; "database"] →
  or_file (parseMyCnf_client client) name given = given_or given (client name).
Proof.
  intros Hin. unfold or_file, given_or. rewrite parseMyCnf_client_lookup by done.
  destruct (decide (client name = "")) as [E|E].
  - rewrite (bool_decide_eq_true_2 _ E), E. by destruct (bool_decide (given = "")) eqn:G;
      [apply bool_decide_eq_true in G|].
  - by rewrite (bool_decide_eq_false_2 _ E).
Qed.

Lemma given_or_idemp given file : given_or (given_or given file) file = given_or given file.
Proof.
  unfold given_or. destruct (decide (given = "")) as [->|Hne].
  - rewrite (bool_decide_eq_true_2 ("" = "")) by done. by destruct (bool_decide (file = "")).
  - by rewrite !(bool_decide_eq_false_2 (given = "")) by done.
Qed.

Lemma port_client client (given : Z) :
  match parseMyCnf_client client !! "port" with
  | Some port =>
      if bool_decide (given = 0)
      then match strconv.Atoi port with Some p => p | None => given end
      else given
  | None => given
  end = if bool_decide (given = 0) then default 0 (strconv.Atoi (client "port")) else given.
Proof.
  rewrite parseMyCnf_client_lookup by set_solver.
  destruct (decide (client "port" = "")) as [E|E].
  - rewrite (bool_decide_eq_true_2 _ E), E.
    destruct (decide (given = 0)) as [->|G]; [done | by rewrite bool_decide_eq_false_2].
  - rewrite (bool_decide_eq_false_2 _ E).
    destruct (decide (given = 0)) as [->|G]; [|by rewrite bool_decide_eq_false_2].
    rewrite bool_decide_eq_true_2 by done. by destruct (strconv.Atoi (client "port")).
Qed.

(** X19.  After the defaults file has been read, a setting given on the
    command line is as given and a setting left empty (the port: left
    at 0) is that of the [client] section of the file, where the port
    of the file counts only if it is a number; reading the file a
    second time changes nothing more. *)
Theorem defaults_file_fills_what_is_not_given (client : string → string) (config : ConnConfig) :
  let config' := NewDB_defaults (parseMyCnf_client client) config in
  User config' = given_or (User config) (client "user")
  ∧ Password config' = given_or (Password config) (client "password")
  ∧ Host config' = given_or (Host config) (client "host")
  ∧ Socket config' = given_or (Socket config) (client "socket")
  ∧ ConnDatabase config' = given_or (ConnDatabase config) (client "database")
  ∧ Port config' = (if bool_decide (Port config = 0)
                    then default 0 (strconv.Atoi (client "port")) else Port config)
  ∧ NewDB_defaults (parseMyCnf_client client) config' = config'.
Proof.
  intros config'.
  assert (User config' = given_or (User config) (client "user")) as HU
    by (apply or_file_client; set_solver).
  assert (Password config' = given_or (Password config) (client "password")) as HP
    by (apply or_file_client; set_solver).
  assert (Host config' = given_or (Host config) (client "host")) as HH
    by (apply or_file_client; set_solver).
  assert (Socket config' = given_or (Socket config) (client "socket")) as HS
    by (apply or_file_client; set_solver).
  assert (ConnDatabase config' = given_or (ConnDatabase config) (client "database")) as HD
    by (apply or_file_client; set_solver).
  assert (Port config' = (if bool_decide (Port config = 0)
                          then default 0 (strconv.Atoi (client "port")) else Port config)) as HPort
    by apply port_client.
  repeat (split; [done|]).
  destruct config' as [u p h po so d df] eqn:E. cbn in HU, HP, HH, HS, HD, HPort.
  unfold NewDB_defaults. cbn [User Password Host Port Socket ConnDatabase DefaultsFile].
  rewrite !or_file_client by set_solver. rewrite port_client.
  f_equal.
  - by rewrite HU, given_or_idemp.
  - by rewrite HP, given_or_idemp.
  - by rewrite HH, given_or_idemp.
  - rewrite HPort. destruct (decide (Port config = 0)) as [P0|P0].
    + rewrite (bool_decide_eq_true_2 _ P0).
      destruct (decide (default 0 (strconv.Atoi (client "port")) = 0)) as [Q|Q].
      * by rewrite (bool_decide_eq_true_2 _ Q).
      * by rewrite (bool_decide_eq_false_2 _ Q).
    + by rewrite !(bool_decide_eq_false_2 _ P0).
  - by rewrite HS, given_or_idemp.
  - by rewrite HD, given_or_idemp.
Qed.

(** X20.  The data source name puts the user and the password side by
    side with a colon between and escapes nothing: a user [u:p] with
    the password [x] and the user [u] with the password [p:x] give the
    same name. *)
Theorem dsn_does_not_delimit_the_user (u p x h so d df : string) (po : Z) :
  dsn {| User := u +:+ ":" +:+ p; Password := x; Host := h; Port := po; Socket := so;
         ConnDatabase := d; DefaultsFile := df |}
  = dsn {| User := u; Password := p +:+ ":" +:+ x; Host := h; Port := po; Socket := so;
           ConnDatabase := d; DefaultsFile := df |}.
Proof.
  unfold dsn. cbn [User Password Host Port Socket ConnDatabase].
  assert (∀ a b c : string, (a +:+ b) +:+ c = a +:+ (b +:+ c)) as Hassoc.
  { intros a b c. induction a as [|ch a IH]; [done|]. change (String ch ((a +:+ b) +:+ c) = String ch (a +:+ (b +:+ c))). by rewrite IH. }
  destruct (_ && _); by rewrite !Hassoc.
Qed.
